(** * youtube_downloader: stream catalogue, progress monitor and session

    A shallow embedding of [youtube_downloader.py]:
    - [clean_filename], the stream catalogue [organize_streams] and the
      quality column of [print_stream_options];
    - the progress loops of [process_with_progress] and [process_audio];
    - the format prompt and the download session of [download_video],
      run against an explicit file system and an explicit environment.

    Python strings are modelled as [string]; the labels the code inspects
    (resolutions, bitrates, container names) are ASCII.  Python [int] is
    [Z] (or [N] where the code can only produce a natural number). *)

From stdpp Require Import base decidable option gmap strings.
From Stdlib Require Import List String Ascii Bool ZArith NArith QArith Qround Qabs Qpower.
From Stdlib Require Import Lia Lqa.
From Stdlib Require Import Sorting.Sorted Sorting.Permutation.
From Stdlib Require Import DecimalString DecimalN.
From Stdlib Require Import Floats.SpecFloat.

Import ListNotations.
Local Open Scope string_scope.
Local Open Scope list_scope.
Local Open Scope Z_scope.

(** ** Exceptions *)

Inductive exn : Type :=
| ValueError
| TypeError
| KeyError
| AttributeError
| OSError
| EOFError
| OverflowError
| KeyboardInterrupt
| SystemExit (code : Z).

Inductive result (A : Type) : Type :=
| Ok (a : A)
| Raise (e : exn).
Arguments Ok {A} a.
Arguments Raise {A} e.

Definition rbind {A B : Type} (m : result A) (k : A -> result B) : result B :=
  match m with
  | Ok a => k a
  | Raise e => Raise e
  end.

Notation "x <-- m ;; k" := (rbind m (fun x => k))
  (at level 100, m at next level, right associativity).

Fixpoint mapM {A B : Type} (f : A -> result B) (l : list A) : result (list B) :=
  match l with
  | [] => Ok []
  | x :: l' => y <-- f x ;; ys <-- mapM f l' ;; Ok (y :: ys)
  end.

Fixpoint foldM {A S : Type} (f : S -> A -> result S) (l : list A) (s : S) : result S :=
  match l with
  | [] => Ok s
  | x :: l' => s' <-- f s x ;; foldM f l' s'
  end.

(** ** Strings *)

Fixpoint str_filter (p : ascii -> bool) (s : string) : string :=
  match s with
  | EmptyString => EmptyString
  | String c s' => if p c then String c (str_filter p s') else str_filter p s'
  end.

Fixpoint str_map (f : ascii -> ascii) (s : string) : string :=
  match s with
  | EmptyString => EmptyString
  | String c s' => String (f c) (str_map f s')
  end.

Fixpoint str_mem (c : ascii) (s : string) : bool :=
  match s with
  | EmptyString => false
  | String d s' => Ascii.eqb c d || str_mem c s'
  end.

(** [needle in s] *)
Fixpoint str_in (needle s : string) : bool :=
  String.prefix needle s ||
  match s with
  | EmptyString => false
  | String _ s' => str_in needle s'
  end.

(** [str.isdigit] on ASCII text: the ten decimal digits.  (Beyond ASCII
    Python also counts other digit characters, some of which [int] does
    not read; the statements that depend on the digits of a label are
    made for ASCII labels, see [ascii_labels].) *)
Definition isdigit (c : ascii) : bool :=
  (48 <=? nat_of_ascii c)%nat && (nat_of_ascii c <=? 57)%nat.

(** [str.lower] on ASCII *)
Definition lower_char (c : ascii) : ascii :=
  if (65 <=? nat_of_ascii c)%nat && (nat_of_ascii c <=? 90)%nat
  then ascii_of_nat (nat_of_ascii c + 32) else c.

Definition lower (s : string) : string := str_map lower_char s.

(** [int(s)] for a string of decimal digits; the empty string is a
    [ValueError].  (The interpreter's limit on the length of a digit
    string is not modelled; see [ascii_labels].) *)
Definition int_of_digits (s : string) : result N :=
  match s with
  | EmptyString => Raise ValueError
  | _ => match NilEmpty.uint_of_string s with
         | Some d => Ok (N.of_uint d)
         | None => Raise ValueError
         end
  end.

(** [int(''.join(filter(str.isdigit, x)))] *)
Definition digits_int (x : string) : result N :=
  int_of_digits (str_filter isdigit x).

(** The f-string rendering of a natural number. *)
Definition str_of_N (n : N) : string := NilEmpty.string_of_uint (N.to_uint n).

(** Truthiness of an optional string: [None] and the empty string are
    falsy. *)
Definition truthy (o : option string) : option string :=
  match o with
  | Some EmptyString => None
  | Some s => Some s
  | None => None
  end.

(** ** clean_filename *)

(** The character class of the regular expression: less-than,
    greater-than, colon, double quote, slash, backslash, bar, question
    mark and star. *)
Definition illegal_chars : string :=
  String "<" (String ">" (String ":" (String "034" (String "/"
  (String "\" (String "|" (String "?" (String "*" EmptyString)))))))).

Definition is_illegal (c : ascii) : bool := str_mem c illegal_chars.

(** [re.sub] of that class by the empty string. *)
Definition clean_filename (title : string) : string :=
  str_filter (fun c => negb (is_illegal c)) title.

(** ** Ordered dictionaries

    A Python [dict] keeps its keys in insertion order; assigning to an
    existing key keeps the key's position. *)

Section Dict.
Context {K V : Type} `{EqDecision K}.

Fixpoint dict_get (k : K) (d : list (K * V)) : option V :=
  match d with
  | [] => None
  | (k', v) :: d' => if decide (k = k') then Some v else dict_get k d'
  end.

Definition dict_mem (k : K) (d : list (K * V)) : bool :=
  match dict_get k d with Some _ => true | None => false end.

Fixpoint dict_set (k : K) (v : V) (d : list (K * V)) : list (K * V) :=
  match d with
  | [] => [(k, v)]
  | (k', v') :: d' =>
      if decide (k = k') then (k, v) :: d' else (k', v') :: dict_set k v d'
  end.

Definition dict_keys (d : list (K * V)) : list K := map fst d.

(** [d[k]] *)
Definition dict_index (d : list (K * V)) (k : K) : result V :=
  match dict_get k d with
  | Some v => Ok v
  | None => Raise KeyError
  end.
End Dict.

(** ** sorted(..., key=..., reverse=True)

    Python's sort is stable, also with [reverse=True]: elements with equal
    keys keep their original order.  The list is decorated with its keys
    first (the key function runs once per element and may raise). *)

Section Sorted.
Context {SK A : Type}.
Variable ltb : SK -> SK -> bool.

Fixpoint insert_desc (x : SK * A) (l : list (SK * A)) : list (SK * A) :=
  match l with
  | [] => [x]
  | y :: l' => if ltb (fst x) (fst y) then y :: insert_desc x l' else x :: y :: l'
  end.

Fixpoint sort_desc (l : list (SK * A)) : list (SK * A) :=
  match l with
  | [] => []
  | x :: l' => insert_desc x (sort_desc l')
  end.

Definition sorted_reverse (key : A -> result SK) (l : list A) : result (list A) :=
  ks <-- mapM (fun a => k <-- key a ;; Ok (k, a)) l ;;
  Ok (map snd (sort_desc ks)).
End Sorted.

(** Tuple order on [(int, bool)] keys. *)
Definition pair_ltb (a b : N * bool) : bool :=
  (fst a <? fst b)%N || ((fst a =? fst b)%N && negb (snd a) && snd b).

(** ** Streams *)

Record Stream : Type := mkStream {
  itag : nat;
  includes_video_track : bool;
  includes_audio_track : bool;
  is_progressive : bool;
  subtype : string;
  resolution : option string;
  abr : option string;
  filesize : Z
}.

(** The dictionaries built for the MP3 and AAC options. *)
Record VirtualStream : Type := mkVirtual {
  v_type : string;
  v_subtype : string;
  v_abr : string;
  v_filesize : Z;
  v_audio_codec : string;
  original_stream : Stream
}.

(** An entry of a menu list: a stream object or a dictionary. *)
Inductive MenuEntry : Type :=
| Real (s : Stream)
| Virtual (v : VirtualStream).

(** ** organize_streams *)

Definition key_1080p_hd : option string := Some "1080p_hd".
Definition key_1080p : option string := Some "1080p".

(** State of the first loop: [video_streams], [audio_streams] and
    [best_audio]. *)
Record Collected : Type := mkCollected {
  video_streams : list (option string * Stream);
  audio_streams : list Stream;
  best_audio : option Stream
}.

(** [stream.abr and best_audio.abr and int(digits(stream.abr)) >
    int(digits(best_audio.abr))] *)
Definition abr_greater (stream best : Stream) : result bool :=
  match truthy (abr stream), truthy (abr best) with
  | Some a, Some b =>
      x <-- digits_int a ;; y <-- digits_int b ;; Ok (y <? x)%N
  | _, _ => Ok false
  end.

(** Body of [for stream in yt.streams]. *)
Definition collect_step (verbose : bool) (st : Collected) (stream : Stream)
  : result Collected :=
  if includes_video_track stream then
    if negb verbose && String.eqb (subtype stream) "webm" then Ok st
    else
      if decide (resolution stream = key_1080p) then
        match dict_get key_1080p_hd (video_streams st) with
        | None =>
            Ok (mkCollected (dict_set key_1080p_hd stream (video_streams st))
                            (audio_streams st) (best_audio st))
        | Some hd =>
            if filesize stream <? filesize hd then
              Ok (mkCollected (dict_set key_1080p stream (video_streams st))
                              (audio_streams st) (best_audio st))
            else Ok st
        end
      else if dict_mem (resolution stream) (video_streams st) then Ok st
      else
        Ok (mkCollected (dict_set (resolution stream) stream (video_streams st))
                        (audio_streams st) (best_audio st))
  else if includes_audio_track stream && negb (includes_video_track stream) then
    better <-- match best_audio st with
               | None => Ok true
               | Some best => abr_greater stream best
               end ;;
    Ok (mkCollected (video_streams st)
                    (audio_streams st ++ [stream])
                    (if better then Some stream else best_audio st))
  else Ok st.

Definition collect (verbose : bool) (streams : list Stream) : result Collected :=
  foldM (collect_step verbose) streams (mkCollected [] [] None).

(** Sort key of a resolution key:
    [(int(digits(x)), 'hd' in x.lower())]. *)
Definition video_sort_key (x : option string) : result (N * bool) :=
  match x with
  | None => Raise TypeError
  | Some x => n <-- digits_int x ;; Ok (n, str_in "hd" (lower x))
  end.

(** [ordered_streams]: the dictionary's values in sorted key order. *)
Definition order_video (vs : list (option string * Stream)) : result (list Stream) :=
  resolutions <-- sorted_reverse pair_ltb video_sort_key (dict_keys vs) ;;
  mapM (dict_index vs) resolutions.

(** Bucket of an audio stream:
    [int(digits(stream.abr if stream.abr else "128"))]. *)
Definition bitrate_of (stream : Stream) : result N :=
  digits_int (match truthy (abr stream) with Some a => a | None => "128" end).

Definition bitrate_key (bitrate : N) : string :=
  (str_of_N bitrate ++ "kbps")%string.

Definition bucket_step (audio_quality : list (string * Stream)) (stream : Stream)
  : result (list (string * Stream)) :=
  bitrate <-- bitrate_of stream ;;
  let key := bitrate_key bitrate in
  match dict_get key audio_quality with
  | None => Ok (dict_set key stream audio_quality)
  | Some kept =>
      if filesize stream <? filesize kept
      then Ok (dict_set key stream audio_quality)
      else Ok audio_quality
  end.

Definition audio_buckets (audio : list Stream) : result (list (string * Stream)) :=
  foldM bucket_step audio [].

(** The ranked audio list: one stream per bitrate key, keys sorted by
    their number, descending. *)
Definition rank_audio (audio : list Stream) : result (list Stream) :=
  audio_quality <-- audio_buckets audio ;;
  bitrates <-- sorted_reverse N.ltb digits_int (dict_keys audio_quality) ;;
  mapM (dict_index audio_quality) bitrates.

(** [audio.abr if audio.abr else "160kbps"] *)
Definition virtual_label (audio : Stream) : string :=
  match truthy (abr audio) with Some a => a | None => "160kbps" end.

Definition mp3_stream (audio : Stream) : VirtualStream :=
  mkVirtual "audio" "mp3" (virtual_label audio) (filesize audio) "mp3" audio.

Definition aac_stream (audio : Stream) : VirtualStream :=
  mkVirtual "audio" "aac" (virtual_label audio) (filesize audio) "aac" audio.

Definition virtual_streams (ranked : list Stream) : list VirtualStream :=
  flat_map (fun audio => [mp3_stream audio; aac_stream audio]) ranked.

Definition audio_menu (verbose : bool) (best : option Stream) (ranked : list Stream)
  : list MenuEntry :=
  match best with
  | Some _ =>
      if verbose then map Real ranked ++ map Virtual (virtual_streams ranked)
      else map Virtual (firstn 2 (virtual_streams ranked))
  | None => map Real ranked
  end.

Definition organize_streams (streams : list Stream) (verbose : bool)
  : result (list Stream * list MenuEntry) :=
  st <-- collect verbose streams ;;
  ordered_streams <-- order_video (video_streams st) ;;
  ranked <-- rank_audio (audio_streams st) ;;
  Ok (ordered_streams, audio_menu verbose (best_audio st) ranked).

(** ** print_stream_options: the Quality column of the video rows *)

Definition resolution_text (r : option string) : string :=
  match r with Some r => r | None => "None" end.

(** Row [i] (1-based) of the video table. *)
Definition video_quality (i : nat) (stream : Stream) : result string :=
  if decide (resolution stream = key_1080p) then
    if Nat.eqb i 1 then Ok "1080p+" else Ok "1080p"
  else
    match resolution stream with
    | Some r => Ok r
    | None => Raise TypeError
    end.

Fixpoint video_qualities_from (i : nat) (video : list Stream) : result (list string) :=
  match video with
  | [] => Ok []
  | stream :: rest =>
      q <-- video_quality i stream ;;
      qs <-- video_qualities_from (S i) rest ;;
      Ok (q :: qs)
  end.

Definition video_qualities (video : list Stream) : result (list string) :=
  video_qualities_from 1 video.

(** ** format_duration *)

(** [str(z)] for an [int]. *)
Definition str_of_Z (z : Z) : string :=
  match z with
  | Zneg p => String "-" (str_of_N (Npos p))
  | _ => str_of_N (Z.to_N z)
  end.

(** The format [02d]: at least two characters, zeros after the sign. *)
Definition pad2 (z : Z) : string :=
  if z <? 0 then str_of_Z z
  else if z <? 10 then String "0" (str_of_Z z)
  else str_of_Z z.

(** [duration] is [yt.length]: an [int], or [None]. *)
Definition format_duration (duration : option Z) : string :=
  match duration with
  | None => "0:00"
  | Some duration =>
      if duration =? 0 then "0:00"
      else
        let minutes := duration / 60 in
        let seconds := duration mod 60 in
        if 60 <=? minutes then
          let hours := minutes / 60 in
          let minutes := minutes mod 60 in
          (str_of_Z hours ++ ":" ++ pad2 minutes ++ ":" ++ pad2 seconds)%string
        else (str_of_Z minutes ++ ":" ++ pad2 seconds)%string
  end.

(** ** Python floats

    A Python float is a binary64 number: 53 bits of precision, exponents
    down to -1074.  A finite float is a rational, and an operation gives
    the float nearest to its exact result, ties going to the even
    significand. *)

Definition pow2 (k : Z) : Q := (2 ^ k)%Q.

(** The binade of a positive rational: the [e] with
    [2^(e-1) <= x < 2^e]. *)
Definition magnitude (x : Q) : Z :=
  let e := Z.log2 (Qnum x) - Z.log2 (Zpos (Qden x)) in
  if Qle_bool (pow2 e) x then e + 1 else e.

(** The exponent of the last bit of a float in binade [e]. *)
Definition fexp64 (e : Z) : Z := Z.max (e - 53) (-1074).

(** The nearest integer, ties to even. *)
Definition round_half_even (q : Q) : Z :=
  let k := Qfloor q in
  match (q - inject_Z k ?= 1 # 2)%Q with
  | Lt => k
  | Gt => k + 1
  | Eq => if Z.even k then k else k + 1
  end.

(** The nearest multiple of [2^f]. *)
Definition on_grid (f : Z) (x : Q) : Q :=
  (inject_Z (round_half_even (x / pow2 f)) * pow2 f)%Q.

(** The float nearest to an exact result. *)
Definition binary64 (x : Q) : Q :=
  match (x ?= 0)%Q with
  | Eq => 0%Q
  | Gt => on_grid (fexp64 (magnitude x)) x
  | Lt => (- on_grid (fexp64 (magnitude (- x))) (- x))%Q
  end.

(** A result whose magnitude reaches this bound has no finite float:
    integer division raises [OverflowError] at once, float arithmetic
    gives an infinity on which [int] raises it. *)
Definition overflow_threshold : Q := inject_Z (2 ^ 1024 - 2 ^ 970).

(** The same bound as an integer. *)
Definition float_limit : Z := 2 ^ 1024 - 2 ^ 970.

(** The float for an exact result. *)
Definition fl (x : Q) : result Q :=
  if Qle_bool overflow_threshold (Qabs x) then Raise OverflowError
  else Ok (binary64 x).

(** [int(x)] on a finite float: truncation towards zero. *)
Definition int_of_float (x : Q) : Z :=
  if Qle_bool 0 x then Qfloor x else Qceiling x.

(** The same rounding computed by the division of the standard library's
    float specification, for quotients below [overflow_threshold]. *)
Definition Q_of_float (f : spec_float) : Q :=
  match f with
  | S754_finite s m e => (inject_Z (if s then Zneg m else Zpos m) * Qpower 2 e)%Q
  | _ => 0%Q
  end.

Definition spec_float_round (x : Q) : Q :=
  match Qnum x with
  | Z0 => 0%Q
  | Zpos n =>
      Q_of_float (SFdiv 53 1024 (S754_finite false n 0) (S754_finite false (Qden x) 0))
  | Zneg n =>
      Q_of_float (SFdiv 53 1024 (S754_finite true n 0) (S754_finite false (Qden x) 0))
  end.

(** ** format_filesize *)

(** A Python number: an [int] or a [float]. *)
Inductive number : Type :=
| Int (n : Z)
| Float (x : Q).

Definition number_value (b : number) : Q :=
  match b with
  | Int n => inject_Z n
  | Float x => x
  end.

(** [float(b)], which the format [.2f] applies to an [int]. *)
Definition to_float (b : number) : result Q :=
  match b with
  | Int n => fl (inject_Z n)
  | Float x => Ok x
  end.

(** The format [.2f] of a finite float: its exact value rounded to two
    decimals, ties to even; the sign is printed also when the rounded
    value is zero. *)
Definition fixed2 (x : Q) : string :=
  let cents := Z.abs (round_half_even (x * 100)) in
  ((if Qle_bool 0 x then "" else "-") ++
   str_of_Z (cents / 100) ++ "." ++ pad2 (cents mod 100))%string.

Definition format_2f (b : number) : result string :=
  x <-- to_float b ;; Ok (fixed2 x).

(** [bytes < 1024] *)
Definition below_1024 (b : number) : bool := negb (Qle_bool 1024 (number_value b)).

(** [bytes /= 1024]: true division, the result is a float. *)
Definition div_1024 (b : number) : result number :=
  x <-- fl (number_value b / 1024) ;; Ok (Float x).

(** The [for unit in ...] loop, and the [return] after it. *)
Fixpoint format_filesize_from (units : list string) (bytes : number) : result string :=
  match units with
  | [] => text <-- format_2f bytes ;; Ok (text ++ " TB")%string
  | unit :: rest =>
      if below_1024 bytes then
        text <-- format_2f bytes ;; Ok (text ++ " " ++ unit)%string
      else
        bytes <-- div_1024 bytes ;; format_filesize_from rest bytes
  end.

Definition format_filesize (bytes : Z) : result string :=
  format_filesize_from ["B"; "KB"; "MB"; "GB"] (Int bytes).


(** ** print_stream_options: the table *)

Fixpoint spaces (n : nat) : string :=
  match n with
  | O => EmptyString
  | S n' => String " " (spaces n')
  end.

(** The format [<n] of an f-string field: the text, then spaces up to [n]
    characters. *)
Definition ljust (n : nat) (s : string) : string :=
  (s ++ spaces (n - String.length s))%string.

Fixpoint str_drop (n : nat) (s : string) : string :=
  match n, s with
  | S n', String _ s' => str_drop n' s'
  | _, _ => s
  end.

(** [s.replace(old, EmptyString)] for a non-empty [old]: its occurrences are
    left out, from left to right. *)
Fixpoint remove_within (fuel : nat) (old s : string) : string :=
  match fuel, s with
  | S fuel', String c s' =>
      if String.prefix old s then remove_within fuel' old (str_drop (String.length old) s)
      else String c (remove_within fuel' old s')
  | _, _ => s
  end.

Definition str_remove (old s : string) : string :=
  remove_within (String.length s) old s.

Fixpoint dashes (n : nat) : string :=
  match n with
  | O => EmptyString
  | S n' => String "-" (dashes n')
  end.

Section Table.
(** [stream.video_codec] and [stream.audio_codec]; each may be [None]. *)
Variables video_codec audio_codec : Stream -> option string.

(** The line of one entry, or of the header. *)
Definition table_row (verbose : bool) (number kind quality format codec size : string)
  : string :=
  if verbose then
    (ljust 3 number ++ " " ++ ljust 12 kind ++ " " ++ ljust 10 quality ++ " " ++
     ljust 8 format ++ " " ++ ljust 15 codec ++ " " ++ ljust 10 size)%string
  else
    (ljust 3 number ++ " " ++ ljust 12 kind ++ " " ++ ljust 10 quality ++ " " ++
     ljust 8 format ++ " " ++ ljust 10 size)%string.

Definition table_header (verbose : bool) : string :=
  table_row verbose "#" "Type" "Quality" "Format" "Codec" "Size".

Definition separator (verbose : bool) : string :=
  dashes (if verbose then 100 else 90).

(** Body of the loop over [video_streams]; [i] counts from 1. *)
Definition video_row (verbose : bool) (i : nat) (stream : Stream) : result string :=
  size <-- format_filesize (filesize stream) ;;
  quality <-- video_quality i stream ;;
  Ok (table_row verbose (str_of_N (N.of_nat i)) "Video" quality (subtype stream)
        (str_remove "video/" (resolution_text (video_codec stream))) size).

(** Body of the loop over [audio_streams]. *)
Definition audio_row (verbose : bool) (i : nat) (stream : MenuEntry) : result string :=
  match stream with
  | Virtual v =>
      size <-- format_filesize (v_filesize v) ;;
      Ok (table_row verbose (str_of_N (N.of_nat i)) "Audio only" (v_abr v) (v_subtype v)
            (v_audio_codec v) size)
  | Real s =>
      size <-- format_filesize (filesize s) ;;
      Ok (table_row verbose (str_of_N (N.of_nat i)) "Audio only"
            (match truthy (abr s) with Some a => a | None => "128kbps" end)
            (subtype s)
            (str_remove "audio/" (resolution_text (audio_codec s))) size)
  end.

(** A loop that prints one line per entry, numbered from [i]; the lines
    printed before an exception stay printed. *)
Fixpoint print_rows {A : Type} (row : nat -> A -> result string) (i : nat) (l : list A)
    (out : list string) : list string * result unit :=
  match l with
  | [] => (out, Ok tt)
  | x :: rest =>
      match row i x with
      | Ok line => print_rows row (S i) rest (out ++ [line])
      | Raise e => (out, Raise e)
      end
  end.

(** The lines printed, and how the call ends. *)
Definition print_stream_options (video : list Stream) (audio : list MenuEntry)
    (verbose : bool) : list string * result unit :=
  let top := [EmptyString; "Available formats:"; separator verbose;
              table_header verbose; separator verbose] in
  match print_rows (video_row verbose) 1 video top with
  | (out, Raise e) => (out, Raise e)
  | (out, Ok _) =>
      match print_rows (audio_row verbose) (List.length video + 1) audio out with
      | (out', Raise e) => (out', Raise e)
      | (out', Ok _) => (out' ++ [separator verbose], Ok tt)
      end
  end.
End Table.

(** ** Progress of an ffmpeg run *)

(** A line of the progress channel, as a monitor loop sees it: a line of
    its own key, with the integer [int] reads from it or [None] when [int]
    raises [ValueError], or any other line. *)
Inductive progress_line : Type :=
| Counter (value : option Z)
| OtherLine.

(** The tqdm bar: its field [n] and the values it has displayed. *)
Record Bar : Type := mkBar {
  bar_n : Z;
  shown : list Z
}.

Definition new_bar : Bar := mkBar 0 [0].

(** [pbar.n = v; pbar.refresh()] *)
Definition refresh (v : Z) (bar : Bar) : Bar := mkBar v (shown bar ++ [v]).

(** [min(int((frame_count / total_frames) * 100), 100)] *)
Definition frame_percent (total_frames frame_count : Z) : result Z :=
  ratio <-- fl (inject_Z frame_count / inject_Z total_frames)%Q ;;
  scaled <-- fl (ratio * 100)%Q ;;
  Ok (Z.min (int_of_float scaled) 100).

(** Body of the [try] for a frame line of [process_with_progress]. *)
Definition frame_step (total_frames frame_count : Z) : result (option Z) :=
  if 0 <? total_frames then
    progress <-- frame_percent total_frames frame_count ;; Ok (Some progress)
  else Ok None.

(** Body of the [try] for an out_time_ms line of [process_audio]. *)
Definition time_step (duration : Q) (out_time : Z) : result (option Z) :=
  time_processed <-- fl (inject_Z out_time / 1000000)%Q ;;
  if negb (Qle_bool duration 0) then
    ratio <-- fl (time_processed / duration)%Q ;;
    scaled <-- fl (ratio * 100)%Q ;;
    Ok (Some (Z.min (int_of_float scaled) 100))
  else Ok None.

(** The [while True] loop over the lines ffmpeg writes. *)
Fixpoint monitor (step : Z -> result (option Z)) (lines : list progress_line)
    (bar : Bar) : Bar * result unit :=
  match lines with
  | [] => (bar, Ok tt)
  | Counter (Some value) :: rest =>
      match step value with
      | Ok (Some progress) => monitor step rest (refresh progress bar)
      | Ok None => monitor step rest bar
      | Raise e => (bar, Raise e)
      end
  | _ :: rest => monitor step rest bar
  end.

(** The loop, then [pbar.n = 100; pbar.refresh()]. *)
Definition run_bar (step : Z -> result (option Z)) (lines : list progress_line)
  : Bar * result unit :=
  match monitor step lines new_bar with
  | (bar, Ok _) => (refresh 100 bar, Ok tt)
  | (bar, Raise e) => (bar, Raise e)
  end.

(** [process_with_progress] without [verbose]: the bar over the lines of
    the progress channel, for the total frame count that ffprobe gave. *)
Definition process_with_progress (total_frames : Z) (lines : list progress_line)
  : Bar * result unit :=
  run_bar (frame_step total_frames) lines.

(** [process_audio] without [verbose]: the bar over the lines of the
    progress channel, for the duration that ffprobe gave (0 when it gave
    none). *)
Definition process_audio (duration : Q) (lines : list progress_line)
  : Bar * result unit :=
  run_bar (time_step duration) lines.

(** The numbers carried by the lines, in order. *)
Fixpoint counters (lines : list progress_line) : list Z :=
  match lines with
  | [] => []
  | Counter (Some value) :: rest => value :: counters rest
  | _ :: rest => counters rest
  end.





(** The counts 0 to 100 out of a total of 100. *)
Definition hundredths : list Z := map Z.of_nat (seq 0 101).

(** The displayed percentage is the exact one, or one less. *)
Definition near_exact (k : Z) : bool :=
  match frame_step 100 k with
  | Ok (Some p) => (k - 1 <=? p) && (p <=? k)
  | _ => false
  end.

(** ** The download session

    The session runs against a file system (path to file state) and a
    console, and against an environment that fixes what the collaborators
    do: the downloads of pytubefix, the run of ffmpeg and the start of the
    file manager. *)

Inductive file_state : Type := Partial | Complete.

Inductive message : Type :=
| InvalidNumber            (* Invalid number. Try again. *)
| EnterValidNumber         (* Please enter a valid number. *)
| CancelledByUser          (* Download cancelled by user. (at the prompt) *)
| DownloadCancelled        (* Download cancelled by user. (outer handler) *)
| IncorrectLink            (* Error downloading video, incorrect link *)
| ErrorCombining           (* Error combining video and audio *)
| ErrorConverting          (* Error converting audio *)
| SavedTo (path : string). (* Saved to: path *)

Record State : Type := mkState {
  files : gmap string file_state;
  console : list message
}.

Definition Sess (A : Type) : Type := State -> State * result A.

Definition sret {A : Type} (a : A) : Sess A := fun st => (st, Ok a).

Definition sbind {A B : Type} (m : Sess A) (k : A -> Sess B) : Sess B :=
  fun st => match m st with
            | (st', Ok a) => k a st'
            | (st', Raise e) => (st', Raise e)
            end.

Notation "x <~ m ;; k" := (sbind m (fun x => k))
  (at level 100, m at next level, right associativity).
Notation "m ;;; k" := (sbind m (fun _ => k))
  (at level 100, right associativity).

Definition raise {A : Type} (e : exn) : Sess A := fun st => (st, Raise e).

Definition print (m : message) : Sess unit :=
  fun st => (mkState (files st) (console st ++ [m]), Ok tt).

(** [try: body finally: cleanup] *)
Definition try_finally {A : Type} (body : Sess A) (cleanup : Sess unit) : Sess A :=
  fun st => match body st with
            | (st1, r) => match cleanup st1 with
                          | (st2, Ok _) => (st2, r)
                          | (st2, Raise e) => (st2, Raise e)
                          end
            end.

(** [os.path.exists] and [os.remove] *)
Definition path_exists (path : string) : Sess bool :=
  fun st => (st, Ok (bool_decide (is_Some (files st !! path)))).

Definition os_remove (path : string) : Sess unit :=
  fun st => match files st !! path with
            | Some _ => (mkState (delete path (files st)) (console st), Ok tt)
            | None => (st, Raise OSError)
            end.

(** How a collaborator ends, and what it leaves at the path it writes. *)
Inductive io_status : Type := Finished | Failed | Interrupted.

Record write_outcome : Type := mkOutcome {
  status : io_status;
  left_behind : option file_state
}.

Record World : Type := mkWorld {
  (** [yt.streams.filter(only_audio=True).order_by('abr').desc().first()] *)
  first_audio : option Stream;
  (** [stream.download] to a path *)
  download_outcome : string -> write_outcome;
  (** return code of ffmpeg, or the exception that ends the call *)
  tool_run : result Z;
  (** what ffmpeg leaves at its output path *)
  tool_left : option file_state;
  (** [platform.system()] *)
  platform_system : string;
  (** [subprocess.run] of a file manager, by command name: it returns, or
      raises when the command cannot be started *)
  subprocess_run : string -> result unit
}.

Definition leave (path : string) (left : option file_state) (st : State) : State :=
  match left with
  | Some f => mkState (<[path := f]> (files st)) (console st)
  | None => st
  end.

(** [stream.download(output_path=..., filename=...)] *)
Definition download (w : World) (path : string) : Sess unit :=
  fun st => match status (download_outcome w path) with
            | Finished => (leave path (Some Complete) st, Ok tt)
            | Failed => (leave path (left_behind (download_outcome w path)) st, Raise OSError)
            | Interrupted =>
                (leave path (left_behind (download_outcome w path)) st, Raise KeyboardInterrupt)
            end.

(** [process_with_progress] and [process_audio], as seen by the session:
    the output path is written by ffmpeg, the return code comes back. *)
Definition run_tool (w : World) (output_path : string) : Sess Z :=
  fun st => (leave output_path (tool_left w) st, tool_run w).

(** [open_file_explorer]: the file manager of the platform is started on
    the downloads folder; its exit status is not looked at. *)
Definition explorer_command (system : string) : string :=
  if String.eqb system "Darwin" then "open"
  else if String.eqb system "Windows" then "explorer"
  else "xdg-open".

Definition open_file_explorer (w : World) (path : string) : Sess unit :=
  fun st => (st, subprocess_run w (explorer_command (platform_system w))).

(** [os.path.join(download_path, name)] *)
Definition path_join (dir name : string) : string := (dir ++ "/" ++ name)%string.

Definition video_temp_path (dir safe_title : string) (s : Stream) : string :=
  path_join dir (safe_title ++ "_video_temp." ++ subtype s)%string.

Definition audio_temp_path (dir safe_title : string) (audio : Stream) : string :=
  path_join dir (safe_title ++ "_audio_temp." ++ subtype audio)%string.

Definition temp_path (dir safe_title : string) (source : Stream) : string :=
  path_join dir (safe_title ++ "_temp." ++ subtype source)%string.

(** The [finally] block of the adaptive branch. *)
Definition clean_up (video_path audio_path : string) : Sess unit :=
  v <~ path_exists video_path ;;
  (if v then os_remove video_path else sret tt) ;;;
  a <~ path_exists audio_path ;;
  (if a then os_remove audio_path else sret tt).

(** The [try]/[finally] of the adaptive branch: video and best audio go
    to temporary files, ffmpeg merges them into the output path. *)
Definition remux (w : World) (download_path video_path audio_path output_path : string)
  : Sess unit :=
  try_finally
    (download w video_path ;;;
     download w audio_path ;;;
     rc <~ run_tool w output_path ;;
     if rc =? 0 then (print (SavedTo output_path) ;;; open_file_explorer w download_path)
     else (print ErrorCombining ;;; raise (SystemExit 1)))
    (clean_up video_path audio_path).

Definition download_adaptive (w : World) (dir safe_title filename : string) (s : Stream)
  : Sess unit :=
  match first_audio w with
  | None => raise AttributeError
  | Some audio =>
      remux w dir (video_temp_path dir safe_title s)
                  (audio_temp_path dir safe_title audio)
                  (path_join dir filename)
  end.

(** Audio conversion: the source stream goes to a temporary file, ffmpeg
    writes the converted file to the output path. *)
Definition transcode (w : World) (download_path tmp full_path : string) : Sess unit :=
  download w tmp ;;;
  rc <~ run_tool w full_path ;;
  (if rc =? 0 then os_remove tmp
   else (print ErrorConverting ;;; raise (SystemExit 1))) ;;;
  print (SavedTo full_path) ;;;
  open_file_explorer w download_path.

Definition download_transcode (w : World) (dir safe_title filename : string)
    (v : VirtualStream) : Sess unit :=
  transcode w dir (temp_path dir safe_title (original_stream v)) (path_join dir filename).

(** Progressive video or plain audio stream: downloaded under its final
    name. *)
Definition download_direct (w : World) (dir filename : string) : Sess unit :=
  download w (path_join dir filename) ;;;
  print (SavedTo (path_join dir filename)) ;;;
  open_file_explorer w dir.

(** The part of [download_video] after the format was chosen. *)
Definition download_selected (w : World) (verbose : bool) (dir title : string)
    (selected : MenuEntry) : Sess unit :=
  let safe_title := clean_filename title in
  match selected with
  | Real s =>
      if includes_video_track s then
        let filename :=
          (safe_title ++ "_" ++ resolution_text (resolution s) ++ "." ++ subtype s)%string in
        if negb (is_progressive s)
        then download_adaptive w dir safe_title filename s
        else download_direct w dir filename
      else if verbose then
        download_direct w dir (safe_title ++ "_audio." ++ subtype s)%string
      else raise TypeError
  | Virtual v =>
      if verbose then raise AttributeError
      else download_transcode w dir safe_title
             (safe_title ++ "_audio." ++ v_subtype v)%string v
  end.

(** One line typed at the prompt, as [int(input(...))] sees it. *)
Inductive user_input : Type :=
| Typed (choice : Z)
| TypedGarbage
| CtrlC
| EndOfInput.

Inductive prompt_result : Type :=
| Chosen (index : nat)
| Stopped (e : exn)
| Waiting.

(** The [while True] prompt over the lines typed so far. *)
Fixpoint choose_format (n_options : nat) (inputs : list user_input) (st : State)
  : State * prompt_result :=
  match inputs with
  | [] => (st, Waiting)
  | Typed choice :: rest =>
      if (1 <=? choice) && (choice <=? Z.of_nat n_options)
      then (st, Chosen (Z.to_nat (choice - 1)))
      else choose_format n_options rest
             (mkState (files st) (console st ++ [InvalidNumber]))
  | TypedGarbage :: rest =>
      choose_format n_options rest
        (mkState (files st) (console st ++ [EnterValidNumber]))
  | CtrlC :: _ =>
      (mkState (files st) (console st ++ [CancelledByUser]), Stopped (SystemExit 0))
  | EndOfInput :: _ => (st, Stopped EOFError)
  end.

Inductive Outcome : Type :=
| Completed
| Exited (code : Z)
| AwaitingInput.

(** The handlers that close [download_video]. *)
Definition handle (r : State * result unit) : State * Outcome :=
  match r with
  | (st, Ok _) => (st, Completed)
  | (st, Raise (SystemExit code)) => (st, Exited code)
  | (st, Raise KeyboardInterrupt) =>
      (mkState (files st) (console st ++ [DownloadCancelled]), Exited 0)
  | (st, Raise _) => (mkState (files st) (console st ++ [IncorrectLink]), Exited 1)
  end.

(** What [YouTube(url)] gives. *)
Record Video : Type := mkVideo {
  title : string;
  streams : list Stream
}.

Definition downloads_dir : string := "downloads".

Definition download_video (yt : result Video) (verbose : bool)
    (inputs : list user_input) (w : World) (st : State) : State * Outcome :=
  match (yt <-- yt ;;
         menu <-- organize_streams (streams yt) verbose ;;
         _ <-- video_qualities (fst menu) ;;
         Ok (yt, map Real (fst menu) ++ snd menu)) with
  | Raise e => handle (st, Raise e)
  | Ok (yt, all_streams) =>
      match choose_format (List.length all_streams) inputs st with
      | (st1, Waiting) => (st1, AwaitingInput)
      | (st1, Stopped e) => handle (st1, Raise e)
      | (st1, Chosen i) =>
          match nth_error all_streams i with
          | Some selected =>
              handle (download_selected w verbose downloads_dir (title yt) selected st1)
          | None => handle (st1, Raise KeyError)
          end
      end
  end.

(** ** Specification-level views of the session *)

(** The three ways a chosen format is fetched, with the paths involved. *)
Inductive Mode : Type :=
| DirectMode (dest : string)
| RemuxMode (video_path audio_path dest : string)
| TranscodeMode (tmp dest : string).

(** The mode [download_selected] runs in; [None] when it raises before it
    touches a file. *)
Definition mode_of (w : World) (verbose : bool) (dir title : string)
    (selected : MenuEntry) : option Mode :=
  let safe_title := clean_filename title in
  match selected with
  | Real s =>
      if includes_video_track s then
        let filename :=
          (safe_title ++ "_" ++ resolution_text (resolution s) ++ "." ++ subtype s)%string in
        if negb (is_progressive s) then
          match first_audio w with
          | Some audio =>
              Some (RemuxMode (video_temp_path dir safe_title s)
                              (audio_temp_path dir safe_title audio)
                              (path_join dir filename))
          | None => None
          end
        else Some (DirectMode (path_join dir filename))
      else if verbose then
        Some (DirectMode (path_join dir (safe_title ++ "_audio." ++ subtype s)%string))
      else None
  | Virtual v =>
      if verbose then None
      else Some (TranscodeMode
                   (temp_path dir safe_title (original_stream v))
                   (path_join dir (safe_title ++ "_audio." ++ v_subtype v)%string))
  end.

Definition run_mode (w : World) (dir : string) (m : Mode) : Sess unit :=
  match m with
  | DirectMode dest => download w dest ;;; print (SavedTo dest) ;;; open_file_explorer w dir
  | RemuxMode video_path audio_path dest => remux w dir video_path audio_path dest
  | TranscodeMode tmp dest => transcode w dir tmp dest
  end.

Definition destination (m : Mode) : string :=
  match m with
  | DirectMode dest | RemuxMode _ _ dest | TranscodeMode _ dest => dest
  end.

Definition temporaries (m : Mode) : list string :=
  match m with
  | DirectMode _ => []
  | RemuxMode video_path audio_path _ => [video_path; audio_path]
  | TranscodeMode tmp _ => [tmp]
  end.

(** What a download leaves at its path. *)
Definition download_left (w : World) (path : string) (before : option file_state)
  : option file_state :=
  match status (download_outcome w path) with
  | Finished => Some Complete
  | _ => match left_behind (download_outcome w path) with
         | Some f => Some f
         | None => before
         end
  end.

Definition finished (w : World) (path : string) : bool :=
  match status (download_outcome w path) with Finished => true | _ => false end.

(** What the writer of the destination leaves there: the download itself
    in direct mode, ffmpeg in the other two (it runs once the sources are
    downloaded). *)
Definition writer_left (w : World) (m : Mode) (before : option file_state)
  : option file_state :=
  match m with
  | DirectMode dest => download_left w dest before
  | RemuxMode video_path audio_path _ =>
      if finished w video_path && finished w audio_path
      then match tool_left w with Some f => Some f | None => before end
      else before
  | TranscodeMode tmp _ =>
      if finished w tmp
      then match tool_left w with Some f => Some f | None => before end
      else before
  end.

(** An ffmpeg run that returns 0 has written a complete output file. *)
Definition tool_sound (w : World) : Prop :=
  tool_run w = Ok 0 -> tool_left w = Some Complete.

(** A line that the prompt answers by asking again. *)
Definition is_typed (i : user_input) : bool :=
  match i with
  | Typed _ | TypedGarbage => true
  | CtrlC | EndOfInput => false
  end.

(** The reply of the prompt to a line, when no option can be chosen. *)
Definition rejection (i : user_input) : list message :=
  match i with
  | Typed _ => [InvalidNumber]
  | TypedGarbage => [EnterValidNumber]
  | CtrlC | EndOfInput => []
  end.

(** A line that the prompt over [n] options answers by asking again. *)
Definition rejected (n : nat) (i : user_input) : bool :=
  match i with
  | Typed choice => negb ((1 <=? choice) && (choice <=? Z.of_nat n))
  | TypedGarbage => true
  | CtrlC | EndOfInput => false
  end.

(** The paths a mode downloads to. *)
Definition downloads_of (m : Mode) : list string :=
  match m with
  | DirectMode dest => [dest]
  | RemuxMode video_path audio_path _ => [video_path; audio_path]
  | TranscodeMode tmp _ => [tmp]
  end.

(** The modes that end with a run of ffmpeg. *)
Definition runs_tool (m : Mode) : bool :=
  match m with
  | DirectMode _ => false
  | RemuxMode _ _ _ | TranscodeMode _ _ => true
  end.




(** ** Specification-level views of the catalogue *)

(** [x] does not sort below [y]. *)
Definition sorted_ge {SK A : Type} (ltb : SK -> SK -> bool) (x y : SK * A) : Prop :=
  ltb (fst x) (fst y) = false.

(** The items of a dictionary, each with the sort key of its key. *)
Definition decorate {K V SK : Type} (key : K -> result SK) (d : list (K * V))
  : result (list (SK * (K * V))) :=
  mapM (fun kv => sk <-- key (fst kv) ;; Ok (sk, kv)) d.

(** The values of a dictionary in the order of its sorted keys. *)
Definition values_sorted {K V SK : Type} (ltb : SK -> SK -> bool)
    (key : K -> result SK) (d : list (K * V)) : result (list V) :=
  dec <-- decorate key d ;;
  Ok (map (fun x => snd (snd x)) (sort_desc ltb dec)).

(** The video streams the first loop looks at: those with a video track,
    minus the webm ones when [verbose] is off. *)
Definition is_considered (verbose : bool) (s : Stream) : bool :=
  includes_video_track s && negb (negb verbose && String.eqb (subtype s) "webm").

Definition considered (verbose : bool) (streams : list Stream) : list Stream :=
  List.filter (is_considered verbose) streams.

(** The audio-only streams. *)
Definition audio_only (s : Stream) : bool :=
  negb (includes_video_track s) && includes_audio_track s.

Definition has_resolution (r : option string) (s : Stream) : bool :=
  bool_decide (resolution s = r).

(** Streams that compete for the dictionary key of the primary 1080p
    entry: resolution 1080p, or a resolution spelled like the key. *)
Definition claims_primary (s : Stream) : bool :=
  has_resolution key_1080p s || has_resolution key_1080p_hd s.

(** How a stream [s] came to sit under key [k] of [video_streams]. *)
Definition slot (vs : list (option string * Stream)) (k : option string) (s : Stream) : Prop :=
  (resolution s <> key_1080p /\ k = resolution s) \/
  (resolution s = key_1080p /\ k = key_1080p_hd) \/
  (resolution s = key_1080p /\ k = key_1080p /\
   exists hd, dict_get key_1080p_hd vs = Some hd /\ filesize s < filesize hd).

(** Invariant of [video_streams] after the streams [seen] were looked at. *)
Definition video_inv (seen : list Stream) (vs : list (option string * Stream)) : Prop :=
  List.NoDup (dict_keys vs) /\
  (forall k s, In (k, s) vs -> In s seen /\ slot vs k s) /\
  dict_get key_1080p_hd vs = find claims_primary seen.

(** Invariant of the first loop. *)
Definition collect_inv (verbose : bool) (pre : list Stream) (st : Collected) : Prop :=
  video_inv (considered verbose pre) (video_streams st) /\
  audio_streams st = List.filter audio_only pre /\
  (best_audio st = None <-> List.filter audio_only pre = []).

(** Invariant of [audio_quality] after the streams [pre] were bucketed:
    every entry sits under the key of its own bitrate and is a smallest
    file of that bitrate so far, and every bitrate seen has an entry. *)
Definition bucket_inv (pre : list Stream) (aq : list (string * Stream)) : Prop :=
  List.NoDup (dict_keys aq) /\
  (forall k s, In (k, s) aq ->
     In s pre /\
     exists b, bitrate_of s = Ok b /\ k = bitrate_key b /\
       forall s', In s' pre -> bitrate_of s' = Ok b -> filesize s <= filesize s') /\
  (forall s', In s' pre ->
     exists b s, bitrate_of s' = Ok b /\ In (bitrate_key b, s) aq).

(** The bitrate label of a stream is absent, or holds a digit. *)
Definition label_parses (s : Stream) : Prop :=
  match truthy (abr s) with
  | None => True
  | Some a => str_filter isdigit a <> EmptyString
  end.

(** The labels of a stream are plain: ASCII text (every character is
    below 128, so that a character of the model is a character of the
    Python string and a digit is one of the ten decimal digits) of at
    most 4300 characters (the interpreter's default limit on the digits
    that [int] reads). *)
Definition is_ascii (c : ascii) : bool := (nat_of_ascii c <? 128)%nat.

Fixpoint ascii_text (s : string) : bool :=
  match s with
  | EmptyString => true
  | String c s' => is_ascii c && ascii_text s'
  end.

Definition ascii_label (label : option string) : bool :=
  match label with
  | Some s => ascii_text s && (String.length s <=? 4300)%nat
  | None => true
  end.

Definition ascii_labels (s : Stream) : Prop :=
  ascii_label (resolution s) = true /\ ascii_label (abr s) = true.

(** The value of a decimal digit: the characters 48 to 57 stand for 0
    to 9. *)
Definition decimal_digit (c : ascii) : option N :=
  let code := N_of_ascii c in
  if (48 <=? code)%N && (code <=? 57)%N then Some (code - 48)%N else None.

(** The number that the decimal digits of a text spell, read from left to
    right, the other characters left out. *)
Fixpoint spelled_from (acc : N) (s : string) : N :=
  match s with
  | EmptyString => acc
  | String c s' =>
      match decimal_digit c with
      | Some d => spelled_from (10 * acc + d) s'
      | None => spelled_from acc s'
      end
  end.

Definition spelled_number (s : string) : N := spelled_from 0 s.

Fixpoint has_digit (s : string) : bool :=
  match s with
  | EmptyString => false
  | String c s' =>
      match decimal_digit c with
      | Some _ => true
      | None => has_digit s'
      end
  end.

(** A resolution label that starts with a decimal digit, as 1080p does. *)
Definition starts_with_digit (r : string) : Prop :=
  match r with
  | String c _ => decimal_digit c <> None
  | EmptyString => False
  end.

(** The bitrate a stream is labelled with: the number spelled by its
    label, 128 for a stream without a label. *)
Definition label_bitrate (s : Stream) : N :=
  match abr s with
  | None | Some EmptyString => 128
  | Some a => spelled_number a
  end.

(** The label of a stream is absent, or holds a digit. *)
Definition digit_label (s : Stream) : Prop :=
  match abr s with
  | None | Some EmptyString => True
  | Some a => has_digit a = true
  end.


(** A resolution that the sort of the video menu can read: present, and
    with a decimal digit. *)
Definition digit_resolution (s : Stream) : Prop :=
  match resolution s with
  | Some r => has_digit r = true
  | None => False
  end.

(** The number a resolution spells, 0 when it is absent. *)
Definition resolution_number (s : Stream) : N :=
  match resolution s with
  | Some r => spelled_number r
  | None => 0%N
  end.

(** A list of at most one element. *)
Definition option_list {A : Type} (o : option A) : list A :=
  match o with
  | Some a => [a]
  | None => []
  end.

(** A video stream in a webm container. *)
Definition webm_video (s : Stream) : bool :=
  includes_video_track s && String.eqb (subtype s) "webm".

(** The synthesized conversion entries of a menu. *)
Definition is_virtual (e : MenuEntry) : bool :=
  match e with
  | Virtual _ => true
  | Real _ => false
  end.

(** ** Specification-level views of the formatters *)

(** Reading a clock text back: the fields between colons, in base 60. *)
Fixpoint split_on (sep : ascii) (s : string) : list string :=
  match s with
  | EmptyString => [EmptyString]
  | String c s' =>
      if Ascii.eqb c sep then EmptyString :: split_on sep s'
      else match split_on sep s' with
           | [] => [String c EmptyString]
           | field :: fields => String c field :: fields
           end
  end.

Definition clock_seconds (text : string) : result Z :=
  fields <-- mapM int_of_digits (split_on ":" text) ;;
  Ok (fold_left (fun acc field => acc * 60 + Z.of_N field) fields 0).


(** The same loop on rationals, without rounding. *)
Fixpoint exact_filesize_from (units : list string) (v : Q) : string :=
  match units with
  | [] => (fixed2 v ++ " TB")%string
  | unit :: rest =>
      if negb (Qle_bool 1024 v) then (fixed2 v ++ " " ++ unit)%string
      else exact_filesize_from rest (v / 1024)
  end.

Definition exact_filesize (bytes : Z) : string :=
  exact_filesize_from ["B"; "KB"; "MB"; "GB"] (inject_Z bytes).

(** The unit a byte count is shown in: the number of times it can be
    divided by 1024 before it drops below 1024, at most four. *)
Definition unit_index (bytes : Z) : nat :=
  if bytes <? 1024 then 0
  else if bytes <? 1024 ^ 2 then 1
  else if bytes <? 1024 ^ 3 then 2
  else if bytes <? 1024 ^ 4 then 3
  else 4.

Definition unit_names : list string := ["B"; "KB"; "MB"; "GB"; "TB"].

Definition unit_of (bytes : Z) : string := nth (unit_index bytes) unit_names "".

(** The number a printed row starts with: its text up to the first
    space, read as an integer. *)
Definition row_number (row : string) : result N :=
  int_of_digits (hd EmptyString (split_on " " row)).

(** File sizes that [format_filesize] can show. *)
Definition showable_size (bytes : Z) : Prop :=
  - float_limit < bytes < 1024 * float_limit.

(** ** Sample catalogues *)

Definition MB : Z := 1024 * 1024.

Definition video_stream (tag : nat) (res : string) (container : string) (size : Z) : Stream :=
  mkStream tag true false false container (Some res) None size.

Definition audio_stream (tag : nat) (rate : option string) (size : Z) : Stream :=
  mkStream tag false true false "webm" None rate size.

Definition scenario_A : list Stream :=
  [ video_stream 1 "1080p" "mp4" (50 * MB);
    video_stream 2 "1080p" "mp4" (40 * MB);
    video_stream 3 "720p" "mp4" (30 * MB) ].

Definition scenario_B : list Stream :=
  [ audio_stream 1 (Some "128kbps") (5 * MB);
    audio_stream 2 (Some "160kbps") (4 * MB);
    audio_stream 3 (Some "128kbps") (6 * MB) ].

(** A stream whose resolution is spelled like the key reserved for the
    primary 1080p entry, followed by a 1080p stream. *)
Definition reserved_key_catalogue : list Stream :=
  [ video_stream 1 "1080p_hd" "mp4" (10 * MB);
    video_stream 2 "1080p" "mp4" (50 * MB) ].

(** A 1080p webm stream ahead of a 1080p mp4 stream. *)
Definition webm_first_catalogue : list Stream :=
  [ video_stream 1 "1080p" "webm" (50 * MB);
    video_stream 2 "1080p" "mp4" (40 * MB) ].

(** A 2160p stream ahead of two 1080p streams. *)
Definition uhd_catalogue : list Stream :=
  [ video_stream 1 "2160p" "mp4" (90 * MB);
    video_stream 2 "1080p" "mp4" (50 * MB);
    video_stream 3 "1080p" "mp4" (40 * MB) ].


(** Video and audio streams, one of them without a bitrate label. *)
Definition mixed_catalogue : list Stream :=
  [ video_stream 1 "720p" "mp4" (30 * MB);
    audio_stream 2 None (3 * MB);
    audio_stream 3 (Some "160kbps") (4 * MB);
    video_stream 4 "480p" "webm" (10 * MB) ].

(** An audio stream whose bitrate label has no digit. *)
Definition unlabelled_rate_catalogue : list Stream :=
  [ audio_stream 1 (Some "high") (5 * MB) ].

(** ** Sample quotients *)

Definition sample_quotients : list Q :=
  [ 1 # 10; 29 # 100; 1 # 2; 1 # 3; 3 # 7; 34 # 35; 1 # 7; 17 # 5; 7 # 2; 100 # 1;
    (-7) # 3; 2 ^ 53 + 1 # 1; 2 ^ 53 + 3 # 1; 2 ^ 70 + 1 # 1;
    1 # 2 ^ 1080; 1 # 2 ^ 1074 * 3; 1 # 2 ^ 1075; 3 # 2 ^ 1075; 5 # 2 ^ 1076 ]%Q.

(** ** Sample sessions *)

Definition fresh : State := mkState ∅ [].

(** Every download finishes; ffmpeg ends with [rc] and leaves [left] at
    its output path; the file manager starts. *)
Definition steady_world (rc : Z) (left : option file_state) : World :=
  mkWorld (Some (audio_stream 2 (Some "160kbps") (4 * MB)))
          (fun _ => mkOutcome Finished (Some Complete))
          (Ok rc) left "Linux" (fun _ => Ok tt).

(** Every download breaks off and leaves a partial file. *)
Definition broken_network : World :=
  mkWorld (Some (audio_stream 2 (Some "160kbps") (4 * MB)))
          (fun _ => mkOutcome Failed (Some Partial))
          (Ok 0) (Some Complete) "Linux" (fun _ => Ok tt).

Definition progressive_stream : Stream :=
  mkStream 18 true true true "mp4" (Some "360p") (Some "96kbps") (20 * MB).

(** * Properties *)

(** ** The exception monad *)

Lemma rbind_ok {A B : Type} (m : result A) (k : A -> result B) (b : B) :
  rbind m k = Ok b -> exists a, m = Ok a /\ k a = Ok b.
Proof. destruct m as [a|e]; simpl; [eauto | discriminate]. Qed.

Tactic Notation "inv_bind" hyp(H) "as" ident(a) ident(Ha) :=
  apply rbind_ok in H; destruct H as (a & Ha & H).

Lemma mapM_ok {A B : Type} (f : A -> result B) (l : list A) (ys : list B) :
  mapM f l = Ok ys -> Forall2 (fun x y => f x = Ok y) l ys.
Proof.
  revert ys; induction l as [|x l IH]; simpl; intros ys H.
  - injection H as <-. constructor.
  - inv_bind H as y Hy. inv_bind H as ys' Hys. injection H as <-.
    constructor; auto.
Qed.

Lemma mapM_total {A B : Type} (f : A -> result B) (l : list A) :
  Forall (fun x => exists y, f x = Ok y) l -> exists ys, mapM f l = Ok ys.
Proof.
  induction 1 as [|x l [y Hy] _ [ys Hys]]; simpl.
  - eauto.
  - rewrite Hy, Hys. simpl. eauto.
Qed.

Lemma mapM_map {A B C : Type} (g : A -> B) (f : B -> result C) (l : list A) :
  mapM f (map g l) = mapM (fun a => f (g a)) l.
Proof. induction l as [|x l IH]; simpl; [reflexivity | now rewrite IH]. Qed.

Lemma mapM_ext_in {A B : Type} (f g : A -> result B) (l : list A) :
  (forall a, In a l -> f a = g a) -> mapM f l = mapM g l.
Proof.
  induction l as [|x l IH]; simpl; intros H; [reflexivity|].
  rewrite (H x) by auto. rewrite IH by auto. reflexivity.
Qed.

Lemma mapM_pure {A B : Type} (g : A -> B) (l : list A) :
  mapM (fun a => Ok (g a)) l = Ok (map g l).
Proof. induction l as [|x l IH]; simpl; [reflexivity | now rewrite IH]. Qed.

(** A loop invariant that may mention the part of the input already
    consumed. *)
Lemma foldM_invariant {A S : Type} (f : S -> A -> result S)
      (Inv : list A -> S -> Prop) (l : list A) :
  (forall pre s x s', Inv pre s -> f s x = Ok s' -> Inv (pre ++ [x]) s') ->
  forall pre s s', Inv pre s -> foldM f l s = Ok s' -> Inv (pre ++ l) s'.
Proof.
  intros Hstep. induction l as [|x l IH]; simpl; intros pre s s' Hinv H.
  - injection H as <-. now rewrite app_nil_r.
  - inv_bind H as s1 Hs1. replace (pre ++ x :: l) with ((pre ++ [x]) ++ l)
      by now rewrite <- app_assoc.
    eapply IH; eauto.
Qed.

Lemma foldM_total {A S : Type} (f : S -> A -> result S) (P : A -> Prop) (l : list A) :
  (forall s x, P x -> exists s', f s x = Ok s') ->
  Forall P l -> forall s, exists s', foldM f l s = Ok s'.
Proof.
  intros Hf. induction 1 as [|x l Hx _ IH]; simpl; intros s.
  - eauto.
  - destruct (Hf s x Hx) as [s1 ->]. simpl. apply IH.
Qed.

Lemma foldM_error {A S : Type} (f : S -> A -> result S) (P : exn -> Prop) (l : list A) :
  (forall s x e, f s x = Raise e -> P e) ->
  forall s e, foldM f l s = Raise e -> P e.
Proof.
  intros Hf. induction l as [|x l IH]; intros s e; simpl; [discriminate|].
  destruct (f s x) as [s'|e'] eqn:E; simpl.
  - apply IH.
  - intros [= <-]. eauto.
Qed.

Lemma mapM_error {A B : Type} (f : A -> result B) (l : list A) (e : exn) :
  mapM f l = Raise e -> exists x, In x l /\ f x = Raise e.
Proof.
  induction l as [|x l IH]; simpl; [discriminate|].
  destruct (f x) as [y|e'] eqn:E; simpl.
  - destruct (mapM f l) as [ys|e''] eqn:E'; simpl; [discriminate|].
    intros [= <-]. destruct (IH eq_refl) as (x' & Hx' & Hf). eauto.
  - intros [= <-]. eauto.
Qed.

(** ** Dictionaries *)

Section DictFacts.
Context {K V : Type} `{EqDecision K}.
Implicit Types (d : list (K * V)) (k : K) (v : V).

Lemma dict_get_in d k v : dict_get k d = Some v -> In (k, v) d.
Proof.
  induction d as [|[k' v'] d IH]; simpl; [discriminate|].
  destruct (decide (k = k')) as [->|]; [intros [= ->]; auto | auto].
Qed.

Lemma dict_get_none d k : dict_get k d = None <-> ~ In k (dict_keys d).
Proof.
  induction d as [|[k' v'] d IH]; simpl; [tauto|].
  destruct (decide (k = k')) as [->|Hne].
  - split; [discriminate | intros H'; exfalso; auto].
  - rewrite IH. split; [intros H1 [H2|H2]; congruence | tauto].
Qed.

Lemma in_dict_get d k v :
  NoDup (dict_keys d) -> In (k, v) d -> dict_get k d = Some v.
Proof.
  induction d as [|[k' v'] d IH]; simpl; [tauto|].
  intros Hnd [Heq|Hin]; inversion Hnd as [|? ? Hnotin Hnd']; subst.
  - injection Heq as -> ->. now rewrite decide_True.
  - destruct (decide (k = k')) as [->|]; [|auto].
    exfalso. apply Hnotin. change k' with (fst (k', v)). now apply in_map.
Qed.

Lemma dict_get_set d k k' v :
  dict_get k' (dict_set k v d) = if decide (k' = k) then Some v else dict_get k' d.
Proof.
  induction d as [|[k0 v0] d IH]; simpl.
  - destruct (decide (k' = k)); reflexivity.
  - destruct (decide (k = k0)) as [->|Hne]; simpl.
    + destruct (decide (k' = k0)); reflexivity.
    + destruct (decide (k' = k0)) as [->|].
      * now rewrite decide_False by congruence.
      * apply IH.
Qed.

Lemma dict_keys_set d k v :
  dict_keys (dict_set k v d) =
  if dict_mem k d then dict_keys d else dict_keys d ++ [k].
Proof.
  unfold dict_mem. induction d as [|[k0 v0] d IH]; simpl; [reflexivity|].
  destruct (decide (k = k0)) as [->|Hne]; simpl; [reflexivity|].
  rewrite IH. now destruct (dict_get k d).
Qed.

Lemma dict_set_nodup d k v : NoDup (dict_keys d) -> NoDup (dict_keys (dict_set k v d)).
Proof.
  intros Hnd. rewrite dict_keys_set. unfold dict_mem.
  destruct (dict_get k d) eqn:E; [assumption|].
  apply dict_get_none in E.
  apply NoDup_app; [assumption | repeat constructor; simpl; tauto |].
  intros x Hx [<-|[]]. auto.
Qed.

Lemma in_dict_iff d k v :
  NoDup (dict_keys d) -> In (k, v) d <-> dict_get k d = Some v.
Proof. intros Hnd; split; [now apply in_dict_get | apply dict_get_in]. Qed.

Lemma in_dict_set d k v k' v' :
  NoDup (dict_keys d) ->
  In (k', v') (dict_set k v d) <->
  (k' = k /\ v' = v) \/ (k' <> k /\ In (k', v') d).
Proof.
  intros Hnd.
  rewrite (in_dict_iff (dict_set k v d)) by now apply dict_set_nodup.
  rewrite (in_dict_iff d) by assumption.
  rewrite dict_get_set. destruct (decide (k' = k)) as [->|Hne].
  - split; [intros [= ->]; auto | intros [[_ ->]|[? _]]; congruence].
  - split; [auto | intros [[? _]|[_ ?]]; congruence].
Qed.
End DictFacts.

(** ** Sorting *)

Section SortFacts.
Context {SK A : Type}.
Variable ltb : SK -> SK -> bool.

Local Abbreviation geb := (sorted_ge ltb).

Lemma insert_desc_perm (x : SK * A) l : Permutation (insert_desc ltb x l) (x :: l).
Proof.
  induction l as [|y l IH]; simpl; [reflexivity|].
  destruct (ltb (fst x) (fst y)); [|reflexivity].
  rewrite IH. apply perm_swap.
Qed.

Lemma sort_desc_perm (l : list (SK * A)) : Permutation (sort_desc ltb l) l.
Proof.
  induction l as [|x l IH]; simpl; [reflexivity|].
  rewrite insert_desc_perm. now constructor.
Qed.

Lemma sort_desc_in (l : list (SK * A)) x : In x (sort_desc ltb l) <-> In x l.
Proof.
  split; apply Permutation_in; [|symmetry]; apply sort_desc_perm.
Qed.

Lemma sort_desc_payload {B : Type} (g : A -> B) (l : list (SK * A)) :
  sort_desc ltb (map (fun x => (fst x, g (snd x))) l) =
  map (fun x => (fst x, g (snd x))) (sort_desc ltb l).
Proof.
  induction l as [|x l IH]; simpl; [reflexivity|].
  rewrite IH. generalize (sort_desc ltb l) as s. clear.
  induction s as [|y s IH]; simpl; [reflexivity|].
  destruct (ltb (fst x) (fst y)); simpl; [now rewrite IH | reflexivity].
Qed.

Hypothesis ltb_asym : forall a b, ltb a b = true -> ltb b a = false.
Hypothesis geb_trans : forall a b c, ltb a b = false -> ltb b c = false -> ltb a c = false.

Lemma insert_desc_sorted (x : SK * A) l :
  StronglySorted geb l -> StronglySorted geb (insert_desc ltb x l).
Proof.
  induction 1 as [|y l Hs IH Hall]; simpl.
  - repeat constructor.
  - destruct (ltb (fst x) (fst y)) eqn:E.
    + constructor; [assumption|].
      rewrite Forall_forall in *. intros z Hz.
      apply (Permutation_in _ (insert_desc_perm x l)) in Hz.
      destruct Hz as [<-|Hz]; [now apply ltb_asym | auto].
    + constructor; [now constructor|].
      constructor; [exact E|].
      rewrite Forall_forall in *. intros z Hz.
      unfold geb in *. eapply geb_trans; eauto.
Qed.

Lemma sort_desc_sorted (l : list (SK * A)) : StronglySorted geb (sort_desc ltb l).
Proof.
  induction l as [|x l IH]; simpl; [constructor | now apply insert_desc_sorted].
Qed.
End SortFacts.

(** ** Values of a dictionary in sorted key order *)

Section SortedValues.
Context {K V SK : Type} `{EqDecision K}.
Variable ltb : SK -> SK -> bool.
Variable key : K -> result SK.
Implicit Types (d : list (K * V)) (dec : list (SK * (K * V))).

Lemma decorate_ok d dec :
  decorate key d = Ok dec ->
  map snd dec = d /\ Forall (fun x => key (fst (snd x)) = Ok (fst x)) dec.
Proof.
  unfold decorate. revert dec. induction d as [|kv d IH]; simpl; intros dec H.
  - injection H as <-. split; [reflexivity | constructor].
  - inv_bind H as x Hx. inv_bind Hx as sk Hsk. injection Hx as <-.
    inv_bind H as dec' Hdec. injection H as <-.
    destruct (IH _ Hdec) as [Hd HF]. simpl. split; [now rewrite Hd|].
    constructor; auto.
Qed.

Lemma decorate_total d :
  Forall (fun kv => exists sk, key (fst kv) = Ok sk) d -> exists dec, decorate key d = Ok dec.
Proof.
  intros HF. apply mapM_total. eapply Forall_impl; [|exact HF].
  intros kv [sk ->]. simpl. eauto.
Qed.

Lemma decorate_keys d :
  mapM (fun a => k <-- key a ;; Ok (k, a)) (dict_keys d) =
  (dec <-- decorate key d ;; Ok (map (fun x => (fst x, fst (snd x))) dec)).
Proof.
  unfold decorate, dict_keys. induction d as [|kv d IH]; simpl; [reflexivity|].
  destruct (key (fst kv)) as [sk|e]; simpl; [|reflexivity].
  rewrite IH. destruct (mapM _ d); reflexivity.
Qed.

Lemma sorted_values_eq d :
  List.NoDup (dict_keys d) ->
  (ks <-- sorted_reverse ltb key (dict_keys d) ;; mapM (dict_index d) ks) =
  values_sorted ltb key d.
Proof.
  intros Hnd. unfold sorted_reverse, values_sorted. rewrite decorate_keys.
  destruct (decorate key d) as [dec|e] eqn:E; simpl; [|reflexivity].
  destruct (decorate_ok _ _ E) as [Hsnd _].
  rewrite (sort_desc_payload ltb fst dec), map_map. simpl.
  rewrite mapM_map.
  rewrite (mapM_ext_in _ (fun x => Ok (snd (snd x)))); [apply mapM_pure|].
  intros x Hx. apply sort_desc_in in Hx.
  unfold dict_index. rewrite (in_dict_get d (fst (snd x)) (snd (snd x))); auto.
  rewrite <- Hsnd, <- surjective_pairing. now apply in_map.
Qed.

Lemma values_sorted_perm d out :
  values_sorted ltb key d = Ok out -> Permutation out (map snd d).
Proof.
  unfold values_sorted. intros H. inv_bind H as dec Hdec. injection H as <-.
  destruct (decorate_ok _ _ Hdec) as [<- _].
  rewrite <- (map_map snd snd). do 2 apply Permutation_map. apply sort_desc_perm.
Qed.
End SortedValues.

(** ** Digits *)

Lemma str_filter_app p (s t : string) :
  str_filter p (s ++ t)%string = (str_filter p s ++ str_filter p t)%string.
Proof.
  induction s as [|c s IH]; [reflexivity|].
  change (str_filter p (String c (s ++ t)%string) =
          (str_filter p (String c s) ++ str_filter p t)%string).
  simpl. destruct (p c); rewrite IH; reflexivity.
Qed.

Lemma str_filter_digits (d : Decimal.uint) :
  str_filter isdigit (NilEmpty.string_of_uint d) = NilEmpty.string_of_uint d.
Proof. induction d; simpl; now rewrite ?IHd. Qed.

Lemma str_filter_all p (s : string) :
  str_filter p (str_filter p s) = str_filter p s.
Proof.
  induction s as [|c s IH]; simpl; [reflexivity|].
  destruct (p c) eqn:E; simpl; rewrite ?E, IH; reflexivity.
Qed.

Lemma uint_of_digit (c : ascii) (d : Decimal.uint) :
  isdigit c = true -> exists d', uint_of_char c (Some d) = Some d'.
Proof.
  destruct c as [[|] [|] [|] [|] [|] [|] [|] [|]]; simpl;
    (discriminate || eauto).
Qed.

Lemma uint_of_digits (s : string) :
  exists d, NilEmpty.uint_of_string (str_filter isdigit s) = Some d.
Proof.
  induction s as [|c s [d IH]]; simpl; [eauto|].
  destruct (isdigit c) eqn:E; [|eauto].
  simpl. rewrite IH. now apply uint_of_digit.
Qed.

(** [digits_int] fails exactly on strings without a digit. *)
Lemma digits_int_ok (x : string) :
  str_filter isdigit x <> EmptyString -> exists n, digits_int x = Ok n.
Proof.
  intros Hne. unfold digits_int, int_of_digits.
  destruct (uint_of_digits x) as [d Hd].
  destruct (str_filter isdigit x) as [|c s] eqn:E; [congruence|].
  rewrite Hd. eauto.
Qed.

Lemma digits_int_raise (x : string) :
  str_filter isdigit x = EmptyString -> digits_int x = Raise ValueError.
Proof. intros E. unfold digits_int. now rewrite E. Qed.

Lemma str_of_N_nonempty (n : N) : str_of_N n <> EmptyString.
Proof.
  unfold str_of_N. intros E.
  assert (H : N.to_uint n = Decimal.Nil).
  { destruct (N.to_uint n); simpl in E; congruence. }
  pose proof (DecimalN.Unsigned.of_to n) as Hn. rewrite H in Hn.
  subst n. discriminate H.
Qed.

Lemma str_app_empty (s : string) : (s ++ EmptyString)%string = s.
Proof.
  induction s as [|c s IH]; [reflexivity|].
  change (String c (s ++ EmptyString)%string = String c s). now rewrite IH.
Qed.

(** Parsing the digits of a rendered key gives the number back. *)
Lemma digits_int_bitrate_key (b : N) : digits_int (bitrate_key b) = Ok b.
Proof.
  unfold digits_int, bitrate_key, str_of_N.
  rewrite str_filter_app, str_filter_digits.
  change (str_filter isdigit "kbps") with EmptyString.
  rewrite str_app_empty.
  unfold int_of_digits. rewrite NilEmpty.usu, DecimalN.Unsigned.of_to.
  pose proof (str_of_N_nonempty b) as Hne. unfold str_of_N in Hne.
  destruct (NilEmpty.string_of_uint (N.to_uint b)); [congruence | reflexivity].
Qed.

Lemma bitrate_key_inj (a b : N) : bitrate_key a = bitrate_key b -> a = b.
Proof.
  intros E. pose proof (digits_int_bitrate_key a) as Ha.
  rewrite E, digits_int_bitrate_key in Ha. congruence.
Qed.

Lemma sort_key_1080p_hd : video_sort_key key_1080p_hd = Ok (1080%N, true).
Proof. reflexivity. Qed.

Lemma sort_key_1080p : video_sort_key key_1080p = Ok (1080%N, false).
Proof. reflexivity. Qed.

Lemma pair_ltb_asym (a b : N * bool) : pair_ltb a b = true -> pair_ltb b a = false.
Proof.
  unfold pair_ltb. destruct a as [n x], b as [m y]; simpl.
  destruct (N.ltb_spec n m), (N.ltb_spec m n), (N.eqb_spec n m), (N.eqb_spec m n),
    x, y; simpl; intros; try reflexivity; try discriminate; lia.
Qed.

Lemma pair_geb_trans (a b c : N * bool) :
  pair_ltb a b = false -> pair_ltb b c = false -> pair_ltb a c = false.
Proof.
  unfold pair_ltb. destruct a as [n x], b as [m y], c as [k z]; simpl.
  destruct (N.ltb_spec n m), (N.ltb_spec m k), (N.ltb_spec n k),
    (N.eqb_spec n m), (N.eqb_spec m k), (N.eqb_spec n k),
    x, y, z; simpl; intros; try reflexivity; try discriminate; lia.
Qed.

Lemma N_ltb_asym (a b : N) : (a <? b)%N = true -> (b <? a)%N = false.
Proof. rewrite N.ltb_lt, N.ltb_ge. lia. Qed.

Lemma N_geb_trans (a b c : N) :
  (a <? b)%N = false -> (b <? c)%N = false -> (a <? c)%N = false.
Proof. rewrite !N.ltb_ge. lia. Qed.

Lemma isdigit_decimal (c : ascii) :
  isdigit c = match decimal_digit c with Some _ => true | None => false end.
Proof.
  destruct c as [[|] [|] [|] [|] [|] [|] [|] [|]]; reflexivity.
Qed.

Lemma spelled_from_filter (s : string) : forall acc,
  spelled_from acc (str_filter isdigit s) = spelled_from acc s.
Proof.
  induction s as [|c s IH]; intros acc; simpl; [reflexivity|].
  rewrite isdigit_decimal. destruct (decimal_digit c) as [d|] eqn:E; simpl.
  - rewrite E. apply IH.
  - apply IH.
Qed.

Lemma spelled_from_uint (d : Decimal.uint) :
  (forall p, spelled_from (Npos p) (NilEmpty.string_of_uint d) = Npos (Pos.of_uint_acc d p)) /\
  spelled_from 0 (NilEmpty.string_of_uint d) = N.of_uint d.
Proof.
  induction d as [|d [IH1 IH2]|d [IH1 IH2]|d [IH1 IH2]|d [IH1 IH2]|d [IH1 IH2]
                  |d [IH1 IH2]|d [IH1 IH2]|d [IH1 IH2]|d [IH1 IH2]|d [IH1 IH2]];
    (split; [intros p|]); cbn [NilEmpty.string_of_uint spelled_from
                                Pos.of_uint_acc N.of_uint Pos.of_uint];
    try reflexivity;
    match goal with
    | |- context [decimal_digit ?c] =>
        let v := eval vm_compute in (decimal_digit c) in
        change (decimal_digit c) with v; cbv beta iota
    end.
  all: try (rewrite <- IH1; f_equal; lia).
  all: try (change (10 * 0 + 0)%N with 0%N; exact IH2).
  all: try (cbn [N.mul N.add]; rewrite IH1; reflexivity).
Qed.

(** What [int] reads from the digits of a text is the number they
    spell. *)
Lemma digits_int_spelled (x : string) (n : N) :
  digits_int x = Ok n -> n = spelled_number x.
Proof.
  unfold digits_int, int_of_digits, spelled_number. intros H.
  rewrite <- spelled_from_filter.
  destruct (str_filter isdigit x) as [|c t] eqn:E; [discriminate|].
  destruct (NilEmpty.uint_of_string (String c t)) as [d|] eqn:Ed; [|discriminate].
  injection H as <-. apply NilEmpty.sus in Ed. rewrite <- Ed.
  symmetry. apply spelled_from_uint.
Qed.

Lemma has_digit_filter (x : string) :
  has_digit x = true <-> str_filter isdigit x <> EmptyString.
Proof.
  induction x as [|c x IH]; simpl; [split; [discriminate | congruence]|].
  rewrite isdigit_decimal. destruct (decimal_digit c); [split; [discriminate | reflexivity]|].
  exact IH.
Qed.

Lemma truthy_match (o : option string) :
  truthy o = match o with None | Some EmptyString => None | Some a => Some a end.
Proof. destruct o as [[|c a]|]; reflexivity. Qed.

Lemma digits_int_error (x : string) (e : exn) : digits_int x = Raise e -> e = ValueError.
Proof.
  unfold digits_int, int_of_digits.
  destruct (str_filter isdigit x); [congruence|].
  destruct (NilEmpty.uint_of_string _); congruence.
Qed.

(** ** The first loop of organize_streams *)

Lemma find_snoc {A : Type} (p : A -> bool) (l : list A) (x : A) :
  find p (l ++ [x]) =
  match find p l with
  | Some y => Some y
  | None => if p x then Some x else None
  end.
Proof.
  induction l as [|y l IH]; simpl; [reflexivity|].
  destruct (p y); [reflexivity | apply IH].
Qed.

Lemma slot_mono vs vs' k s :
  (forall hd, dict_get key_1080p_hd vs = Some hd -> dict_get key_1080p_hd vs' = Some hd) ->
  slot vs k s -> slot vs' k s.
Proof.
  intros Hhd [H|[H|(H1 & H2 & hd & H3 & H4)]]; [left; auto | right; left; auto|].
  right; right. eauto 6.
Qed.

Lemma video_inv_skip seen vs x :
  video_inv seen vs ->
  (claims_primary x = true -> dict_get key_1080p_hd vs <> None) ->
  video_inv (seen ++ [x]) vs.
Proof.
  intros (Hnd & Hin & Hhd) Hx. split; [assumption|]. split.
  - intros k s Hks. destruct (Hin k s Hks). split; [apply in_or_app|]; auto.
  - rewrite find_snoc, <- Hhd.
    destruct (dict_get key_1080p_hd vs); [reflexivity|].
    destruct (claims_primary x); [exfalso; now apply Hx | reflexivity].
Qed.

Lemma video_inv_add seen vs k x :
  video_inv seen vs ->
  slot (dict_set k x vs) k x ->
  (k = key_1080p_hd -> dict_get key_1080p_hd vs = None) ->
  (dict_get key_1080p_hd vs = None -> (k = key_1080p_hd <-> claims_primary x = true)) ->
  video_inv (seen ++ [x]) (dict_set k x vs).
Proof.
  intros (Hnd & Hin & Hhd) Hslot Hfresh Hclaim.
  assert (Hkeep : forall hd, dict_get key_1080p_hd vs = Some hd ->
                             dict_get key_1080p_hd (dict_set k x vs) = Some hd).
  { intros hd Hget. rewrite dict_get_set.
    destruct (decide (key_1080p_hd = k)) as [<-|]; [|assumption].
    rewrite Hfresh in Hget by reflexivity. discriminate. }
  split; [now apply dict_set_nodup|]. split.
  - intros k' s Hks. apply in_dict_set in Hks; [|assumption].
    destruct Hks as [[-> ->]|[Hne Hks]].
    + split; [apply in_or_app; right; now left | assumption].
    + destruct (Hin k' s Hks) as [Hs Hsl].
      split; [apply in_or_app; now left | now apply (slot_mono vs)].
  - rewrite find_snoc, <- Hhd, dict_get_set.
    destruct (decide (key_1080p_hd = k)) as [<-|Hne].
    + rewrite Hfresh by reflexivity.
      destruct (Hclaim (Hfresh eq_refl)) as [-> _]; reflexivity.
    + destruct (dict_get key_1080p_hd vs) eqn:E; [reflexivity|].
      destruct (claims_primary x) eqn:Ec; [|reflexivity].
      exfalso. apply Hne. symmetry. now apply Hclaim.
Qed.

Lemma filter_snoc {A : Type} (p : A -> bool) (l : list A) (x : A) :
  List.filter p (l ++ [x]) = List.filter p l ++ (if p x then [x] else []).
Proof. rewrite filter_app. reflexivity. Qed.

Lemma claims_primary_1080p x : resolution x = key_1080p -> claims_primary x = true.
Proof.
  intros E. unfold claims_primary, has_resolution.
  now rewrite (bool_decide_eq_true_2 _ E).
Qed.

Lemma claims_primary_other x :
  resolution x <> key_1080p -> claims_primary x = true -> resolution x = key_1080p_hd.
Proof.
  intros Hne. unfold claims_primary, has_resolution.
  rewrite (bool_decide_eq_false_2 _ Hne). simpl. apply bool_decide_eq_true_1.
Qed.

Lemma collect_step_inv verbose pre st x st' :
  collect_inv verbose pre st ->
  collect_step verbose st x = Ok st' ->
  collect_inv verbose (pre ++ [x]) st'.
Proof.
  intros (Hv & Ha & Hb) Hstep. unfold collect_inv, considered.
  rewrite !filter_snoc. unfold collect_step in Hstep.
  unfold is_considered, audio_only.
  destruct (includes_video_track x) eqn:Evid; simpl.
  - (* a stream with a video track *)
    rewrite app_nil_r.
    destruct (negb verbose && String.eqb (subtype x) "webm") eqn:Eskip; simpl.
    { injection Hstep as <-. rewrite app_nil_r. auto. }
    destruct (decide (resolution x = key_1080p)) as [Eres|Eres].
    + destruct (dict_get key_1080p_hd (video_streams st)) as [hd|] eqn:Ehd.
      * destruct (filesize x <? filesize hd) eqn:Elt;
          injection Hstep as <-; simpl; (split; [|auto]).
        -- apply video_inv_add; try assumption.
           ++ right; right. repeat split; try assumption.
              exists hd. rewrite dict_get_set, decide_False by discriminate.
              split; [assumption | now apply Z.ltb_lt].
           ++ discriminate.
           ++ intros E. congruence.
        -- apply video_inv_skip; [assumption | congruence].
      * injection Hstep as <-; simpl. split; [|auto].
        apply video_inv_add; try assumption.
        -- right; left. auto.
        -- auto.
        -- intros _. split; [intros _; now apply claims_primary_1080p | reflexivity].
    + unfold dict_mem in Hstep.
      destruct (dict_get (resolution x) (video_streams st)) as [y|] eqn:Eget;
        injection Hstep as <-; simpl; (split; [|auto]).
      * apply video_inv_skip; [assumption|].
        intros Hc. rewrite <- (claims_primary_other x Eres Hc). congruence.
      * apply video_inv_add; try assumption.
        -- left. auto.
        -- intros <-. assumption.
        -- intros _. split.
           ++ intros E. unfold claims_primary, has_resolution.
              rewrite (bool_decide_eq_true_2 _ E). apply orb_true_r.
           ++ now apply claims_primary_other.
  - (* no video track *)
    rewrite app_nil_r in *.
    destruct (includes_audio_track x) eqn:Eaud; simpl in *.
    + inv_bind Hstep as better Hbetter. injection Hstep as <-. simpl.
      split; [assumption|]. split; [now rewrite Ha|].
      split.
      * destruct better; [discriminate|]. intros E. rewrite E in Hbetter.
        discriminate.
      * intros E. apply app_eq_nil in E. destruct E; discriminate.
    + injection Hstep as <-. rewrite app_nil_r. auto.
Qed.

Lemma collect_spec verbose streams st :
  collect verbose streams = Ok st -> collect_inv verbose streams st.
Proof.
  intros H. unfold collect in H.
  apply (foldM_invariant _ (collect_inv verbose) streams
           (collect_step_inv verbose) [] _ _) in H; [exact H|].
  split; [|split; [reflexivity | split; reflexivity]].
  split; [apply List.NoDup_nil | split; [intros k s [] | reflexivity]].
Qed.

(** ** List facts used for the menus *)

Lemma filter_map_comm {A B : Type} (g : A -> B) (p : B -> bool) (l : list A) :
  List.filter p (map g l) = map g (List.filter (fun a => p (g a)) l).
Proof.
  induction l as [|a l IH]; simpl; [reflexivity|].
  destruct (p (g a)); simpl; now rewrite IH.
Qed.

Lemma filter_perm_length {A : Type} (p : A -> bool) (l l' : list A) :
  Permutation l l' ->
  List.length (List.filter p l) = List.length (List.filter p l').
Proof.
  induction 1 as [|x l l' _ IH|x y l|l l' l'' _ IH1 _ IH2]; simpl.
  - reflexivity.
  - destruct (p x); simpl; now rewrite IH.
  - destruct (p x), (p y); reflexivity.
  - now rewrite IH1.
Qed.

Lemma NoDup_map_filter {A B : Type} (g : A -> B) (p : A -> bool) (l : list A) :
  List.NoDup (map g l) -> List.NoDup (map g (List.filter p l)).
Proof.
  induction l as [|a l IH]; simpl; [auto|].
  intros Hnd. inversion Hnd as [|? ? Hnotin Hnd']; subst.
  destruct (p a); simpl; [|auto].
  constructor; [|auto]. intros Hin. apply Hnotin.
  apply in_map_iff in Hin. destruct Hin as (a' & <- & Ha').
  apply filter_In in Ha'. apply in_map. tauto.
Qed.

Lemma StronglySorted_filter {A : Type} (R : A -> A -> Prop) (p : A -> bool) (l : list A) :
  StronglySorted R l -> StronglySorted R (List.filter p l).
Proof.
  induction 1 as [|a l Hs IH Hall]; simpl; [constructor|].
  destruct (p a); [|assumption]. constructor; [assumption|].
  rewrite Forall_forall in *. intros x Hx. apply filter_In in Hx. apply Hall. tauto.
Qed.

(** In a dictionary, the values selected by [p] are at most as many as
    the keys they can sit under. *)
Lemma keyed_filter_length {K V : Type} (d : list (K * V)) (p : V -> bool) (keys : list K) :
  List.NoDup (dict_keys d) ->
  (forall k v, In (k, v) d -> p v = true -> In k keys) ->
  (List.length (List.filter p (map snd d)) <= List.length keys)%nat.
Proof.
  intros Hnd Hkeys. rewrite filter_map_comm, length_map.
  rewrite <- (length_map fst). apply NoDup_incl_length.
  - now apply NoDup_map_filter.
  - intros k Hk. apply in_map_iff in Hk. destruct Hk as ([k' v] & <- & Hin).
    apply filter_In in Hin. simpl in *. destruct Hin. eauto.
Qed.

Lemma find_ext_in {A : Type} (p q : A -> bool) (l : list A) :
  (forall a, In a l -> p a = q a) -> find p l = find q l.
Proof.
  induction l as [|a l IH]; simpl; intros H; [reflexivity|].
  rewrite (H a) by auto. destruct (q a); [reflexivity | auto].
Qed.

(** ** The video menu *)

Lemma has_resolution_true r s : has_resolution r s = true <-> resolution s = r.
Proof. unfold has_resolution. apply bool_decide_eq_true. Qed.

(** Without a resolution spelled like the reserved key, the streams that
    compete for the primary entry are the 1080p streams. *)
Lemma find_primary_1080p (seen : list Stream) :
  (forall s, In s seen -> resolution s <> key_1080p_hd) ->
  find claims_primary seen = find (has_resolution key_1080p) seen.
Proof.
  intros Hno. apply find_ext_in. intros s Hs. unfold claims_primary.
  destruct (has_resolution key_1080p_hd s) eqn:E; [|apply orb_false_r].
  apply has_resolution_true in E. now apply Hno in E.
Qed.

Lemma video_other_resolutions seen vs video r :
  video_inv seen vs ->
  values_sorted pair_ltb video_sort_key vs = Ok video ->
  r <> key_1080p ->
  (List.length (List.filter (has_resolution r) video) <= 1)%nat.
Proof.
  intros (Hnd & Hin & _) Hvideo Hr.
  rewrite (filter_perm_length _ _ _ (values_sorted_perm _ _ _ _ Hvideo)).
  apply (keyed_filter_length vs _ [r]); [assumption|].
  intros k s Hks Hs. apply has_resolution_true in Hs.
  destruct (Hin k s Hks) as [_ [[_ ->]|[[E _]|[E _]]]]; [now left | congruence..].
Qed.

Lemma video_1080p_at_most_two seen vs video :
  video_inv seen vs ->
  values_sorted pair_ltb video_sort_key vs = Ok video ->
  (List.length (List.filter (has_resolution key_1080p) video) <= 2)%nat.
Proof.
  intros (Hnd & Hin & _) Hvideo.
  rewrite (filter_perm_length _ _ _ (values_sorted_perm _ _ _ _ Hvideo)).
  apply (keyed_filter_length vs _ [key_1080p_hd; key_1080p]); [assumption|].
  intros k s Hks Hs. apply has_resolution_true in Hs.
  destruct (Hin k s Hks) as [_ [[E _]|[[_ ->]|(_ & -> & _)]]];
    [congruence | now left | right; now left].
Qed.

(** The 1080p rows of the video menu: the primary entry, then possibly
    one smaller entry. *)
Lemma video_primary_secondary seen vs video p :
  video_inv seen vs ->
  values_sorted pair_ltb video_sort_key vs = Ok video ->
  dict_get key_1080p_hd vs = Some p ->
  resolution p = key_1080p ->
  List.filter (has_resolution key_1080p) video = [p] \/
  exists q, List.filter (has_resolution key_1080p) video = [p; q] /\
            In q seen /\ filesize q < filesize p.
Proof.
  intros (Hnd & Hin & _) Hvideo Hp Hres.
  unfold values_sorted in Hvideo. inv_bind Hvideo as dec Hdec.
  injection Hvideo as <-.
  destruct (decorate_ok _ _ _ Hdec) as [Hsnd Hkeys].
  rewrite filter_map_comm.
  set (sel := fun x : N * bool * (option string * Stream) =>
                has_resolution key_1080p (snd (snd x))).
  set (L := sort_desc pair_ltb dec).
  (* what a selected item looks like *)
  assert (Hshape : forall x, In x (List.filter sel L) ->
            (fst (snd x) = key_1080p_hd /\ fst x = (1080%N, true) /\ snd (snd x) = p) \/
            (fst (snd x) = key_1080p /\ fst x = (1080%N, false) /\
             In (snd (snd x)) seen /\ filesize (snd (snd x)) < filesize p)).
  { intros x Hx. apply filter_In in Hx. destruct Hx as [HxL Hsel].
    apply sort_desc_in in HxL.
    assert (Hvs : In (snd x) vs) by (rewrite <- Hsnd; now apply in_map).
    rewrite Forall_forall in Hkeys. specialize (Hkeys x HxL).
    unfold sel in Hsel. apply has_resolution_true in Hsel.
    destruct x as [sk [k s]]; simpl in *.
    destruct (Hin k s Hvs) as [Hseen [[E _]|[[_ ->]|(_ & -> & hd & Hhd & Hlt)]]].
    - congruence.
    - left. rewrite sort_key_1080p_hd in Hkeys.
      apply (in_dict_get vs) in Hvs; [|assumption]. split; [reflexivity|].
      split; congruence.
    - right. rewrite sort_key_1080p in Hkeys. split; [reflexivity|].
      split; [congruence|]. split; [assumption | congruence]. }
  (* the primary entry is selected *)
  assert (Hprim : exists x, In x (List.filter sel L) /\ snd x = (key_1080p_hd, p)).
  { apply dict_get_in in Hp. rewrite <- Hsnd in Hp.
    apply in_map_iff in Hp. destruct Hp as (x & Hx & Hxdec).
    exists x. split; [|assumption]. apply filter_In. split.
    - now apply sort_desc_in.
    - unfold sel. rewrite Hx. simpl. now apply has_resolution_true. }
  assert (Hsorted : StronglySorted (sorted_ge pair_ltb) (List.filter sel L)).
  { apply StronglySorted_filter, sort_desc_sorted;
      [apply pair_ltb_asym | apply pair_geb_trans]. }
  assert (Hnodup : List.NoDup (map (fun x => fst (snd x)) (List.filter sel L))).
  { apply NoDup_map_filter.
    rewrite <- (map_map snd fst).
    apply (Permutation_NoDup (l := map fst (map snd dec))).
    - symmetry. do 2 apply Permutation_map. apply sort_desc_perm.
    - now rewrite Hsnd. }
  destruct Hprim as (x0 & Hx0 & Hx0p).
  destruct (List.filter sel L) as [|a [|b rest]] eqn:EL.
  - destruct Hx0.
  - left. destruct Hx0 as [<-|[]]. simpl. now rewrite Hx0p.
  - right.
    assert (Ha := Hshape a (or_introl eq_refl)).
    assert (Hb := Hshape b (or_intror (or_introl eq_refl))).
    inversion Hsorted as [|? ? _ Hab]; subst. inversion Hab as [|? ? Hgeb _]; subst.
    unfold sorted_ge in Hgeb.
    simpl in Hnodup. inversion Hnodup as [|? ? Hna Hnd1]; subst.
    inversion Hnd1 as [|? ? Hnb Hnd2]; subst. simpl in Hna.
    destruct rest as [|c rest].
    + destruct Ha as [(Hka & Hsa & Hpa)|(Hka & Hsa & _)],
               Hb as [(Hkb & Hsb & Hpb)|(Hkb & Hsb & Hseen & Hlt)].
      * exfalso. apply Hna. left. congruence.
      * exists (snd (snd b)). simpl. rewrite Hpa. auto.
      * rewrite Hsa, Hsb in Hgeb. discriminate.
      * exfalso. apply Hna. left. congruence.
    + exfalso.
      assert (Hc := Hshape c (or_intror (or_intror (or_introl eq_refl)))).
      simpl in Hnb.
      destruct Ha as [(Hka & _)|(Hka & _)], Hb as [(Hkb & _)|(Hkb & _)],
               Hc as [(Hkc & _)|(Hkc & _)];
        first [ apply Hna; left; congruence
              | apply Hna; right; left; congruence
              | apply Hnb; left; congruence ].
Qed.

Lemma organize_streams_unfold streams verbose video audio :
  organize_streams streams verbose = Ok (video, audio) ->
  exists st ranked,
    collect verbose streams = Ok st /\
    values_sorted pair_ltb video_sort_key (video_streams st) = Ok video /\
    rank_audio (audio_streams st) = Ok ranked /\
    audio = audio_menu verbose (best_audio st) ranked.
Proof.
  unfold organize_streams. intros H.
  inv_bind H as st Hst. inv_bind H as ordered Hord. inv_bind H as ranked Hrk.
  injection H as <- <-. exists st, ranked.
  destruct (collect_spec _ _ _ Hst) as ((Hnd & _) & _).
  unfold order_video in Hord. rewrite sorted_values_eq in Hord by assumption.
  auto.
Qed.

Lemma video_from_considered seen vs video s :
  video_inv seen vs ->
  values_sorted pair_ltb video_sort_key vs = Ok video ->
  In s video -> In s seen.
Proof.
  intros (_ & Hin & _) Hvideo Hs.
  apply (Permutation_in _ (values_sorted_perm _ _ _ _ Hvideo)) in Hs.
  apply in_map_iff in Hs. destruct Hs as ([k s'] & <- & Hks).
  now destruct (Hin k s' Hks).
Qed.

(** C1 (amended).  Whenever [organize_streams] returns a menu, for either
    value of [verbose]: every resolution other than 1080p has at most one
    video entry, 1080p has at most two, and every entry is one of the
    streams that passed the container filter.  If none of those streams
    has a resolution spelled like the reserved key 1080p_hd, the first
    1080p stream among them is the first 1080p entry of the menu, and a
    second 1080p entry, if any, is a stream of the list with a strictly
    smaller file size.  On Scenario A the menu is the three streams in
    input order, shown as 1080p+, 1080p, 720p. *)
Theorem organize_streams_video_dedup streams verbose video audio :
  organize_streams streams verbose = Ok (video, audio) ->
  (forall r, r <> key_1080p ->
     (List.length (List.filter (has_resolution r) video) <= 1)%nat) /\
  (List.length (List.filter (has_resolution key_1080p) video) <= 2)%nat /\
  (forall s, In s video -> In s (considered verbose streams)) /\
  ((forall s, In s (considered verbose streams) -> resolution s <> key_1080p_hd) ->
   forall p, find (has_resolution key_1080p) (considered verbose streams) = Some p ->
     List.filter (has_resolution key_1080p) video = [p] \/
     exists q, List.filter (has_resolution key_1080p) video = [p; q] /\
               In q (considered verbose streams) /\ filesize q < filesize p) /\
  (forall v, organize_streams scenario_A v = Ok (scenario_A, [])) /\
  video_qualities scenario_A = Ok ["1080p+"; "1080p"; "720p"].
Proof.
  intros H. destruct (organize_streams_unfold _ _ _ _ H) as (st & ranked & Hst & Hv & _).
  destruct (collect_spec _ _ _ Hst) as (Hinv & _).
  split; [intros r Hr; now apply (video_other_resolutions _ _ _ r Hinv Hv)|].
  split; [now apply (video_1080p_at_most_two _ _ _ Hinv Hv)|].
  split; [intros s; now apply (video_from_considered _ _ _ s Hinv Hv)|].
  split.
  - intros Hno p Hp.
    apply (video_primary_secondary _ _ _ p Hinv Hv).
    + destruct Hinv as (_ & _ & ->). now rewrite find_primary_1080p.
    + apply find_some in Hp. now apply has_resolution_true.
  - split; [intros []; reflexivity | reflexivity].
Qed.

Lemma organize_streams_video_dedup_witness :
  organize_streams scenario_A false = Ok (scenario_A, []) /\
  (List.filter (has_resolution key_1080p) scenario_A
     = [video_stream 1 "1080p" "mp4" (50 * MB)] \/
   exists q, List.filter (has_resolution key_1080p) scenario_A
               = [video_stream 1 "1080p" "mp4" (50 * MB); q] /\
             In q (considered false scenario_A) /\
             filesize q < filesize (video_stream 1 "1080p" "mp4" (50 * MB))).
Proof.
  split; [reflexivity|].
  refine (proj1 (proj2 (proj2 (proj2
            (organize_streams_video_dedup scenario_A false scenario_A [] eq_refl))))
            _ _ eq_refl).
  intros s Hs. simpl in Hs.
  destruct Hs as [<-|[<-|[<-|[]]]]; discriminate.
Defined.

(** C1, as stated, fails.  On [webm_first_catalogue] with [verbose] off
    the first 1080p stream of the raw list is a webm stream: the loop skips
    it, and the second stream becomes the only 1080p entry.  On
    [reserved_key_catalogue] the first (and only) 1080p stream is not in
    the menu at all, for either value of [verbose]: the key of the primary
    entry is already taken by the stream whose resolution is spelled
    1080p_hd. *)
Lemma organize_streams_first_1080p_dropped :
  (organize_streams webm_first_catalogue false
     = Ok ([video_stream 2 "1080p" "mp4" (40 * MB)], []) /\
   find (has_resolution key_1080p) webm_first_catalogue
     = Some (video_stream 1 "1080p" "webm" (50 * MB)) /\
   ~ In (video_stream 1 "1080p" "webm" (50 * MB))
        [video_stream 2 "1080p" "mp4" (40 * MB)]) /\
  ((forall v, organize_streams reserved_key_catalogue v
                = Ok ([video_stream 1 "1080p_hd" "mp4" (10 * MB)], [])) /\
   find (has_resolution key_1080p) reserved_key_catalogue
     = Some (video_stream 2 "1080p" "mp4" (50 * MB)) /\
   ~ In (video_stream 2 "1080p" "mp4" (50 * MB))
        [video_stream 1 "1080p_hd" "mp4" (10 * MB)]).
Proof.
  split; (split; [|split; [reflexivity|]]).
  - reflexivity.
  - intros [H|[]]. discriminate H.
  - intros []; reflexivity.
  - intros [H|[]]. discriminate H.
Qed.

(** ** The audio buckets *)

Lemma bucket_step_inv pre aq x aq' :
  bucket_inv pre aq -> bucket_step aq x = Ok aq' -> bucket_inv (pre ++ [x]) aq'.
Proof.
  intros (Hnd & Hin & Hcov) Hstep. unfold bucket_step in Hstep.
  inv_bind Hstep as b Hb.
  assert (Hkept : forall s b', In (bitrate_key b', s) aq -> bitrate_of s = Ok b').
  { intros s b' Hs. destruct (Hin _ _ Hs) as (_ & b0 & Hb0 & Heq & _).
    apply bitrate_key_inj in Heq. congruence. }
  destruct (dict_get (bitrate_key b) aq) as [kept|] eqn:Eget.
  - (* the bucket exists *)
    assert (Hk := dict_get_in _ _ _ Eget).
    destruct (Hin _ _ Hk) as (Hkpre & b0 & Hb0 & Heq0 & Hmin0).
    apply bitrate_key_inj in Heq0. subst b0.
    destruct (filesize x <? filesize kept) eqn:Elt; injection Hstep as <-.
    + apply Z.ltb_lt in Elt. split; [now apply dict_set_nodup|]. split.
      * intros k s Hks. apply in_dict_set in Hks; [|assumption].
        destruct Hks as [[-> ->]|[Hne Hks]].
        -- split; [apply in_or_app; right; now left|].
           exists b. repeat split; try assumption.
           intros s' Hs' Hbs'. apply in_app_or in Hs'. destruct Hs' as [Hs'|[<-|[]]].
           ++ specialize (Hmin0 s' Hs' Hbs'). lia.
           ++ lia.
        -- destruct (Hin _ _ Hks) as (Hspre & b1 & Hb1 & -> & Hmin1).
           split; [apply in_or_app; now left|].
           exists b1. repeat split; try assumption.
           intros s' Hs' Hbs'. apply in_app_or in Hs'. destruct Hs' as [Hs'|[<-|[]]].
           ++ now apply Hmin1.
           ++ exfalso. apply Hne. congruence.
      * intros s' Hs'. apply in_app_or in Hs'. destruct Hs' as [Hs'|[<-|[]]].
        -- destruct (Hcov s' Hs') as (b1 & s1 & Hb1 & Hs1).
           destruct (decide (bitrate_key b1 = bitrate_key b)) as [E|Hne].
           ++ exists b1, x. split; [assumption|]. rewrite E.
              apply in_dict_set; auto.
           ++ exists b1, s1. split; [assumption|]. apply in_dict_set; auto.
        -- exists b, x. split; [assumption|]. apply in_dict_set; auto.
    + apply Z.ltb_ge in Elt. split; [assumption|]. split.
      * intros k s Hks. destruct (Hin _ _ Hks) as (Hspre & b1 & Hb1 & -> & Hmin1).
        split; [apply in_or_app; now left|].
        exists b1. repeat split; try assumption.
        intros s' Hs' Hbs'. apply in_app_or in Hs'. destruct Hs' as [Hs'|[<-|[]]].
        -- now apply Hmin1.
        -- assert (b1 = b) by congruence. subst b1.
           apply (in_dict_get aq) in Hks; [|assumption].
           assert (s = kept) by congruence. subst s. lia.
      * intros s' Hs'. apply in_app_or in Hs'. destruct Hs' as [Hs'|[<-|[]]].
        -- now apply Hcov.
        -- exists b, kept. auto.
  - (* a new bucket *)
    injection Hstep as <-.
    assert (Hnew : forall s' , In s' pre -> bitrate_of s' = Ok b -> False).
    { intros s' Hs' Hbs'. destruct (Hcov s' Hs') as (b1 & s1 & Hb1 & Hs1).
      assert (b1 = b) by congruence. subst b1.
      apply (in_dict_get aq) in Hs1; [congruence | assumption]. }
    split; [now apply dict_set_nodup|]. split.
    + intros k s Hks. apply in_dict_set in Hks; [|assumption].
      destruct Hks as [[-> ->]|[Hne Hks]].
      * split; [apply in_or_app; right; now left|].
        exists b. repeat split; try assumption.
        intros s' Hs' Hbs'. apply in_app_or in Hs'. destruct Hs' as [Hs'|[<-|[]]].
        -- exfalso. eauto.
        -- lia.
      * destruct (Hin _ _ Hks) as (Hspre & b1 & Hb1 & -> & Hmin1).
        split; [apply in_or_app; now left|].
        exists b1. repeat split; try assumption.
        intros s' Hs' Hbs'. apply in_app_or in Hs'. destruct Hs' as [Hs'|[<-|[]]].
        -- now apply Hmin1.
        -- exfalso. apply Hne. congruence.
    + intros s' Hs'. apply in_app_or in Hs'. destruct Hs' as [Hs'|[<-|[]]].
      * destruct (Hcov s' Hs') as (b1 & s1 & Hb1 & Hs1).
        exists b1, s1. split; [assumption|]. apply in_dict_set; [assumption|].
        right. split; [|assumption]. intros E. apply bitrate_key_inj in E.
        subst b1. eauto.
      * exists b, x. split; [assumption|]. apply in_dict_set; auto.
Qed.

Lemma audio_buckets_spec audio aq :
  audio_buckets audio = Ok aq -> bucket_inv audio aq.
Proof.
  intros H. unfold audio_buckets in H.
  apply (foldM_invariant _ bucket_inv audio bucket_step_inv [] _ _) in H; [exact H|].
  split; [apply List.NoDup_nil|]. split; intros ? ? ; [intros [] | contradiction].
Qed.

Lemma rank_audio_unfold audio ranked :
  rank_audio audio = Ok ranked ->
  exists aq, audio_buckets audio = Ok aq /\ bucket_inv audio aq /\
             values_sorted N.ltb digits_int aq = Ok ranked.
Proof.
  unfold rank_audio. intros H. inv_bind H as aq Haq.
  pose proof (audio_buckets_spec _ _ Haq) as Hinv.
  rewrite sorted_values_eq in H by apply Hinv. eauto.
Qed.

(** Strictly descending sort keys, from sortedness and distinct keys. *)
Lemma strictly_descending (L : list (N * (string * Stream))) :
  StronglySorted (sorted_ge N.ltb) L ->
  List.NoDup (map (fun x => fst (snd x)) L) ->
  (forall x, In x L -> fst (snd x) = bitrate_key (fst x)) ->
  StronglySorted (fun a b => (b < a)%N) (map fst L).
Proof.
  induction 1 as [|a L Hs IH Hall]; simpl; intros Hnd Hkey; [constructor|].
  inversion Hnd as [|? ? Hnotin Hnd']; subst.
  constructor; [apply IH; auto|].
  rewrite Forall_forall in *. intros b Hb.
  apply in_map_iff in Hb. destruct Hb as (x & <- & Hx).
  specialize (Hall x Hx). unfold sorted_ge in Hall. apply N.ltb_ge in Hall.
  assert (fst x <> fst a); [|lia].
  intros E. apply Hnotin. apply in_map_iff. exists x. split; [|assumption].
  rewrite (Hkey x), (Hkey a), E by auto. reflexivity.
Qed.

(** The ranked audio list, when there is one. *)
Lemma rank_audio_spec audio ranked :
  rank_audio audio = Ok ranked ->
  exists rates,
    Forall2 (fun s b => bitrate_of s = Ok b) ranked rates /\
    StronglySorted (fun a b => (b < a)%N) rates /\
    (forall s, In s audio -> exists b, bitrate_of s = Ok b /\ In b rates) /\
    (forall s, In s ranked ->
       In s audio /\
       forall s', In s' audio -> bitrate_of s' = bitrate_of s -> filesize s <= filesize s').
Proof.
  intros H. destruct (rank_audio_unfold _ _ H) as (aq & _ & (Hnd & Hin & Hcov) & Hv).
  pose proof (values_sorted_perm _ _ _ _ Hv) as Hperm.
  unfold values_sorted in Hv. inv_bind Hv as dec Hdec. injection Hv as <-.
  destruct (decorate_ok _ _ _ Hdec) as [Hsnd Hkeys].
  set (L := sort_desc N.ltb dec) in *.
  assert (HL : forall x, In x L ->
             In (snd x) aq /\ bitrate_of (snd (snd x)) = Ok (fst x) /\
             fst (snd x) = bitrate_key (fst x)).
  { intros x Hx. apply sort_desc_in in Hx.
    assert (Hvs : In (snd x) aq) by (rewrite <- Hsnd; now apply in_map).
    rewrite Forall_forall in Hkeys. specialize (Hkeys x Hx).
    destruct x as [sk [k s]]; simpl in *.
    destruct (Hin k s Hvs) as (_ & b & Hb & -> & _).
    rewrite digits_int_bitrate_key in Hkeys. injection Hkeys as <-. auto. }
  exists (map fst L). split; [|split; [|split]].
  - clear - HL. induction L as [|x L IH]; simpl; constructor.
    + apply HL. now left.
    + apply IH. intros y Hy. apply HL. now right.
  - apply strictly_descending.
    + apply sort_desc_sorted; [apply N_ltb_asym | apply N_geb_trans].
    + rewrite <- (map_map snd fst).
      apply (Permutation_NoDup (l := map fst (map snd dec))).
      * symmetry. do 2 apply Permutation_map. apply sort_desc_perm.
      * now rewrite Hsnd.
    + intros x Hx. now apply HL.
  - intros s Hs. destruct (Hcov s Hs) as (b & s1 & Hb & Hs1).
    exists b. split; [assumption|].
    rewrite <- Hsnd in Hs1. apply in_map_iff in Hs1. destruct Hs1 as (x & Hx & Hxdec).
    apply in_map_iff. exists x. split; [|now apply sort_desc_in].
    assert (HxL : In x L) by now apply sort_desc_in.
    destruct (HL x HxL) as (_ & _ & Hk). rewrite Hx in Hk. simpl in Hk.
    now apply bitrate_key_inj in Hk.
  - intros s Hs. apply (Permutation_in _ Hperm) in Hs.
    apply in_map_iff in Hs. destruct Hs as ([k s0] & <- & Hks). simpl.
    destruct (Hin k s0 Hks) as (Hpre & b & Hb & _ & Hmin).
    split; [assumption|]. intros s' Hs' E. apply Hmin; congruence.
Qed.

Lemma bitrate_of_parses (s : Stream) :
  label_parses s -> exists b, bitrate_of s = Ok b.
Proof.
  unfold label_parses, bitrate_of. destruct (truthy (abr s)) as [a|].
  - apply digits_int_ok.
  - intros _. exists 128%N. reflexivity.
Qed.

Lemma bitrate_of_fails (s : Stream) :
  ~ label_parses s -> bitrate_of s = Raise ValueError.
Proof.
  unfold label_parses, bitrate_of. destruct (truthy (abr s)) as [a|]; [|tauto].
  intros H. apply digits_int_raise.
  destruct (str_filter isdigit a); [reflexivity | exfalso; apply H; discriminate].
Qed.

Lemma bitrate_of_error (s : Stream) e : bitrate_of s = Raise e -> e = ValueError.
Proof.
  unfold bitrate_of, digits_int, int_of_digits.
  destruct (str_filter isdigit _); [congruence|].
  destruct (NilEmpty.uint_of_string _); congruence.
Qed.

Lemma audio_buckets_total audio :
  Forall label_parses audio -> exists aq, audio_buckets audio = Ok aq.
Proof.
  intros H. apply (foldM_total bucket_step label_parses); [|assumption].
  intros aq x Hx. unfold bucket_step.
  destruct (bitrate_of_parses x Hx) as [b ->]. simpl.
  destruct (dict_get _ aq); [destruct (_ <? _)|]; eauto.
Qed.

Lemma audio_buckets_fail audio :
  Exists (fun s => ~ label_parses s) audio ->
  forall aq, foldM bucket_step audio aq = Raise ValueError.
Proof.
  induction 1 as [x l Hx|x l _ IH]; intros aq; simpl.
  - unfold bucket_step at 1. now rewrite (bitrate_of_fails x Hx).
  - unfold bucket_step at 1. destruct (bitrate_of x) as [b|e] eqn:E; simpl.
    + destruct (dict_get _ aq); [destruct (_ <? _)|]; simpl; apply IH.
    + now rewrite (bitrate_of_error _ _ E).
Qed.

Lemma rank_audio_total audio :
  Forall label_parses audio -> exists ranked, rank_audio audio = Ok ranked.
Proof.
  intros H. destruct (audio_buckets_total audio H) as [aq Haq].
  pose proof (audio_buckets_spec _ _ Haq) as (Hnd & Hin & _).
  unfold rank_audio. rewrite Haq. simpl. rewrite sorted_values_eq by assumption.
  unfold values_sorted.
  destruct (decorate_total digits_int aq) as [dec ->]; [|simpl; eauto].
  apply Forall_forall. intros [k s] Hks. simpl.
  destruct (Hin k s Hks) as (_ & b & _ & -> & _).
  exists b. apply digits_int_bitrate_key.
Qed.

Lemma digit_label_parses (s : Stream) : digit_label s <-> label_parses s.
Proof.
  unfold digit_label, label_parses. rewrite truthy_match.
  destruct (abr s) as [[|c a]|]; try tauto. apply has_digit_filter.
Qed.

Lemma bitrate_of_label (s : Stream) (b : N) :
  bitrate_of s = Ok b -> b = label_bitrate s.
Proof.
  unfold bitrate_of, label_bitrate. rewrite truthy_match.
  destruct (abr s) as [[|c a]|].
  - intros [= <-]. reflexivity.
  - apply digits_int_spelled.
  - intros [= <-]. reflexivity.
Qed.

Lemma collect_error verbose streams e :
  collect verbose streams = Raise e -> e = ValueError.
Proof.
  unfold collect. intros H.
  eapply (foldM_error _ (fun e => e = ValueError)); [|exact H].
  clear. intros st x e. unfold collect_step.
  destruct (includes_video_track x).
  - destruct (negb verbose && _); [discriminate|].
    destruct (decide _).
    + destruct (dict_get _ _); [destruct (_ <? _)|]; discriminate.
    + destruct (dict_mem _ _); discriminate.
  - destruct (includes_audio_track x && _); [|discriminate].
    destruct (best_audio st) as [best|]; simpl; [|discriminate].
    unfold abr_greater.
    destruct (truthy (abr x)) as [a|]; [|discriminate].
    destruct (truthy (abr best)) as [b|]; [|discriminate].
    destruct (digits_int a) as [n|e1] eqn:E1; simpl.
    + destruct (digits_int b) as [m|e2] eqn:E2; simpl; [discriminate|].
      intros [= <-]. now apply digits_int_error in E2.
    + intros [= <-]. now apply digits_int_error in E1.
Qed.

Lemma order_video_error (vs : list (option string * Stream)) e :
  List.NoDup (dict_keys vs) ->
  order_video vs = Raise e ->
  e = ValueError \/ (e = TypeError /\ exists s, In (None, s) vs).
Proof.
  intros Hnd. unfold order_video. rewrite sorted_values_eq by assumption.
  unfold values_sorted, decorate.
  destruct (mapM _ vs) as [dec|e'] eqn:E; simpl; [discriminate|].
  intros [= <-]. apply mapM_error in E. destruct E as ([k s] & Hin & Hk).
  simpl in Hk. destruct k as [x|]; simpl in Hk.
  - left. destruct (digits_int x) as [n|e1] eqn:E1; simpl in Hk; [discriminate|].
    injection Hk as <-. now apply digits_int_error in E1.
  - right. injection Hk as <-. eauto.
Qed.

(** A label without a digit on an audio-only stream makes
    [organize_streams] raise. *)
Lemma organize_streams_unparseable streams verbose :
  Exists (fun s => audio_only s = true /\ ~ digit_label s) streams ->
  organize_streams streams verbose = Raise ValueError \/
  (organize_streams streams verbose = Raise TypeError /\
   exists s, In s (considered verbose streams) /\ resolution s = None).
Proof.
  intros Hex. unfold organize_streams.
  destruct (collect verbose streams) as [st|e] eqn:Est; simpl.
  2:{ left. now rewrite (collect_error _ _ _ Est). }
  destruct (collect_spec _ _ _ Est) as ((Hnd & Hin & _) & Haudio & _).
  destruct (order_video (video_streams st)) as [ordered|e] eqn:Eord; simpl.
  - left. unfold rank_audio, audio_buckets.
    rewrite audio_buckets_fail; [reflexivity|].
    rewrite Haudio. apply Exists_exists in Hex. destruct Hex as (s & Hs & Ha & Hd).
    apply Exists_exists. exists s. split; [apply filter_In; auto|].
    intros Hp. apply Hd. now apply digit_label_parses.
  - destruct (order_video_error _ _ Hnd Eord) as [->|[-> [s Hs]]]; [now left|].
    right. split; [reflexivity|]. exists s.
    destruct (Hin _ _ Hs) as [Hseen Hslot]. split; [assumption|].
    destruct Hslot as [[_ H]|[[_ H]|[_ [H _]]]]; [now symmetry | discriminate..].
Qed.

(** The ranked list in terms of the labels *)

Lemma rank_audio_labels audio ranked :
  rank_audio audio = Ok ranked ->
  StronglySorted (fun a b => (b < a)%N) (map label_bitrate ranked) /\
  (forall s, In s audio -> In (label_bitrate s) (map label_bitrate ranked)) /\
  List.length ranked = List.length (nodup N.eq_dec (map label_bitrate audio)) /\
  (forall s, In s ranked ->
     In s audio /\
     forall s', In s' audio -> label_bitrate s' = label_bitrate s ->
                filesize s <= filesize s').
Proof.
  intros H. destruct (rank_audio_spec _ _ H) as (rates & HF & Hsort & Hcov & Hmem).
  assert (Hrates : rates = map label_bitrate ranked).
  { clear - HF. induction HF as [|s b ranked rates Hb _ IH]; simpl; [reflexivity|].
    now rewrite (bitrate_of_label _ _ Hb), IH. }
  subst rates.
  assert (Hall : forall s, In s audio -> bitrate_of s = Ok (label_bitrate s)).
  { intros s Hs. destruct (Hcov s Hs) as (b & Hb & _).
    now rewrite (bitrate_of_label _ _ Hb) in Hb. }
  assert (Hcov' : forall s, In s audio -> In (label_bitrate s) (map label_bitrate ranked)).
  { intros s Hs. destruct (Hcov s Hs) as (b & Hb & Hin).
    now rewrite (bitrate_of_label _ _ Hb) in Hin. }
  split; [assumption|]. split; [assumption|]. split.
  - rewrite <- (length_map label_bitrate ranked).
    apply Permutation_length. apply NoDup_Permutation.
    + clear - Hsort. induction Hsort as [|a l _ IH Ha]; constructor; [|assumption].
      intros Hin. rewrite Forall_forall in Ha. specialize (Ha a Hin). lia.
    + apply NoDup_nodup.
    + intros b. rewrite nodup_In. split.
      * intros Hb. apply in_map_iff in Hb. destruct Hb as (s & <- & Hs).
        apply in_map. now apply Hmem.
      * intros Hb. apply in_map_iff in Hb. destruct Hb as (s & <- & Hs). auto.
  - intros s Hs. destruct (Hmem s Hs) as [Hin Hmin]. split; [assumption|].
    intros s' Hs' E. apply Hmin; [assumption|].
    rewrite (Hall s' Hs'), (Hall s Hin). now rewrite E.
Qed.

Lemma in_filter_audio_only streams s :
  In s (List.filter audio_only streams) <-> In s streams /\ audio_only s = true.
Proof. apply filter_In. Qed.

(** The audio menu with [verbose] on starts with the ranked list. *)
Lemma verbose_menu_ranked streams video menu :
  organize_streams streams true = Ok (video, menu) ->
  exists ranked rest,
    rank_audio (List.filter audio_only streams) = Ok ranked /\
    menu = map Real ranked ++ rest.
Proof.
  intros H. destruct (organize_streams_unfold _ _ _ _ H) as (st & ranked & Hst & _ & Hrk & ->).
  destruct (collect_spec _ _ _ Hst) as (_ & Haudio & _).
  rewrite Haudio in Hrk. exists ranked.
  unfold audio_menu. destruct (best_audio st).
  - eexists. split; [exact Hrk | reflexivity].
  - exists []. split; [exact Hrk | now rewrite app_nil_r].
Qed.

(** C6 (amended).  For every audio stream list with plain labels (ASCII,
    at most 4300 characters): if each label is absent or holds a digit,
    the ranked audio list exists and has
    exactly one stream per distinct bitrate present, where the bitrate of
    a stream is the number spelled by the digits of its label and 128 when
    the label is absent: the bitrates of the ranked list are strictly
    descending, every bitrate of the input occurs among them, there are
    as many ranked streams as distinct bitrates, and each ranked stream is
    an input stream with a smallest file of its bitrate.  With [verbose]
    on, the audio menu of [organize_streams] starts with this list for
    the audio-only streams.  A label that is present but has no digit is
    not bucketed as 128: the ranking raises [ValueError], and so does
    [organize_streams] when an audio-only stream has such a label (unless
    a video stream without a resolution makes it raise [TypeError]
    first). *)
Theorem rank_audio_buckets (audio : list Stream) :
  Forall ascii_labels audio ->
  (Forall digit_label audio ->
   exists ranked,
     rank_audio audio = Ok ranked /\
     StronglySorted (fun a b => (b < a)%N) (map label_bitrate ranked) /\
     (forall s, In s audio -> In (label_bitrate s) (map label_bitrate ranked)) /\
     List.length ranked = List.length (nodup N.eq_dec (map label_bitrate audio)) /\
     (forall s, In s ranked ->
        In s audio /\
        forall s', In s' audio -> label_bitrate s' = label_bitrate s ->
                   filesize s <= filesize s')) /\
  (Exists (fun s => ~ digit_label s) audio -> rank_audio audio = Raise ValueError) /\
  (forall streams video menu,
     Forall ascii_labels streams ->
     organize_streams streams true = Ok (video, menu) ->
     exists ranked rest,
       rank_audio (List.filter audio_only streams) = Ok ranked /\
       menu = map Real ranked ++ rest) /\
  (forall streams verbose,
     Forall ascii_labels streams ->
     Exists (fun s => audio_only s = true /\ ~ digit_label s) streams ->
     organize_streams streams verbose = Raise ValueError \/
     (organize_streams streams verbose = Raise TypeError /\
      exists s, In s (considered verbose streams) /\ resolution s = None)).
Proof.
  intros _. split; [|split; [|split]].
  - intros H.
    assert (Hp : Forall label_parses audio).
    { eapply Forall_impl; [|exact H]. intros s. apply digit_label_parses. }
    destruct (rank_audio_total audio Hp) as [ranked Hr].
    exists ranked. split; [assumption|]. now apply rank_audio_labels.
  - intros H. unfold rank_audio, audio_buckets.
    rewrite audio_buckets_fail; [reflexivity|].
    apply Exists_exists in H. destruct H as (s & Hs & Hd).
    apply Exists_exists. exists s. split; [assumption|].
    intros Hp. apply Hd. now apply digit_label_parses.
  - intros streams video menu _. apply verbose_menu_ranked.
  - intros streams verbose _. apply organize_streams_unparseable.
Qed.

Lemma rank_audio_buckets_witness :
  Forall ascii_labels scenario_B /\
  Forall digit_label scenario_B /\
  rank_audio scenario_B =
    Ok [audio_stream 2 (Some "160kbps") (4 * MB); audio_stream 1 (Some "128kbps") (5 * MB)] /\
  map label_bitrate scenario_B = [128; 160; 128]%N /\
  exists ranked,
    rank_audio scenario_B = Ok ranked /\
    StronglySorted (fun a b => (b < a)%N) (map label_bitrate ranked) /\
    (forall s, In s scenario_B -> In (label_bitrate s) (map label_bitrate ranked)) /\
    List.length ranked = List.length (nodup N.eq_dec (map label_bitrate scenario_B)) /\
    (forall s, In s ranked ->
       In s scenario_B /\
       forall s', In s' scenario_B -> label_bitrate s' = label_bitrate s ->
                  filesize s <= filesize s').
Proof.
  assert (Ha : Forall ascii_labels scenario_B) by (repeat constructor).
  assert (Hd : Forall digit_label scenario_B) by (repeat constructor).
  split; [exact Ha|]. split; [exact Hd|]. split; [reflexivity|]. split; [reflexivity|].
  exact (proj1 (rank_audio_buckets scenario_B Ha) Hd).
Defined.

(** C6, as stated, fails on [unlabelled_rate_catalogue]: a label without
    a digit is not bucketed as 128, the ranking raises. *)
Lemma rank_audio_unparseable_raises :
  Forall ascii_labels unlabelled_rate_catalogue /\
  map abr unlabelled_rate_catalogue = [Some "high"] /\
  rank_audio unlabelled_rate_catalogue = Raise ValueError /\
  (forall v, organize_streams unlabelled_rate_catalogue v = Raise ValueError) /\
  ~ (exists ranked, rank_audio unlabelled_rate_catalogue = Ok ranked).
Proof.
  split; [repeat constructor|]. split; [reflexivity|].
  split; [reflexivity|]. split; [intros []; reflexivity|].
  intros [ranked H]. discriminate H.
Qed.

(** ** The audio menu *)





Lemma in_firstn {A : Type} (n : nat) (l : list A) (x : A) : In x (firstn n l) -> In x l.
Proof.
  revert l; induction n as [|n IH]; intros [|y l]; simpl; try tauto.
  intros [H|H]; auto.
Qed.

Lemma in_virtual_streams ranked v :
  In v (virtual_streams ranked) <->
  exists a, In a ranked /\ (v = mp3_stream a \/ v = aac_stream a).
Proof.
  unfold virtual_streams. rewrite in_flat_map. split.
  - intros (a & Ha & Hv). destruct Hv as [<-|[<-|[]]]; eauto.
  - intros (a & Ha & Hv). exists a. destruct Hv as [-> | ->]; simpl; auto.
Qed.

Lemma in_audio_menu_virtual verbose best ranked v :
  In (Virtual v) (audio_menu verbose best ranked) -> In v (virtual_streams ranked).
Proof.
  assert (Hinj : forall l, In (Virtual v) (map Virtual l) -> In v l).
  { intros l H. apply in_map_iff in H. destruct H as (v' & Heq & H).
    injection Heq as ->. exact H. }
  assert (Hreal : ~ In (Virtual v) (map Real ranked)).
  { intros H. apply in_map_iff in H. destruct H as (? & ? & _). discriminate. }
  unfold audio_menu. destruct best; [destruct verbose|]; intros H.
  - apply in_app_or in H. destruct H as [H|H]; [contradiction | auto].
  - apply Hinj in H. now apply in_firstn in H.
  - contradiction.
Qed.

(** C9.  A stream kept in the ranked audio list whose bitrate label is
    absent sits in the bucket dictionary under the key 128kbps, while the
    mp3 and aac dictionaries synthesized from it carry the label 160kbps:
    both are among the synthesized options, both are in the returned menu
    when [verbose] is on, and any dictionary of the returned menu built
    from that stream is labelled 160kbps. *)
Theorem absent_bitrate_defaults_differ streams verbose st aq ranked a :
  collect verbose streams = Ok st ->
  audio_buckets (audio_streams st) = Ok aq ->
  rank_audio (audio_streams st) = Ok ranked ->
  In a ranked ->
  truthy (abr a) = None ->
  bitrate_of a = Ok 128%N /\
  dict_get "128kbps" aq = Some a /\
  In (mkVirtual "audio" "mp3" "160kbps" (filesize a) "mp3" a) (virtual_streams ranked) /\
  In (mkVirtual "audio" "aac" "160kbps" (filesize a) "aac" a) (virtual_streams ranked) /\
  "160kbps" <> "128kbps" /\
  forall video audio,
    organize_streams streams verbose = Ok (video, audio) ->
    (verbose = true ->
       In (Virtual (mkVirtual "audio" "mp3" "160kbps" (filesize a) "mp3" a)) audio /\
       In (Virtual (mkVirtual "audio" "aac" "160kbps" (filesize a) "aac" a)) audio) /\
    (forall v, In (Virtual v) audio -> original_stream v = a -> v_abr v = "160kbps").
Proof.
  intros Hst Haq Hrk Ha Habs.
  assert (Hb : bitrate_of a = Ok 128%N) by (unfold bitrate_of; now rewrite Habs).
  assert (Hmp3 : mp3_stream a = mkVirtual "audio" "mp3" "160kbps" (filesize a) "mp3" a).
  { unfold mp3_stream, virtual_label. now rewrite Habs. }
  assert (Haac : aac_stream a = mkVirtual "audio" "aac" "160kbps" (filesize a) "aac" a).
  { unfold aac_stream, virtual_label. now rewrite Habs. }
  assert (Hv1 : In (mp3_stream a) (virtual_streams ranked)).
  { apply in_virtual_streams. eauto. }
  assert (Hv2 : In (aac_stream a) (virtual_streams ranked)).
  { apply in_virtual_streams. eauto. }
  split; [exact Hb|]. split; [|split; [|split; [|split]]].
  - destruct (rank_audio_unfold _ _ Hrk) as (aq' & Haq' & (Hnd & Hin & _) & Hv).
    assert (aq' = aq) by congruence. subst aq'.
    apply (Permutation_in _ (values_sorted_perm _ _ _ _ Hv)) in Ha.
    apply in_map_iff in Ha. destruct Ha as ([k a'] & Hs & Hka). simpl in Hs. subst a'.
    destruct (Hin k a Hka) as (_ & b & Hb' & -> & _).
    assert (b = 128%N) by congruence. subst b.
    now apply in_dict_get.
  - now rewrite <- Hmp3.
  - now rewrite <- Haac.
  - discriminate.
  - intros video audio Horg.
    destruct (organize_streams_unfold _ _ _ _ Horg) as (st' & ranked' & Hst' & _ & Hrk' & ->).
    assert (st' = st) by congruence. subst st'.
    assert (ranked' = ranked) by congruence. subst ranked'.
    split.
    + intros ->. destruct (collect_spec _ _ _ Hst) as (_ & Haudio & Hbest).
      destruct (best_audio st) as [best|] eqn:Eb.
      * simpl. rewrite <- Hmp3, <- Haac.
        split; apply in_or_app; right; now apply in_map.
      * exfalso. destruct Hbest as [Hbest _].
        destruct (rank_audio_spec _ _ Hrk) as (_ & _ & _ & _ & Hmem).
        destruct (Hmem a Ha) as [Hin _].
        rewrite Haudio, Hbest in Hin by reflexivity. destruct Hin.
    + intros v Hv Horig. apply in_audio_menu_virtual in Hv.
      apply in_virtual_streams in Hv. destruct Hv as (a' & _ & [-> | ->]);
        simpl in Horig; subst a'; rewrite ?Hmp3, ?Haac; reflexivity.
Qed.

(** A catalogue with one unlabelled audio stream. *)
Lemma absent_bitrate_defaults_differ_witness :
  let a := audio_stream 1 None (3 * MB) in
  organize_streams [a] true =
    Ok ([], [ Real a;
              Virtual (mkVirtual "audio" "mp3" "160kbps" (3 * MB) "mp3" a);
              Virtual (mkVirtual "audio" "aac" "160kbps" (3 * MB) "aac" a) ]) /\
  bitrate_of a = Ok 128%N /\
  dict_get "128kbps" [("128kbps", a)] = Some a.
Proof.
  intros a. split; [reflexivity|].
  pose proof (absent_bitrate_defaults_differ [a] true
                (mkCollected [] [a] (Some a)) [("128kbps", a)] [a] a
                eq_refl eq_refl eq_refl (or_introl eq_refl) eq_refl) as H.
  split; [exact (proj1 H) | exact (proj1 (proj2 H))].
Defined.

(** ** clean_filename *)

Lemma str_mem_filter p (s : string) (c : ascii) :
  str_mem c (str_filter p s) = true -> p c = true.
Proof.
  induction s as [|d s IH]; simpl; [discriminate|].
  destruct (p d) eqn:E; simpl; [|assumption].
  destruct (Ascii.eqb_spec c d) as [->|]; simpl; [now intros _ | assumption].
Qed.

(** C10.  [clean_filename] is idempotent, and none of the nine characters
    of its character class occurs in its output. *)
Theorem clean_filename_idempotent_safe (title : string) :
  clean_filename (clean_filename title) = clean_filename title /\
  forall c, is_illegal c = true -> str_mem c (clean_filename title) = false.
Proof.
  split; [apply str_filter_all|].
  intros c Hc. destruct (str_mem c (clean_filename title)) eqn:E; [|reflexivity].
  apply str_mem_filter in E. rewrite Hc in E. discriminate.
Qed.

Lemma clean_filename_idempotent_safe_witness :
  is_illegal "<" = true /\ str_mem "<" (clean_filename "a<b>c") = false.
Proof.
  split; [reflexivity|].
  exact (proj2 (clean_filename_idempotent_safe "a<b>c") "<"%char eq_refl).
Defined.

(** ** The quality column *)

(** C7 (the code at the failing input).  With a 2160p stream in the
    catalogue, the first-encountered 1080p stream still sorts before the
    smaller 1080p stream, but it is on row 2 and the table shows it as
    plain 1080p: the plus sign is given to row 1 only. *)
Theorem primary_1080p_unflagged_below_2160p :
  (forall v, organize_streams uhd_catalogue v = Ok (uhd_catalogue, [])) /\
  video_qualities uhd_catalogue = Ok ["2160p"; "1080p"; "1080p"].
Proof. split; [intros []; reflexivity | reflexivity]. Qed.

(** The plus sign depends on the row number alone. *)
Lemma video_quality_flag (i : nat) (s : Stream) :
  resolution s = key_1080p ->
  video_quality i s = Ok (if Nat.eqb i 1 then "1080p+" else "1080p").
Proof.
  intros E. unfold video_quality. rewrite decide_True by assumption.
  now destruct (Nat.eqb i 1).
Qed.

(** ** The prompt *)

Lemma choose_format_empty (inputs : list user_input) (st : State) :
  files (fst (choose_format 0 inputs st)) = files st /\
  (forall i, snd (choose_format 0 inputs st) <> Chosen i) /\
  (forallb is_typed inputs = true ->
     choose_format 0 inputs st =
       (mkState (files st) (console st ++ flat_map rejection inputs), Waiting)) /\
  (forall e, snd (choose_format 0 inputs st) = Stopped e ->
     (e = SystemExit 0 /\ In CtrlC inputs) \/ (e = EOFError /\ In EndOfInput inputs)).
Proof.
  revert st. induction inputs as [|i inputs IH]; intros st.
  - simpl. split; [reflexivity|]. split; [discriminate|]. split; [|discriminate].
    intros _. rewrite app_nil_r. now destruct st.
  - assert (Hstep : forall m,
      files (fst (choose_format 0 inputs (mkState (files st) (console st ++ m)))) = files st /\
      (forall i, snd (choose_format 0 inputs (mkState (files st) (console st ++ m)))
                 <> Chosen i) /\
      (forallb is_typed inputs = true ->
         choose_format 0 inputs (mkState (files st) (console st ++ m)) =
           (mkState (files st) (console st ++ m ++ flat_map rejection inputs), Waiting)) /\
      (forall e, snd (choose_format 0 inputs (mkState (files st) (console st ++ m)))
                 = Stopped e ->
         (e = SystemExit 0 /\ In CtrlC inputs) \/ (e = EOFError /\ In EndOfInput inputs))).
    { intros m. destruct (IH (mkState (files st) (console st ++ m))) as (H1 & H2 & H3 & H4).
      simpl in H1, H3. split; [exact H1|]. split; [exact H2|]. split; [|exact H4].
      intros Ht. rewrite (H3 Ht). now rewrite <- app_assoc. }
    destruct i as [choice| | |]; simpl.
    + destruct ((1 <=? choice) && (choice <=? Z.of_nat 0)) eqn:Eb;
        [apply andb_true_iff in Eb; simpl in Eb; rewrite !Z.leb_le in Eb; lia|].
      destruct (Hstep [InvalidNumber]) as (H1 & H2 & H3 & H4).
      split; [assumption|]. split; [assumption|]. split; [assumption|].
      intros e He. destruct (H4 e He) as [[? ?]|[? ?]]; auto.
    + destruct (Hstep [EnterValidNumber]) as (H1 & H2 & H3 & H4).
      split; [assumption|]. split; [assumption|]. split; [assumption|].
      intros e He. destruct (H4 e He) as [[? ?]|[? ?]]; auto.
    + split; [reflexivity|]. split; [discriminate|]. split; [discriminate|].
      intros e [= <-]. auto.
    + split; [reflexivity|]. split; [discriminate|]. split; [discriminate|].
      intros e [= <-]. auto.
Qed.

(** C8 (amended).  On an empty stream list [organize_streams] returns an
    empty menu.  [download_video] has no check for it: the session goes to
    the prompt, no line can choose a format, each typed line is answered
    by the matching rejection and the prompt asks again.  The session
    touches no file and never completes; it ends only when the user
    interrupts (exit status 0) or the input ends (exit status 1). *)
Theorem empty_menu_reprompts (name : string) (verbose : bool)
    (inputs : list user_input) (w : World) (st : State) :
  organize_streams [] verbose = Ok ([], []) /\
  files (fst (download_video (Ok (mkVideo name [])) verbose inputs w st)) = files st /\
  snd (download_video (Ok (mkVideo name [])) verbose inputs w st) <> Completed /\
  (forallb is_typed inputs = true ->
     download_video (Ok (mkVideo name [])) verbose inputs w st =
       (mkState (files st) (console st ++ flat_map rejection inputs), AwaitingInput)) /\
  (snd (download_video (Ok (mkVideo name [])) verbose inputs w st) = Exited 0 ->
     In CtrlC inputs) /\
  (snd (download_video (Ok (mkVideo name [])) verbose inputs w st) = Exited 1 ->
     In EndOfInput inputs).
Proof.
  split; [reflexivity|].
  unfold download_video. simpl.
  destruct (choose_format_empty inputs st) as (H1 & H2 & H3 & H4).
  destruct (choose_format 0 inputs st) as [st1 [i|e|]] eqn:E; simpl in *.
  - now destruct (H2 i).
  - assert (Hnt : forallb is_typed inputs = true -> False).
    { intros Ht. specialize (H3 Ht). congruence. }
    destruct (H4 e eq_refl) as [[-> Hin]|[-> Hin]]; simpl.
    + split; [assumption|]. split; [discriminate|]. split; [intros Ht; now destruct Hnt|].
      split; [auto | discriminate].
    + split; [assumption|]. split; [discriminate|]. split; [intros Ht; now destruct Hnt|].
      split; [discriminate | auto].
  - split; [assumption|]. split; [discriminate|]. split; [|split; discriminate].
    intros Ht. specialize (H3 Ht). now injection H3 as ->.
Qed.

(** C8, as stated, fails: with an empty menu and three typed lines the
    session has not failed, it is at the prompt again. *)
Lemma empty_menu_no_failure :
  download_video (Ok (mkVideo "clip" [])) false
    [Typed 1; TypedGarbage; Typed 0] broken_network fresh
  = (mkState ∅ [InvalidNumber; EnterValidNumber; InvalidNumber], AwaitingInput).
Proof. reflexivity. Qed.

(** ** The session and the file system *)

Lemma download_selected_mode w verbose dir name selected m :
  mode_of w verbose dir name selected = Some m ->
  download_selected w verbose dir name selected = run_mode w dir m.
Proof.
  unfold mode_of, download_selected, download_adaptive, download_transcode,
    download_direct.
  destruct selected as [s|v].
  - destruct (includes_video_track s).
    + destruct (negb (is_progressive s)).
      * destruct (first_audio w); [|discriminate]. now intros [= <-].
      * now intros [= <-].
    + destruct verbose; [|discriminate]. now intros [= <-].
  - destruct verbose; [discriminate|]. now intros [= <-].
Qed.

Lemma is_Some_decide {A : Type} (o : option A) :
  bool_decide (is_Some o) = match o with Some _ => true | None => false end.
Proof.
  destruct o.
  - apply bool_decide_eq_true_2. eauto.
  - apply bool_decide_eq_false_2. intros [? ?]. discriminate.
Qed.

Lemma clean_up_spec video_path audio_path st :
  clean_up video_path audio_path st =
  (mkState (delete audio_path (delete video_path (files st))) (console st), Ok tt).
Proof.
  unfold clean_up, sbind, path_exists, os_remove, sret.
  rewrite is_Some_decide.
  destruct (files st !! video_path) as [f|] eqn:Ev; cbv beta iota.
  - rewrite Ev. cbn [files console]. rewrite is_Some_decide.
    destruct (delete video_path (files st) !! audio_path) as [g|] eqn:Ea;
      cbv beta iota; cbn [files console].
    + now rewrite Ea.
    + now rewrite (delete_id _ _ Ea).
  - rewrite is_Some_decide. rewrite (delete_id _ _ Ev).
    destruct (files st !! audio_path) as [g|] eqn:Ea; cbv beta iota.
    + now rewrite Ea.
    + rewrite (delete_id _ _ Ea). now destruct st.
Qed.

(** The adaptive branch removes both temporary files whatever happens. *)
Lemma remux_removes_temporaries w dir video_path audio_path output_path st :
  files (fst (remux w dir video_path audio_path output_path st)) !! video_path = None /\
  files (fst (remux w dir video_path audio_path output_path st)) !! audio_path = None.
Proof.
  unfold remux, try_finally.
  destruct (sbind _ _ st) as [st1 r]. rewrite clean_up_spec. simpl.
  split.
  - destruct (decide (audio_path = video_path)) as [->|Hne].
    + apply lookup_delete_eq.
    + rewrite lookup_delete_ne by assumption. apply lookup_delete_eq.
  - apply lookup_delete_eq.
Qed.

(** The conversion branch keeps its temporary file when ffmpeg fails. *)
Lemma transcode_failure_keeps_temporary w dir tmp full_path st rc :
  finished w tmp = true ->
  tool_run w = Ok rc -> rc <> 0 ->
  snd (transcode w dir tmp full_path st) = Raise (SystemExit 1) /\
  is_Some (files (fst (transcode w dir tmp full_path st)) !! tmp).
Proof.
  unfold finished, transcode, sbind, download, run_tool, print, raise.
  destruct (status (download_outcome w tmp)); try discriminate. intros _ -> Hrc.
  destruct (rc =? 0) eqn:E; [apply Z.eqb_eq in E; contradiction|].
  simpl. split; [reflexivity|].
  unfold leave. destruct (tool_left w); simpl.
  - apply lookup_insert_is_Some'. right. rewrite lookup_insert_eq. eauto.
  - rewrite lookup_insert_eq. eauto.
Qed.

(** C2 (the code at the failing input).  The mp3 option of Scenario B is
    chosen, the download finishes and ffmpeg returns 1: the session exits
    with status 1 and the temporary file is still there.  The adaptive
    branch, after the same failure on Scenario A, has removed both of its
    temporary files. *)
Theorem transcode_failure_temp_file_remains :
  (let r := download_video (Ok (mkVideo "clip" scenario_B)) false [Typed 1]
              (steady_world 1 None) fresh in
   snd r = Exited 1 /\
   console (fst r) = [ErrorConverting] /\
   files (fst r) !! "downloads/clip_temp.webm" = Some Complete) /\
  (let r := download_video (Ok (mkVideo "clip" scenario_A)) false [Typed 1]
              (steady_world 1 None) fresh in
   snd r = Exited 1 /\
   console (fst r) = [ErrorCombining] /\
   files (fst r) !! "downloads/clip_video_temp.mp4" = None /\
   files (fst r) !! "downloads/clip_audio_temp.webm" = None).
Proof. vm_compute. repeat split. Qed.

Ltac fs_lookup :=
  repeat first
    [ rewrite lookup_insert_eq
    | rewrite lookup_delete_eq
    | rewrite lookup_insert_ne by congruence
    | rewrite lookup_delete_ne by congruence ].

Lemma direct_in_place w dir dest st :
  files (fst (run_mode w dir (DirectMode dest) st)) !! dest
    = download_left w dest (files st !! dest) /\
  (snd (run_mode w dir (DirectMode dest) st) = Ok tt ->
   files (fst (run_mode w dir (DirectMode dest) st)) !! dest = Some Complete).
Proof.
  unfold run_mode, sbind, download, download_left, print, open_file_explorer, leave.
  destruct (status (download_outcome w dest));
    [|destruct (left_behind (download_outcome w dest))..];
    cbn [fst snd files console]; fs_lookup; split; try reflexivity; try discriminate.
Qed.

Lemma remux_in_place w dir video_path audio_path dest st :
  video_path <> dest -> audio_path <> dest ->
  files (fst (remux w dir video_path audio_path dest st)) !! dest
    = writer_left w (RemuxMode video_path audio_path dest) (files st !! dest) /\
  (snd (remux w dir video_path audio_path dest st) = Ok tt -> tool_sound w ->
   files (fst (remux w dir video_path audio_path dest st)) !! dest = Some Complete).
Proof.
  intros Hv Ha. unfold remux, try_finally.
  destruct (sbind _ _ st) as [st1 r] eqn:Ebody. rewrite clean_up_spec.
  cbn [fst snd files]. fs_lookup.
  revert Ebody. unfold writer_left, finished, tool_sound, sbind, download, run_tool,
    print, raise, leave.
  destruct (status (download_outcome w video_path));
    [|destruct (left_behind (download_outcome w video_path))..];
    cbn [fst snd files console andb];
    try (intros [= <- <-]; cbn [files]; fs_lookup; split; [reflexivity | discriminate]).
  destruct (status (download_outcome w audio_path));
    [|destruct (left_behind (download_outcome w audio_path))..];
    cbn [fst snd files console andb];
    try (intros [= <- <-]; cbn [files]; fs_lookup; split; [reflexivity | discriminate]).
  destruct (tool_run w) as [rc|e]; [destruct (rc =? 0) eqn:Erc|];
    destruct (tool_left w); cbn [fst snd files console];
    intros [= <- <-]; cbn [files]; fs_lookup;
    (split; [reflexivity|]); try discriminate.
  - intros _ Hs. apply Z.eqb_eq in Erc. subst rc. now rewrite Hs.
  - intros _ Hs. apply Z.eqb_eq in Erc. subst rc. specialize (Hs eq_refl). discriminate.
Qed.

Lemma transcode_in_place w dir tmp dest st :
  tmp <> dest ->
  files (fst (transcode w dir tmp dest st)) !! dest
    = writer_left w (TranscodeMode tmp dest) (files st !! dest) /\
  (snd (transcode w dir tmp dest st) = Ok tt -> tool_sound w ->
   files (fst (transcode w dir tmp dest st)) !! dest = Some Complete).
Proof.
  intros Ht.
  unfold transcode, writer_left, finished, tool_sound, sbind, download, run_tool,
    os_remove, print, raise, open_file_explorer, leave.
  destruct (status (download_outcome w tmp));
    [|destruct (left_behind (download_outcome w tmp))..];
    cbn [fst snd files console];
    try (fs_lookup; split; [reflexivity | discriminate]).
  destruct (tool_run w) as [rc|e]; [destruct (rc =? 0) eqn:Erc|];
    destruct (tool_left w); cbn [fst snd files console]; fs_lookup;
    cbn [fst snd files console]; fs_lookup;
    (split; [reflexivity|]); try discriminate.
  - intros _ Hs. apply Z.eqb_eq in Erc. subst rc. now rewrite Hs.
  - intros _ Hs. apply Z.eqb_eq in Erc. subst rc. specialize (Hs eq_refl). discriminate.
Qed.

(** C3 (amended).  The session has no promote or rename step.  Only the
    sources of a merge or of a conversion go to temporary paths; the
    output is written in place, by the download itself in direct mode and
    by ffmpeg otherwise, and the session never removes it.  So, when the
    temporary paths differ from the destination, the destination ends up
    holding exactly what its writer left there (a partial file if the
    writer failed and left one), and it holds a complete file whenever the
    session completes and an ffmpeg run that returns 0 has written a
    complete file. *)
Theorem output_written_in_place w verbose dir name selected m st :
  mode_of w verbose dir name selected = Some m ->
  (forall t, In t (temporaries m) -> t <> destination m) ->
  files (fst (download_selected w verbose dir name selected st)) !! destination m
    = writer_left w m (files st !! destination m) /\
  (snd (download_selected w verbose dir name selected st) = Ok tt ->
   tool_sound w ->
   files (fst (download_selected w verbose dir name selected st)) !! destination m
     = Some Complete).
Proof.
  intros Hm Hd. rewrite (download_selected_mode _ _ _ _ _ _ Hm).
  destruct m as [dest|video_path audio_path dest|tmp dest]; simpl in Hd.
  - destruct (direct_in_place w dir dest st) as [H1 H2]. split; [exact H1 | auto].
  - apply remux_in_place; apply Hd; auto.
  - apply transcode_in_place; apply Hd; auto.
Qed.

Lemma output_written_in_place_witness :
  let w := steady_world 0 (Some Complete) in
  let selected := Real (video_stream 1 "1080p" "mp4" (50 * MB)) in
  let r := download_selected w false "downloads" "clip" selected fresh in
  mode_of w false "downloads" "clip" selected
    = Some (RemuxMode "downloads/clip_video_temp.mp4" "downloads/clip_audio_temp.webm"
                      "downloads/clip_1080p.mp4") /\
  files (fst r) !! "downloads/clip_1080p.mp4" = Some Complete.
Proof.
  intros w selected r. split; [reflexivity|].
  refine (proj2 (output_written_in_place w false "downloads" "clip" selected
                   (RemuxMode "downloads/clip_video_temp.mp4"
                              "downloads/clip_audio_temp.webm"
                              "downloads/clip_1080p.mp4") fresh eq_refl _) eq_refl _).
  - intros t [<-|[<-|[]]]; discriminate.
  - intros _. reflexivity.
Defined.

(** C3, as stated, fails: a progressive download that breaks off leaves
    its partial file under the final name, and so does an ffmpeg run that
    fails after it has started to write the merged file. *)
Lemma partial_output_left_at_destination :
  (let r := download_video (Ok (mkVideo "clip" [progressive_stream])) false [Typed 1]
              broken_network fresh in
   snd r = Exited 1 /\
   files (fst r) !! "downloads/clip_360p.mp4" = Some Partial) /\
  (let r := download_video (Ok (mkVideo "clip" scenario_A)) false [Typed 1]
              (steady_world 1 (Some Partial)) fresh in
   snd r = Exited 1 /\
   files (fst r) !! "downloads/clip_1080p.mp4" = Some Partial).
Proof. vm_compute. repeat split. Qed.

Lemma empty_menu_reprompts_witness :
  forallb is_typed [Typed 1; TypedGarbage] = true /\
  download_video (Ok (mkVideo "clip" [])) true [Typed 1; TypedGarbage]
    (steady_world 0 None) fresh
  = (mkState ∅ [InvalidNumber; EnterValidNumber], AwaitingInput).
Proof.
  split; [reflexivity|].
  exact (proj1 (proj2 (proj2 (proj2
           (empty_menu_reprompts "clip" true [Typed 1; TypedGarbage]
              (steady_world 0 None) fresh)))) eq_refl).
Defined.

(** ** The progress bars *)

Section MonitorFacts.
Variable step : Z -> result (option Z).
Hypothesis step_bounds :
  forall c p, 0 <= c -> step c = Ok (Some p) -> 0 <= p <= 100.
Hypothesis step_mono :
  forall c1 c2 p1 p2, 0 <= c1 <= c2 ->
    step c1 = Ok (Some p1) -> step c2 = Ok (Some p2) -> p1 <= p2.


Lemma monitor_ok_bar lines bar :
  snd (monitor step lines bar) = Ok tt \/ exists e, snd (monitor step lines bar) = Raise e.
Proof.
  revert bar. induction lines as [|[[c|]|] lines IH]; intros bar; simpl; auto.
  destruct (step c) as [[p|]|e]; simpl; eauto.
Qed.





End MonitorFacts.

(** ** Rounding to the nearest float *)

Ltac qcmp H :=
  first [apply Qeq_alt in H | apply Qlt_alt in H | apply Qgt_alt in H].

Lemma floor_le_rhe q : Qfloor q <= round_half_even q <= Qfloor q + 1.
Proof.
  unfold round_half_even. cbv zeta.
  destruct (Qcompare _ _); [destruct (Z.even _)| |]; lia.
Qed.

Lemma rhe_mono q1 q2 : (q1 <= q2)%Q -> round_half_even q1 <= round_half_even q2.
Proof.
  intros H. pose proof (Qfloor_resp_le _ _ H) as Hk.
  destruct (Z.eq_dec (Qfloor q1) (Qfloor q2)) as [E|NE].
  - unfold round_half_even. cbv zeta. rewrite <- E.
    destruct (q1 - inject_Z (Qfloor q1) ?= 1 # 2)%Q eqn:C1;
    destruct (q2 - inject_Z (Qfloor q1) ?= 1 # 2)%Q eqn:C2;
      try (destruct (Z.even (Qfloor q1)); lia); try lia;
      qcmp C1; qcmp C2; exfalso; lra.
  - pose proof (floor_le_rhe q1). pose proof (floor_le_rhe q2). lia.
Qed.

Lemma rhe_ge_int m q : (inject_Z m <= q)%Q -> m <= round_half_even q.
Proof.
  intros H. apply Qfloor_resp_le in H. rewrite Qfloor_Z in H.
  pose proof (floor_le_rhe q). lia.
Qed.

Lemma rhe_le_int m q : (q <= inject_Z m)%Q -> round_half_even q <= m.
Proof.
  intros H. pose proof (Qfloor_resp_le _ _ H) as Hk. rewrite Qfloor_Z in Hk.
  destruct (Z.eq_dec (Qfloor q) m) as [E|NE].
  - unfold round_half_even. cbv zeta. rewrite E.
    pose proof (Qfloor_le q) as Hf. rewrite E in Hf.
    destruct (q - inject_Z m ?= 1 # 2)%Q eqn:C; try lia;
      qcmp C; exfalso; lra.
  - pose proof (floor_le_rhe q). lia.
Qed.

(** Powers of two and binades *)

Lemma pow2_pos k : (0 < pow2 k)%Q.
Proof. apply Qpower_0_lt. reflexivity. Qed.

Lemma pow2_add a b : (pow2 (a + b) == pow2 a * pow2 b)%Q.
Proof. apply Qpower_plus. discriminate. Qed.

Lemma pow2_le a b : a <= b -> (pow2 a <= pow2 b)%Q.
Proof. intros H. apply Qpower_le_compat_l; [assumption | discriminate]. Qed.

Lemma pow2_lt_inv a b : (pow2 a < pow2 b)%Q -> a < b.
Proof. intros H. apply (Qpower_lt_compat_l_inv 2); [assumption | reflexivity]. Qed.

Lemma pow2_int k : 0 <= k -> (pow2 k == inject_Z (2 ^ k))%Q.
Proof. intros H. unfold pow2. now rewrite Zpower_Qpower. Qed.

Lemma pow2_frac a b :
  0 <= a -> 0 <= b -> (pow2 (a - b) == 2 ^ a # Z.to_pos (2 ^ b))%Q.
Proof.
  intros Ha Hb. replace (a - b) with (a + - b) by ring.
  rewrite pow2_add. unfold pow2 at 2. rewrite Qpower_opp.
  fold (pow2 b). rewrite !pow2_int by assumption.
  rewrite Qmake_Qdiv. unfold Qdiv.
  rewrite Z2Pos.id by (apply Z.pow_pos_nonneg; lia). reflexivity.
Qed.

Lemma magnitude_spec x :
  (0 < x)%Q -> (pow2 (magnitude x - 1) <= x)%Q /\ (x < pow2 (magnitude x))%Q.
Proof.
  intros Hx. destruct x as [n d]. unfold Qlt in Hx. simpl in Hx.
  assert (Hn : 0 < n) by lia.
  pose proof (Z.log2_spec n Hn) as [Hn1 Hn2].
  pose proof (Z.log2_spec (Zpos d) (Pos2Z.is_pos d)) as [Hd1 Hd2].
  pose proof (Z.log2_nonneg n) as Ha. pose proof (Z.log2_nonneg (Zpos d)) as Hb.
  unfold magnitude. cbn [Qnum Qden].
  set (a := Z.log2 n) in *. set (b := Z.log2 (Zpos d)) in *.
  assert (P2 : forall k, 0 <= k -> 0 < 2 ^ k) by (intros; apply Z.pow_pos_nonneg; lia).
  pose proof (P2 a Ha). pose proof (P2 b Hb).
  assert (Hs : 2 ^ Z.succ a = 2 * 2 ^ a) by (apply Z.pow_succ_r; lia).
  assert (Hs' : 2 ^ Z.succ b = 2 * 2 ^ b) by (apply Z.pow_succ_r; lia).
  destruct (Qle_bool (pow2 (a - b)) (n # d)) eqn:E.
  - apply Qle_bool_iff in E. split.
    + replace (a - b + 1 - 1) with (a - b) by ring. exact E.
    + replace (a - b + 1) with (Z.succ a - b) by ring.
      rewrite pow2_frac by lia. unfold Qlt. cbn [Qnum Qden].
      rewrite Z2Pos.id by lia. nia.
  - assert (E' : (n # d < pow2 (a - b))%Q).
    { apply Qnot_le_lt. intros H'. apply Qle_bool_iff in H'. congruence. }
    split; [|exact E'].
    replace (a - b - 1) with (a - Z.succ b) by ring.
    rewrite pow2_frac by lia. unfold Qle. cbn [Qnum Qden].
    rewrite Z2Pos.id by lia. nia.
Qed.

Lemma magnitude_mono x y : (0 < x)%Q -> (x <= y)%Q -> magnitude x <= magnitude y.
Proof.
  intros Hx Hxy.
  assert (Hy : (0 < y)%Q) by (eapply Qlt_le_trans; eauto).
  destruct (magnitude_spec x Hx) as [Hx1 _].
  destruct (magnitude_spec y Hy) as [_ Hy2].
  assert (magnitude x - 1 < magnitude y); [|lia].
  apply pow2_lt_inv. eapply Qle_lt_trans; [exact Hx1|].
  eapply Qle_lt_trans; [exact Hxy | exact Hy2].
Qed.

(** Rounding on a grid *)

Lemma Qeq_le a b : (a == b)%Q -> (a <= b)%Q.
Proof. intros H. apply Qle_lteq. now right. Qed.

Lemma scale_le f x y : (x <= y)%Q -> (x / pow2 f <= y / pow2 f)%Q.
Proof.
  intros H. unfold Qdiv. apply Qmult_le_compat_r; [assumption|].
  apply Qinv_le_0_compat, Qlt_le_weak, pow2_pos.
Qed.

Lemma scale_grid f m : (inject_Z m * pow2 f / pow2 f == inject_Z m)%Q.
Proof.
  apply Qdiv_mult_l. intros H. pose proof (pow2_pos f) as Hp. rewrite H in Hp.
  discriminate.
Qed.

Lemma grid_mono f x y : (x <= y)%Q -> (on_grid f x <= on_grid f y)%Q.
Proof.
  intros H. unfold on_grid. apply Qmult_le_compat_r.
  - rewrite <- Zle_Qle. now apply rhe_mono, scale_le.
  - apply Qlt_le_weak, pow2_pos.
Qed.

Lemma grid_ge f m x :
  (inject_Z m * pow2 f <= x)%Q -> (inject_Z m * pow2 f <= on_grid f x)%Q.
Proof.
  intros H. unfold on_grid. apply Qmult_le_compat_r.
  - rewrite <- Zle_Qle. apply rhe_ge_int.
    apply (Qle_trans _ (inject_Z m * pow2 f / pow2 f)).
    + apply Qeq_le. symmetry. apply scale_grid.
    + now apply scale_le.
  - apply Qlt_le_weak, pow2_pos.
Qed.

Lemma grid_le f m x :
  (x <= inject_Z m * pow2 f)%Q -> (on_grid f x <= inject_Z m * pow2 f)%Q.
Proof.
  intros H. unfold on_grid. apply Qmult_le_compat_r.
  - rewrite <- Zle_Qle. apply rhe_le_int.
    apply (Qle_trans _ (inject_Z m * pow2 f / pow2 f)).
    + now apply scale_le.
    + apply Qeq_le. apply scale_grid.
  - apply Qlt_le_weak, pow2_pos.
Qed.

Lemma pow2_on_grid k f :
  f <= k -> (pow2 k == inject_Z (2 ^ (k - f)) * pow2 f)%Q.
Proof.
  intros H. replace k with ((k - f) + f) at 1 by ring.
  rewrite pow2_add. rewrite pow2_int by lia. reflexivity.
Qed.

Lemma binary64_pos x : (0 < x)%Q -> binary64 x = on_grid (fexp64 (magnitude x)) x.
Proof.
  intros H. unfold binary64.
  assert (E : (x ?= 0)%Q = Gt) by now apply Qgt_alt.
  now rewrite E.
Qed.

Lemma binary64_zero x : (x == 0)%Q -> binary64 x = 0%Q.
Proof.
  intros H. unfold binary64.
  assert (E : (x ?= 0)%Q = Eq) by now apply Qeq_alt.
  now rewrite E.
Qed.

Lemma binary64_nonneg y : (0 <= y)%Q -> (0 <= binary64 y)%Q.
Proof.
  intros H. apply Qle_lteq in H. destruct H as [H|H].
  - rewrite (binary64_pos y H).
    apply (Qle_trans _ (inject_Z 0 * pow2 (fexp64 (magnitude y)))).
    + apply Qeq_le. symmetry. apply Qmult_0_l.
    + apply grid_ge. apply (Qle_trans _ 0).
      * apply Qeq_le. apply Qmult_0_l.
      * now apply Qlt_le_weak.
  - rewrite (binary64_zero y); [apply Qle_refl | now symmetry].
Qed.

Lemma binary64_mono x y :
  (0 <= x)%Q -> (x <= y)%Q -> (binary64 x <= binary64 y)%Q.
Proof.
  intros H0 Hxy. apply Qle_lteq in H0. destruct H0 as [Hx|Hx].
  - assert (Hy : (0 < y)%Q) by (eapply Qlt_le_trans; eauto).
    rewrite (binary64_pos x Hx), (binary64_pos y Hy).
    pose proof (magnitude_mono x y Hx Hxy) as Hm.
    destruct (Z.eq_dec (fexp64 (magnitude x)) (fexp64 (magnitude y))) as [E|NE].
    + rewrite E. now apply grid_mono.
    + unfold fexp64 in *.
      assert (Hlt : magnitude x < magnitude y) by lia.
      assert (Hfy : Z.max (magnitude y - 53) (-1074) = magnitude y - 53) by lia.
      destruct (magnitude_spec x Hx) as [_ Hx2].
      destruct (magnitude_spec y Hy) as [Hy1 _].
      set (fx := Z.max (magnitude x - 53) (-1074)) in *.
      set (fy := Z.max (magnitude y - 53) (-1074)) in *.
      apply (Qle_trans _ (pow2 (magnitude y - 1))).
      * apply (Qle_trans _ (inject_Z (2 ^ (magnitude y - 1 - fx)) * pow2 fx)).
        -- apply grid_le.
           apply (Qle_trans _ (pow2 (magnitude y - 1))).
           ++ apply (Qle_trans _ (pow2 (magnitude x))).
              ** now apply Qlt_le_weak.
              ** apply pow2_le. lia.
           ++ apply Qeq_le. apply pow2_on_grid. lia.
        -- apply Qeq_le. symmetry. apply pow2_on_grid. lia.
      * apply (Qle_trans _ (inject_Z (2 ^ (magnitude y - 1 - fy)) * pow2 fy)).
        -- apply Qeq_le. apply pow2_on_grid. lia.
        -- apply grid_ge.
           apply (Qle_trans _ (pow2 (magnitude y - 1))).
           ++ apply Qeq_le. symmetry. apply pow2_on_grid. lia.
           ++ exact Hy1.
  - rewrite (binary64_zero x) by now symmetry.
    apply binary64_nonneg. apply (Qle_trans _ x); [|assumption].
    apply Qeq_le. assumption.
Qed.

Lemma binary64_exact :
  (binary64 0 == 0)%Q /\ (binary64 1 == 1)%Q /\ (binary64 100 == 100)%Q.
Proof. repeat split; vm_compute; reflexivity. Qed.

(** On the sample quotients the rounding is the one the float
    specification of the standard library computes. *)
Lemma binary64_agrees_with_spec_float :
  forallb (fun x => Qeq_bool (binary64 x) (spec_float_round x)) sample_quotients = true.
Proof. vm_compute. reflexivity. Qed.

(** Floats that are exact *)

Lemma rhe_comp x y : (x == y)%Q -> round_half_even x = round_half_even y.
Proof.
  intros H. unfold round_half_even. cbv zeta.
  rewrite (Qfloor_comp _ _ H).
  assert (E : (x - inject_Z (Qfloor y) ?= 1 # 2)%Q = (y - inject_Z (Qfloor y) ?= 1 # 2)%Q)
    by now rewrite H.
  now rewrite E.
Qed.

Lemma magnitude_unique x m :
  (0 < x)%Q -> (pow2 (m - 1) <= x)%Q -> (x < pow2 m)%Q -> magnitude x = m.
Proof.
  intros Hx H1 H2. destruct (magnitude_spec x Hx) as [G1 G2].
  assert (m - 1 < magnitude x).
  { apply pow2_lt_inv. eapply Qle_lt_trans; eauto. }
  assert (magnitude x - 1 < m).
  { apply pow2_lt_inv. eapply Qle_lt_trans; eauto. }
  lia.
Qed.

Lemma magnitude_comp x y : (0 < x)%Q -> (x == y)%Q -> magnitude x = magnitude y.
Proof.
  intros Hx E. assert (Hy : (0 < y)%Q) by now rewrite <- E.
  destruct (magnitude_spec y Hy) as [G1 G2].
  apply magnitude_unique; [assumption | now rewrite E | now rewrite E].
Qed.

Lemma on_grid_comp f x y : (x == y)%Q -> on_grid f x = on_grid f y.
Proof.
  intros E. unfold on_grid. f_equal. f_equal. apply rhe_comp. now rewrite E.
Qed.

Lemma binary64_comp x y : (x == y)%Q -> binary64 x = binary64 y.
Proof.
  intros E. unfold binary64.
  assert (C : (x ?= 0)%Q = (y ?= 0)%Q) by now rewrite E.
  rewrite <- C. destruct (x ?= 0)%Q eqn:Cx; [reflexivity | |].
  - apply Qlt_alt in Cx.
    assert (Hx : (0 < - x)%Q) by lra.
    assert (E' : (- x == - y)%Q) by now rewrite E.
    rewrite (magnitude_comp _ _ Hx E'). f_equal. now apply on_grid_comp.
  - apply Qgt_alt in Cx.
    rewrite (magnitude_comp _ _ Cx E). now apply on_grid_comp.
Qed.

(** A positive number with a significand below [2^53] and an exponent
    not below -1074 is a float: rounding leaves it alone. *)
Lemma binary64_float m e :
  0 < m < 2 ^ 53 -> -1074 <= e ->
  (binary64 (inject_Z m * pow2 e) == inject_Z m * pow2 e)%Q.
Proof.
  intros Hm He. set (x := (inject_Z m * pow2 e)%Q).
  assert (Hx : (0 < x)%Q).
  { apply Qmult_lt_0_compat; [|apply pow2_pos].
    change 0%Q with (inject_Z 0). rewrite <- Zlt_Qlt. lia. }
  rewrite (binary64_pos x Hx).
  destruct (magnitude_spec x Hx) as [G1 G2].
  assert (Hmag : magnitude x - 1 < 53 + e).
  { apply pow2_lt_inv. eapply Qle_lt_trans; [exact G1|].
    rewrite pow2_add. unfold x. apply Qmult_lt_compat_r; [apply pow2_pos|].
    rewrite pow2_int by lia. rewrite <- Zlt_Qlt. lia. }
  set (f := fexp64 (magnitude x)).
  assert (Hf : f <= e) by (unfold f, fexp64; lia).
  assert (Ex : (x == inject_Z (m * 2 ^ (e - f)) * pow2 f)%Q).
  { unfold x. rewrite (pow2_on_grid e f Hf). rewrite inject_Z_mult. ring. }
  apply Qle_antisym.
  - rewrite Ex at 2. apply grid_le. now apply Qeq_le.
  - rewrite Ex at 1. apply grid_ge. apply Qeq_le. now symmetry.
Qed.

(** The float range *)

Lemma overflow_threshold_limit : overflow_threshold = inject_Z float_limit.
Proof. reflexivity. Qed.

Lemma fl_in_range q :
  (Qabs q < inject_Z float_limit)%Q -> fl q = Ok (binary64 q).
Proof.
  intros H. unfold fl. rewrite overflow_threshold_limit.
  destruct (Qle_bool _ _) eqn:E; [|reflexivity].
  apply Qle_bool_iff in E. exfalso. exact (Qle_not_lt _ _ E H).
Qed.

Lemma fl_out_of_range q :
  (inject_Z float_limit <= Qabs q)%Q -> fl q = Raise OverflowError.
Proof.
  intros H. unfold fl. rewrite overflow_threshold_limit.
  apply Qle_bool_iff in H. now rewrite H.
Qed.

Lemma binary64_pow2 j : -1074 <= j -> (binary64 (pow2 j) == pow2 j)%Q.
Proof.
  intros H. rewrite (binary64_comp (pow2 j) (inject_Z 1 * pow2 j)) by ring.
  rewrite binary64_float by (assumption || (split; reflexivity)). ring.
Qed.

Lemma pow2_below_limit j : j <= 1023 -> (pow2 j < inject_Z float_limit)%Q.
Proof.
  intros H. apply (Qle_lt_trans _ (pow2 1023)); [now apply pow2_le|].
  rewrite pow2_int by lia. rewrite <- Zlt_Qlt. reflexivity.
Qed.


(** ** The two monitor loops *)

Lemma binary64_0 : (binary64 0 == 0)%Q.
Proof. apply binary64_exact. Qed.



Lemma fl_ok x y : fl x = Ok y -> y = binary64 x.
Proof. unfold fl. destruct (Qle_bool _ _); congruence. Qed.

Lemma int_of_float_floor x : (0 <= x)%Q -> int_of_float x = Qfloor x.
Proof.
  intros H. unfold int_of_float. apply Qle_bool_iff in H. now rewrite H.
Qed.

Lemma int_of_float_mono x y :
  (0 <= x)%Q -> (x <= y)%Q -> int_of_float x <= int_of_float y.
Proof.
  intros Hx Hxy. rewrite !int_of_float_floor; [now apply Qfloor_resp_le | | assumption].
  now apply (Qle_trans _ x).
Qed.


Lemma scaled_mono r1 r2 s1 s2 :
  (0 <= r1)%Q -> (r1 <= r2)%Q ->
  fl (r1 * 100) = Ok s1 -> fl (r2 * 100) = Ok s2 ->
  Z.min (int_of_float s1) 100 <= Z.min (int_of_float s2) 100.
Proof.
  intros H0 H12 E1 E2. apply fl_ok in E1, E2. subst s1 s2.
  apply Z.min_le_compat_r. apply int_of_float_mono.
  - apply binary64_nonneg. apply Qmult_le_0_compat; [assumption | discriminate].
  - apply binary64_mono; [apply Qmult_le_0_compat; [assumption | discriminate]|].
    apply Qmult_le_compat_r; [assumption | discriminate].
Qed.


Lemma Qdiv_nonneg a b : (0 <= a)%Q -> (0 < b)%Q -> (0 <= a / b)%Q.
Proof.
  intros Ha Hb. apply Qle_shift_div_l; [assumption|]. now rewrite Qmult_0_l.
Qed.



Lemma positive_total total : 0 < total -> (0 < inject_Z total)%Q.
Proof. intros H. change 0%Q with (inject_Z 0). now rewrite <- Zlt_Qlt. Qed.

Lemma nonneg_counter c : 0 <= c -> (0 <= inject_Z c)%Q.
Proof. intros H. change 0%Q with (inject_Z 0). now rewrite <- Zle_Qle. Qed.


(** One frame line *)




(** One out_time_ms line *)








Lemma binary64_below_pow2 x j :
  -1074 <= j -> (0 <= x)%Q -> (x <= pow2 j)%Q -> (binary64 x <= pow2 j)%Q.
Proof.
  intros Hj H0 H. rewrite <- (binary64_pow2 j Hj). now apply binary64_mono.
Qed.

Lemma fl_below_pow2 x j :
  j <= 1023 -> (0 <= x)%Q -> (x <= pow2 j)%Q -> fl x = Ok (binary64 x).
Proof.
  intros Hj H0 H. apply fl_in_range. rewrite Qabs_pos by assumption.
  eapply Qle_lt_trans; [exact H|]. now apply pow2_below_limit.
Qed.

Lemma scaled_returns ratio :
  (0 <= ratio)%Q -> (ratio <= pow2 1001)%Q ->
  fl (ratio * 100) = Ok (binary64 (ratio * 100)).
Proof.
  intros H0 H. apply (fl_below_pow2 _ 1008); [lia | |].
  - apply Qmult_le_0_compat; [assumption | discriminate].
  - apply (Qle_trans _ (pow2 1001 * 100)).
    + apply Qmult_le_compat_r; [assumption | discriminate].
    + apply (Qle_trans _ (pow2 1001 * pow2 7)).
      * apply Qmult_le_l; [apply pow2_pos|]. discriminate.
      * rewrite <- pow2_add. apply Qle_refl.
Qed.

Lemma frame_step_returns total c :
  0 < total -> 0 <= c <= total * 2 ^ 1000 ->
  exists p, frame_step total c = Ok (Some p).
Proof.
  intros Ht [Hc0 Hc]. unfold frame_step, frame_percent.
  destruct (Z.ltb_spec 0 total); [|lia].
  pose proof (positive_total total Ht) as Ht'.
  assert (Hq0 : (0 <= inject_Z c / inject_Z total)%Q).
  { apply Qdiv_nonneg; [now apply nonneg_counter | assumption]. }
  assert (Hq : (inject_Z c / inject_Z total <= pow2 1000)%Q).
  { apply Qle_shift_div_r; [assumption|]. rewrite pow2_int by lia.
    rewrite <- inject_Z_mult, <- Zle_Qle. lia. }
  rewrite (fl_below_pow2 _ 1000) by (lia || assumption). cbn [rbind].
  rewrite scaled_returns.
  - cbn [rbind]. eauto.
  - now apply binary64_nonneg.
  - apply (Qle_trans _ (pow2 1000)); [|apply pow2_le; lia].
    apply binary64_below_pow2; (lia || assumption).
Qed.








(** ** format_duration *)

Lemma split_on_plain sep (s : string) :
  str_mem sep s = false -> split_on sep s = [s].
Proof.
  induction s as [|c s IH]; simpl; [reflexivity|].
  intros H. apply orb_false_iff in H. destruct H as [H1 H2].
  rewrite Ascii.eqb_sym, H1, (IH H2). reflexivity.
Qed.

Lemma split_on_app sep (s t : string) :
  str_mem sep s = false ->
  split_on sep (s ++ String sep EmptyString ++ t)%string = s :: split_on sep t.
Proof.
  change (String sep EmptyString ++ t)%string with (String sep t).
  induction s as [|c s IH]; intros H.
  - change (split_on sep (String sep t) = EmptyString :: split_on sep t).
    simpl. now rewrite Ascii.eqb_refl.
  - simpl in H. apply orb_false_iff in H. destruct H as [H1 H2].
    change (split_on sep (String c (s ++ String sep t)%string) = String c s :: split_on sep t).
    simpl. rewrite Ascii.eqb_sym, H1, (IH H2). reflexivity.
Qed.

Lemma digits_no_colon (d : Decimal.uint) :
  str_mem ":" (NilEmpty.string_of_uint d) = false.
Proof. induction d; simpl; now rewrite ?IHd. Qed.

Lemma str_of_N_no_colon (n : N) : str_mem ":" (str_of_N n) = false.
Proof. apply digits_no_colon. Qed.

Lemma int_of_str_of_N (n : N) : int_of_digits (str_of_N n) = Ok n.
Proof.
  unfold int_of_digits, str_of_N.
  rewrite NilEmpty.usu, DecimalN.Unsigned.of_to.
  pose proof (str_of_N_nonempty n) as Hne. unfold str_of_N in Hne.
  destruct (NilEmpty.string_of_uint (N.to_uint n)); [congruence | reflexivity].
Qed.

Lemma str_of_Z_nonneg (z : Z) : 0 <= z -> str_of_Z z = str_of_N (Z.to_N z).
Proof. destruct z; [reflexivity | reflexivity | lia]. Qed.

Lemma pad2_no_colon (z : Z) : 0 <= z -> str_mem ":" (pad2 z) = false.
Proof.
  intros H. unfold pad2. destruct (Z.ltb_spec z 0); [lia|].
  rewrite str_of_Z_nonneg by assumption.
  destruct (z <? 10); simpl; apply str_of_N_no_colon.
Qed.

Lemma int_of_pad2 (z : Z) : 0 <= z -> int_of_digits (pad2 z) = Ok (Z.to_N z).
Proof.
  intros H. unfold pad2. destruct (Z.ltb_spec z 0); [lia|].
  rewrite str_of_Z_nonneg by assumption.
  destruct (z <? 10); [|apply int_of_str_of_N].
  pose proof (int_of_str_of_N (Z.to_N z)) as E.
  unfold int_of_digits in *. simpl.
  destruct (str_of_N (Z.to_N z)) eqn:Es; [discriminate|].
  destruct (NilEmpty.uint_of_string (String a s)); [|discriminate].
  simpl. exact E.
Qed.

Lemma format_duration_fields (d : Z) :
  0 <= d ->
  split_on ":" (format_duration (Some d)) =
    if d <? 3600 then [str_of_Z (d / 60); pad2 (d mod 60)]
    else [str_of_Z (d / 3600); pad2 (d / 60 mod 60); pad2 (d mod 60)].
Proof.
  intros H. unfold format_duration.
  destruct (Z.eqb_spec d 0) as [->|Hd]; [reflexivity|].
  cbv zeta.
  assert (Hs : 0 <= d mod 60 < 60) by (apply Z.mod_pos_bound; lia).
  assert (Hm : 0 <= d / 60) by (apply Z.div_pos; lia).
  destruct (Z.leb_spec 60 (d / 60)) as [Hh|Hh].
  - assert (E : (d <? 3600) = false).
    { apply Z.ltb_ge. destruct (Z.le_gt_cases 3600 d) as [|Hlt]; [assumption|].
      assert (d / 60 < 60) by (apply Z.div_lt_upper_bound; lia). lia. }
    rewrite E. rewrite Z.div_div by lia. change (60 * 60) with 3600.
    assert (Hmm : 0 <= d / 60 mod 60 < 60) by (apply Z.mod_pos_bound; lia).
    assert (Hhh : 0 <= d / 3600) by (apply Z.div_pos; lia).
    rewrite split_on_app by (rewrite str_of_Z_nonneg by assumption; apply str_of_N_no_colon).
    rewrite split_on_app by (apply pad2_no_colon; lia).
    rewrite split_on_plain by (apply pad2_no_colon; lia). reflexivity.
  - assert (E : (d <? 3600) = true).
    { apply Z.ltb_lt. destruct (Z.lt_ge_cases d 3600) as [|Hge]; [assumption|].
      assert (60 <= d / 60) by (apply Z.div_le_lower_bound; lia). lia. }
    rewrite E.
    rewrite split_on_app by (rewrite str_of_Z_nonneg by assumption; apply str_of_N_no_colon).
    rewrite split_on_plain by (apply pad2_no_colon; lia). reflexivity.
Qed.

Lemma pad2_width (z : Z) : 0 <= z < 100 -> String.length (pad2 z) = 2%nat.
Proof.
  intros H.
  assert (E : forallb (fun k => Nat.eqb (String.length (pad2 (Z.of_nat k))) 2) (seq 0 100) = true)
    by (vm_compute; reflexivity).
  rewrite forallb_forall in E. specialize (E (Z.to_nat z)).
  rewrite Z2Nat.id in E by lia. apply Nat.eqb_eq, E, in_seq. lia.
Qed.

(** The clock text of a non-negative duration reads back as the
    duration: its fields, split at the colons and read in base 60, give
    the number of seconds.  There are two fields below one hour and three
    from one hour on, and every field after the first has two
    characters. *)
Theorem format_duration_round_trip (d : Z) :
  0 <= d ->
  clock_seconds (format_duration (Some d)) = Ok d /\
  List.length (split_on ":" (format_duration (Some d))) = (if d <? 3600 then 2%nat else 3%nat) /\
  Forall (fun field => String.length field = 2%nat)
         (tl (split_on ":" (format_duration (Some d)))).
Proof.
  intros H. unfold clock_seconds. rewrite (format_duration_fields d H).
  assert (Hs : 0 <= d mod 60 < 60) by (apply Z.mod_pos_bound; lia).
  assert (Hm : 0 <= d / 60) by (apply Z.div_pos; lia).
  assert (Hmm : 0 <= d / 60 mod 60 < 60) by (apply Z.mod_pos_bound; lia).
  assert (Hhh : 0 <= d / 3600) by (apply Z.div_pos; lia).
  destruct (d <? 3600).
  - split; [|split; [reflexivity|]].
    + cbn [mapM].
      rewrite str_of_Z_nonneg, int_of_str_of_N, int_of_pad2 by lia.
      cbn [rbind fold_left]. f_equal. rewrite !Z2N.id by lia.
      pose proof (Z.div_mod d 60). lia.
    + cbn [tl]. repeat constructor. apply pad2_width. lia.
  - split; [|split; [reflexivity|]].
    + cbn [mapM].
      rewrite str_of_Z_nonneg, int_of_str_of_N, !int_of_pad2 by lia.
      cbn [rbind fold_left]. f_equal. rewrite !Z2N.id by lia.
      pose proof (Z.div_mod d 60). pose proof (Z.div_mod (d / 60) 60).
      assert (d / 60 / 60 = d / 3600) by (rewrite Z.div_div by lia; reflexivity).
      lia.
    + cbn [tl]. repeat constructor; apply pad2_width; lia.
Qed.

Lemma format_duration_round_trip_witness :
  0 <= 3725 /\ format_duration (Some 3725) = "1:02:05" /\
  clock_seconds "1:02:05" = Ok 3725.
Proof.
  split; [lia|]. split; [reflexivity|].
  exact (proj1 (format_duration_round_trip 3725 ltac:(lia))).
Defined.

(** ** format_filesize *)

Lemma Qle_bool_comp a b c d :
  (a == b)%Q -> (c == d)%Q -> Qle_bool a c = Qle_bool b d.
Proof.
  intros E1 E2. destruct (Qle_bool b d) eqn:E.
  - apply Qle_bool_iff. apply Qle_bool_iff in E. now rewrite E1, E2.
  - destruct (Qle_bool a c) eqn:E'; [|reflexivity].
    apply Qle_bool_iff in E'. rewrite E1, E2 in E'. apply Qle_bool_iff in E'. congruence.
Qed.

Lemma fixed2_comp x y : (x == y)%Q -> fixed2 x = fixed2 y.
Proof.
  intros E. unfold fixed2. cbv zeta.
  rewrite (rhe_comp (x * 100) (y * 100)) by now rewrite E.
  rewrite (Qle_bool_comp 0 0 x y) by (reflexivity || assumption). reflexivity.
Qed.

Lemma exact_filesize_from_comp us : forall x y,
  (x == y)%Q -> exact_filesize_from us x = exact_filesize_from us y.
Proof.
  induction us as [|u us IH]; intros x y E; simpl.
  - now rewrite (fixed2_comp x y E).
  - rewrite (Qle_bool_comp 1024 1024 x y) by (reflexivity || assumption).
    rewrite (fixed2_comp x y E).
    rewrite (IH (x / 1024)%Q (y / 1024)%Q) by now rewrite E. reflexivity.
Qed.

Lemma below_overflow q :
  (0 <= q)%Q -> (q <= inject_Z (2 ^ 53))%Q -> fl q = Ok (binary64 q).
Proof.
  intros H0 H1. unfold fl.
  destruct (Qle_bool overflow_threshold (Qabs q)) eqn:E; [|reflexivity].
  apply Qle_bool_iff in E. rewrite Qabs_pos in E by assumption.
  exfalso. apply (Qle_not_lt _ _ (Qle_trans _ _ _ E H1)).
  unfold overflow_threshold. rewrite <- Zlt_Qlt. reflexivity.
Qed.

Lemma pow2_shift k : (pow2 (- 10 * (k + 1)) == pow2 (- 10 * k) / 1024)%Q.
Proof.
  replace (- 10 * (k + 1)) with (- 10 * k + - 10) by ring.
  rewrite pow2_add. unfold Qdiv. apply Qmult_comp; [reflexivity|].
  vm_compute. reflexivity.
Qed.

(** The loop from a float [m / 1024^k] with [m] below [2^53]: every
    division is exact. *)
Lemma format_filesize_from_exact us : forall b m k,
  0 < m < 2 ^ 53 -> 0 <= k -> k + Z.of_nat (List.length us) <= 100 ->
  (number_value b == inject_Z m * pow2 (- 10 * k))%Q ->
  (exists x, to_float b = Ok x /\ (x == number_value b)%Q) ->
  format_filesize_from us b = Ok (exact_filesize_from us (inject_Z m * pow2 (- 10 * k))).
Proof.
  induction us as [|u us IH]; intros b m k Hm Hk Hlen Hv (x & Hx & Ex).
  - simpl. unfold format_2f. rewrite Hx. simpl.
    rewrite (fixed2_comp x (inject_Z m * pow2 (- 10 * k))) by now rewrite Ex.
    reflexivity.
  - cbn [format_filesize_from exact_filesize_from]. unfold below_1024.
    rewrite (Qle_bool_comp 1024 1024 _ _ (Qeq_refl _) Hv).
    destruct (Qle_bool 1024 (inject_Z m * pow2 (- 10 * k))) eqn:E; cbn [negb].
    + unfold div_1024.
      assert (Hq : (number_value b / 1024 == inject_Z m * pow2 (- 10 * (k + 1)))%Q).
      { rewrite Hv, pow2_shift. unfold Qdiv. ring. }
      assert (Hpos : (0 < inject_Z m * pow2 (- 10 * (k + 1)))%Q).
      { apply Qmult_lt_0_compat; [|apply pow2_pos].
        change 0%Q with (inject_Z 0). rewrite <- Zlt_Qlt. lia. }
      assert (Hsmall : (inject_Z m * pow2 (- 10 * (k + 1)) <= inject_Z (2 ^ 53))%Q).
      { apply (Qle_trans _ (inject_Z m * 1)).
        - apply Qmult_le_l; [change 0%Q with (inject_Z 0); rewrite <- Zlt_Qlt; lia|].
          change 1%Q with (pow2 0). apply pow2_le. lia.
        - rewrite Qmult_1_r. rewrite <- Zle_Qle. lia. }
      rewrite below_overflow by (rewrite Hq; solve [now apply Qlt_le_weak | assumption]).
      cbn [rbind].
      rewrite (binary64_comp _ _ Hq).
      rewrite (IH _ m (k + 1)); try assumption; try lia.
      * f_equal. apply exact_filesize_from_comp. rewrite pow2_shift. unfold Qdiv. ring.
      * cbn [List.length] in Hlen. lia.
      * cbn [number_value]. apply binary64_float; [assumption | ].
        cbn [List.length] in Hlen. lia.
      * exists (binary64 (inject_Z m * pow2 (- 10 * (k + 1)))). split; reflexivity.
    + unfold format_2f. rewrite Hx. cbn [rbind].
      rewrite (fixed2_comp x (inject_Z m * pow2 (- 10 * k))) by now rewrite Ex.
      reflexivity.
Qed.

Lemma format_filesize_is_exact (bytes : Z) :
  0 <= bytes < 2 ^ 53 -> format_filesize bytes = Ok (exact_filesize bytes).
Proof.
  intros H. destruct (Z.eq_dec bytes 0) as [->|Hne]; [reflexivity|].
  unfold format_filesize, exact_filesize.
  rewrite (format_filesize_from_exact _ (Int bytes) bytes 0); try lia.
  - f_equal. apply exact_filesize_from_comp. change (pow2 (-10 * 0)) with 1%Q. ring.
  - cbn [List.length]. lia.
  - cbn [number_value]. change (pow2 (-10 * 0)) with 1%Q. ring.
  - cbn [to_float number_value]. exists (binary64 (inject_Z bytes)). split.
    + apply below_overflow; [change 0%Q with (inject_Z 0)|]; rewrite <- Zle_Qle; lia.
    + rewrite (binary64_comp _ (inject_Z bytes * pow2 0)).
      * rewrite binary64_float by lia. change (pow2 0) with 1%Q. ring.
      * change (pow2 0) with 1%Q. ring.
Qed.

Lemma exact_filesize_closed (bytes : Z) :
  exact_filesize bytes =
    (fixed2 (inject_Z bytes / inject_Z (1024 ^ Z.of_nat (unit_index bytes)))
     ++ " " ++ unit_of bytes)%string.
Proof.
  unfold exact_filesize, unit_of, unit_index. cbn [exact_filesize_from].
  assert (T : forall c q, (inject_Z bytes / inject_Z c == q)%Q -> 0 < c ->
              Qle_bool 1024 q = (1024 * c <=? bytes)).
  { intros c q Eq Hc. rewrite <- (Qle_bool_comp 1024 1024 _ _ (Qeq_refl _) Eq).
    assert (Hc' : (0 < inject_Z c)%Q) by (change 0%Q with (inject_Z 0); now rewrite <- Zlt_Qlt).
    destruct (Z.leb_spec (1024 * c) bytes) as [H|H].
    - apply Qle_bool_iff. apply Qle_shift_div_l; [assumption|].
      change 1024%Q with (inject_Z 1024). rewrite <- inject_Z_mult, <- Zle_Qle. lia.
    - destruct (Qle_bool _ _) eqn:E; [|reflexivity]. apply Qle_bool_iff in E.
      apply (Qmult_le_r _ _ (inject_Z c)) in E; [|assumption].
      unfold Qdiv in E. rewrite <- Qmult_assoc, (Qmult_comm (/ _)), Qmult_inv_r, Qmult_1_r in E.
      + change 1024%Q with (inject_Z 1024) in E.
        rewrite <- inject_Z_mult, <- Zle_Qle in E. lia.
      + intros E0. rewrite E0 in Hc'. discriminate. }
  rewrite (T 1 (inject_Z bytes)) by (try lia; unfold Qdiv; field).
  rewrite (T 1024 (inject_Z bytes / 1024)%Q) by (try lia; reflexivity).
  rewrite (T (1024 ^ 2) (inject_Z bytes / 1024 / 1024)%Q)
    by (try lia; change (inject_Z (1024 ^ 2)) with (1024 * 1024)%Q; field).
  rewrite (T (1024 ^ 3) (inject_Z bytes / 1024 / 1024 / 1024)%Q)
    by (try lia; change (inject_Z (1024 ^ 3)) with (1024 * 1024 * 1024)%Q; field).
  change (1024 * 1) with 1024. change (1024 * 1024) with (1024 ^ 2).
  change (1024 * 1024 ^ 2) with (1024 ^ 3). change (1024 * 1024 ^ 3) with (1024 ^ 4).
  destruct (Z.leb_spec 1024 bytes) as [G1|G1];
    [|destruct (Z.ltb_spec bytes 1024); [|lia]; cbn [negb nth unit_names];
      f_equal; apply fixed2_comp; change (inject_Z (1024 ^ Z.of_nat 0)) with 1%Q; field].
  destruct (Z.ltb_spec bytes 1024); [lia|]. cbn [negb].
  destruct (Z.leb_spec (1024 ^ 2) bytes) as [G2|G2];
    [|destruct (Z.ltb_spec bytes (1024 ^ 2)); [|lia]; cbn [negb nth unit_names];
      f_equal; apply fixed2_comp; reflexivity].
  destruct (Z.ltb_spec bytes (1024 ^ 2)); [lia|]. cbn [negb].
  destruct (Z.leb_spec (1024 ^ 3) bytes) as [G3|G3];
    [|destruct (Z.ltb_spec bytes (1024 ^ 3)); [|lia]; cbn [negb nth unit_names];
      f_equal; apply fixed2_comp;
      change (inject_Z (1024 ^ Z.of_nat 2)) with (1024 * 1024)%Q; field].
  destruct (Z.ltb_spec bytes (1024 ^ 3)); [lia|]. cbn [negb].
  destruct (Z.leb_spec (1024 ^ 4) bytes) as [G4|G4];
    [|destruct (Z.ltb_spec bytes (1024 ^ 4)); [|lia]; cbn [negb nth unit_names];
      f_equal; apply fixed2_comp;
      change (inject_Z (1024 ^ Z.of_nat 3)) with (1024 * 1024 * 1024)%Q; field].
  destruct (Z.ltb_spec bytes (1024 ^ 4)); [lia|]. cbn [negb nth unit_names].
  f_equal; apply fixed2_comp;
    change (inject_Z (1024 ^ Z.of_nat 4)) with (1024 * 1024 * 1024 * 1024)%Q; field.
Qed.

(** A float of at least [1024^n], with [n] units left, ends in TB. *)
Lemma format_filesize_from_large us : forall x,
  (pow2 (10 * Z.of_nat (List.length us)) <= x)%Q -> (x <= pow2 1024)%Q ->
  exists x', format_filesize_from us (Float x) = Ok (fixed2 x' ++ " TB")%string.
Proof.
  induction us as [|u us IH]; intros x Hlo Hhi.
  - exists x. reflexivity.
  - cbn [format_filesize_from]. unfold below_1024. cbn [number_value].
    assert (Hpos : (0 < x)%Q) by (eapply Qlt_le_trans; [apply pow2_pos | exact Hlo]).
    assert (H10 : (pow2 10 <= x)%Q).
    { eapply Qle_trans; [|exact Hlo]. apply pow2_le. cbn [List.length]. lia. }
    assert (E : Qle_bool 1024 x = true).
    { apply Qle_bool_iff. rewrite pow2_int in H10 by lia. exact H10. }
    rewrite E. cbn [negb]. unfold div_1024. cbn [number_value].
    assert (Hlo' : (pow2 (10 * Z.of_nat (List.length us)) <= x / 1024)%Q).
    { apply Qle_shift_div_l; [reflexivity|].
      change 1024%Q with (pow2 10). rewrite <- pow2_add.
      eapply Qle_trans; [|exact Hlo]. apply pow2_le. cbn [List.length]. lia. }
    assert (Hhi' : (x / 1024 <= pow2 1014)%Q).
    { apply Qle_shift_div_r; [reflexivity|].
      change 1024%Q with (pow2 10). rewrite <- pow2_add. exact Hhi. }
    assert (Hq : (0 <= x / 1024)%Q).
    { eapply Qle_trans; [|exact Hlo']. apply Qlt_le_weak, pow2_pos. }
    rewrite fl_in_range.
    2:{ rewrite Qabs_pos by assumption.
        eapply Qle_lt_trans; [exact Hhi'|]. apply pow2_below_limit. lia. }
    cbn [rbind]. apply IH.
    + rewrite <- binary64_pow2 by lia. apply binary64_mono; [|assumption].
      apply Qlt_le_weak, pow2_pos.
    + apply (Qle_trans _ (pow2 1014)); [|apply pow2_le; lia].
      rewrite <- (binary64_pow2 1014) by lia. now apply binary64_mono.
Qed.

Lemma format_filesize_from_cons u us b :
  format_filesize_from (u :: us) b =
    if below_1024 b then text <-- format_2f b ;; Ok (text ++ " " ++ u)%string
    else b' <-- div_1024 b ;; format_filesize_from us b'.
Proof. reflexivity. Qed.

Lemma format_filesize_cases (bytes : Z) :
  (bytes <= - float_limit \/ 1024 * float_limit <= bytes) /\
    format_filesize bytes = Raise OverflowError
  \/
  (- float_limit < bytes < 1024 * float_limit) /\
    exists x, format_filesize bytes = Ok (fixed2 x ++ " " ++ unit_of bytes)%string.
Proof.
  assert (HT : 2 ^ 53 < float_limit) by reflexivity.
  destruct (Z.lt_ge_cases bytes 0) as [Hneg|Hnn].
  - (* negative: shown in bytes *)
    assert (Hu : unit_of bytes = "B").
    { unfold unit_of, unit_index. destruct (Z.ltb_spec bytes 1024); [reflexivity | lia]. }
    assert (Hb : below_1024 (Int bytes) = true).
    { unfold below_1024. cbn [number_value]. destruct (Qle_bool _ _) eqn:E; [|reflexivity].
      apply Qle_bool_iff in E. change 1024%Q with (inject_Z 1024) in E.
      rewrite <- Zle_Qle in E. lia. }
    assert (Habs : Qabs (inject_Z bytes) = inject_Z (- bytes)).
    { change (Qabs (inject_Z bytes)) with (inject_Z (Z.abs bytes)). f_equal. lia. }
    unfold format_filesize. cbn [format_filesize_from]. rewrite Hb.
    unfold format_2f. cbn [to_float].
    destruct (Z.le_gt_cases bytes (- float_limit)) as [Hout|Hin].
    + left. split; [now left|]. rewrite fl_out_of_range; [reflexivity|].
      rewrite Habs, <- Zle_Qle. lia.
    + right. split; [lia|]. rewrite fl_in_range.
      * cbn [rbind]. rewrite Hu. eauto.
      * rewrite Habs, <- Zlt_Qlt. lia.
  - destruct (Z.lt_ge_cases bytes (2 ^ 53)) as [Hsmall|Hbig].
    + right. split; [lia|].
      rewrite format_filesize_is_exact by lia. rewrite exact_filesize_closed. eauto.
    + assert (Hu : unit_of bytes = "TB").
      { unfold unit_of, unit_index.
        destruct (Z.ltb_spec bytes 1024); [lia|].
        destruct (Z.ltb_spec bytes (1024 ^ 2)); [lia|].
        destruct (Z.ltb_spec bytes (1024 ^ 3)); [lia|].
        destruct (Z.ltb_spec bytes (1024 ^ 4)); [lia|]. reflexivity. }
      assert (Hb : below_1024 (Int bytes) = false).
      { unfold below_1024. cbn [number_value].
        assert (E : Qle_bool 1024 (inject_Z bytes) = true); [|now rewrite E].
        apply Qle_bool_iff. change 1024%Q with (inject_Z 1024).
        rewrite <- Zle_Qle. lia. }
      assert (Hq : (0 <= inject_Z bytes / 1024)%Q).
      { apply Qle_shift_div_l; [reflexivity|]. rewrite Qmult_0_l.
        change 0%Q with (inject_Z 0). rewrite <- Zle_Qle. lia. }
      unfold format_filesize. rewrite format_filesize_from_cons, Hb.
      unfold div_1024. cbn [number_value].
      destruct (Z.le_gt_cases (1024 * float_limit) bytes) as [Hout|Hin].
      * left. split; [now right|]. rewrite fl_out_of_range; [reflexivity|].
        rewrite Qabs_pos by assumption.
        apply Qle_shift_div_l; [reflexivity|].
        change 1024%Q with (inject_Z 1024).
        rewrite <- inject_Z_mult, <- Zle_Qle. lia.
      * right. split; [lia|].
        assert (Hlt : (inject_Z bytes / 1024 < inject_Z float_limit)%Q).
        { apply Qlt_shift_div_r; [reflexivity|].
          change 1024%Q with (inject_Z 1024).
          rewrite <- inject_Z_mult, <- Zlt_Qlt. lia. }
        rewrite fl_in_range by now rewrite Qabs_pos.
        cbn [rbind]. rewrite Hu.
        destruct (format_filesize_from_large ["KB"; "MB"; "GB"]
                    (binary64 (inject_Z bytes / 1024))) as [x' Hx'];
          [| |exists x'; exact Hx'].
        -- rewrite <- binary64_pow2 by (cbn; lia). apply binary64_mono.
           ++ apply Qlt_le_weak, pow2_pos.
           ++ apply Qle_shift_div_l; [reflexivity|].
              change 1024%Q with (pow2 10). rewrite <- pow2_add.
              rewrite pow2_int by (cbn; lia). rewrite <- Zle_Qle.
              cbn [List.length]. change (2 ^ (10 * Z.of_nat 3 + 10)) with (2 ^ 40).
              assert (2 ^ 40 < 2 ^ 53) by reflexivity. lia.
        -- rewrite <- (binary64_pow2 1024) by lia. apply binary64_mono; [assumption|].
           apply Qlt_le_weak. eapply Qlt_le_trans; [exact Hlt|].
           rewrite pow2_int by lia. rewrite <- Zle_Qle. unfold float_limit.
           assert (0 < 2 ^ 970) by reflexivity. lia.
Qed.

Lemma rhe_102400 q :
  (204799 # 2 <= q)%Q -> (q <= 102400)%Q -> round_half_even q = 102400.
Proof.
  intros H1 H2. apply rhe_mono in H1. apply rhe_mono in H2.
  change (round_half_even (204799 # 2)) with 102400 in H1.
  change (round_half_even 102400) with 102400 in H2. lia.
Qed.

Lemma fixed2_1024 x :
  (0 <= x)%Q -> round_half_even (x * 100) = 102400 -> fixed2 x = "1024.00".
Proof.
  intros H0 H. unfold fixed2. cbv zeta. rewrite H.
  apply Qle_bool_iff in H0. rewrite H0. reflexivity.
Qed.

(** Below [2^53] bytes the divisions by 1024 are exact: the text is the
    byte count divided by [1024^k], rounded to two decimals (ties to
    even), followed by the [k]-th unit, where [k] is the number of times
    the count can be divided by 1024 before it drops below 1024, at most
    four. *)
Theorem format_filesize_exact (bytes : Z) :
  0 <= bytes < 2 ^ 53 ->
  format_filesize bytes =
    Ok (fixed2 (inject_Z bytes / inject_Z (1024 ^ Z.of_nat (unit_index bytes)))
        ++ " " ++ unit_of bytes)%string.
Proof.
  intros H. rewrite format_filesize_is_exact by assumption.
  now rewrite exact_filesize_closed.
Qed.

Lemma format_filesize_exact_witness :
  0 <= 123456789 < 2 ^ 53 /\ format_filesize 123456789 = Ok "117.74 MB".
Proof.
  assert (H : 0 <= 123456789 < 2 ^ 53) by (split; [discriminate | reflexivity]).
  split; [exact H|].
  rewrite (format_filesize_exact 123456789 H). vm_compute. reflexivity.
Defined.

(** Whatever the byte count, a text that [format_filesize] returns ends
    with the unit fixed by the thresholds: B below 1024 (negative counts
    included), KB below [1024^2], MB below [1024^3], GB below [1024^4]
    and TB from there on. *)
Theorem format_filesize_unit (bytes : Z) (text : string) :
  format_filesize bytes = Ok text ->
  exists x, text = (fixed2 x ++ " " ++ unit_of bytes)%string.
Proof.
  intros H. destruct (format_filesize_cases bytes) as [[_ E]|[_ [x E]]].
  - congruence.
  - exists x. congruence.
Qed.

Lemma format_filesize_unit_witness :
  format_filesize (2 ^ 60 + 12345) = Ok "1048576.00 TB" /\
  exists x, "1048576.00 TB" = (fixed2 x ++ " " ++ unit_of (2 ^ 60 + 12345))%string.
Proof.
  assert (E : format_filesize (2 ^ 60 + 12345) = Ok "1048576.00 TB")
    by (vm_compute; reflexivity).
  split; [exact E|]. exact (format_filesize_unit _ _ E).
Defined.

(** [format_filesize] raises only for counts beyond the float range: it
    returns a text for every count above [- float_limit] and below
    [1024 * float_limit], and raises [OverflowError] for the others. *)
Theorem format_filesize_overflow (bytes : Z) :
  (- float_limit < bytes < 1024 * float_limit ->
   exists text, format_filesize bytes = Ok text) /\
  (bytes <= - float_limit \/ 1024 * float_limit <= bytes ->
   format_filesize bytes = Raise OverflowError).
Proof.
  destruct (format_filesize_cases bytes) as [[H E]|[H [x E]]]; split; intros G.
  - lia.
  - exact E.
  - eauto.
  - lia.
Qed.

(** A count just below the next unit is shown as 1024.00 of the lower
    unit: in KB, MB and GB, every count within half a hundredth of a unit
    below 1024 units reads 1024.00. *)
Theorem format_filesize_shows_1024 (bytes : Z) (k : nat) :
  (1 <= k <= 3)%nat ->
  bytes < 1024 ^ (Z.of_nat k + 1) ->
  200 * (1024 ^ (Z.of_nat k + 1) - bytes) <= 1024 ^ Z.of_nat k ->
  format_filesize bytes = Ok ("1024.00 " ++ nth k unit_names "")%string.
Proof.
  intros Hk Hlt Hnear.
  assert (Hk' : k = 1%nat \/ k = 2%nat \/ k = 3%nat) by lia.
  assert (P : forall c : Z, 0 < c -> 1024 * c - bytes > 0 -> 200 * (1024 * c - bytes) <= c ->
              fixed2 (inject_Z bytes / inject_Z c) = "1024.00").
  { intros c Hc H1 H2.
    assert (Hc' : (0 < inject_Z c)%Q) by (change 0%Q with (inject_Z 0); now rewrite <- Zlt_Qlt).
    apply fixed2_1024.
    - apply Qle_shift_div_l; [assumption|]. rewrite Qmult_0_l.
      change 0%Q with (inject_Z 0). rewrite <- Zle_Qle. lia.
    - apply rhe_102400.
      + unfold Qdiv. rewrite <- Qmult_assoc, (Qmult_comm (/ _)), Qmult_assoc.
        apply Qle_shift_div_l; [assumption|].
        change ((204799 # 2) * inject_Z c <= inject_Z bytes * 100)%Q.
        unfold Qle, Qmult, inject_Z. cbn [Qnum Qden]. lia.
      + unfold Qdiv. rewrite <- Qmult_assoc, (Qmult_comm (/ _)), Qmult_assoc.
        apply Qle_shift_div_r; [assumption|].
        unfold Qle, Qmult, inject_Z. cbn [Qnum Qden]. lia. }
  assert (H53 : 1024 ^ 4 < 2 ^ 53) by reflexivity.
  destruct Hk' as [-> | [-> | ->]].
  - change (1024 ^ (Z.of_nat 1 + 1)) with (1024 * 1024) in *.
    change (1024 ^ Z.of_nat 1) with 1024 in *.
    rewrite format_filesize_is_exact, exact_filesize_closed by lia.
    assert (Hu : unit_index bytes = 1%nat).
    { unfold unit_index. destruct (Z.ltb_spec bytes 1024); [lia|].
      destruct (Z.ltb_spec bytes (1024 ^ 2)); [reflexivity | lia]. }
    unfold unit_of. rewrite Hu. change (1024 ^ Z.of_nat 1) with 1024.
    rewrite P by lia. reflexivity.
  - change (1024 ^ (Z.of_nat 2 + 1)) with (1024 * 1048576) in *.
    change (1024 ^ Z.of_nat 2) with 1048576 in *.
    rewrite format_filesize_is_exact, exact_filesize_closed by lia.
    assert (Hu : unit_index bytes = 2%nat).
    { unfold unit_index. destruct (Z.ltb_spec bytes 1024); [lia|].
      destruct (Z.ltb_spec bytes (1024 ^ 2)); [lia|].
      destruct (Z.ltb_spec bytes (1024 ^ 3)); [reflexivity | lia]. }
    unfold unit_of. rewrite Hu. change (1024 ^ Z.of_nat 2) with 1048576.
    rewrite P by lia. reflexivity.
  - change (1024 ^ (Z.of_nat 3 + 1)) with (1024 * 1073741824) in *.
    change (1024 ^ Z.of_nat 3) with 1073741824 in *.
    rewrite format_filesize_is_exact, exact_filesize_closed by lia.
    assert (Hu : unit_index bytes = 3%nat).
    { unfold unit_index. destruct (Z.ltb_spec bytes 1024); [lia|].
      destruct (Z.ltb_spec bytes (1024 ^ 2)); [lia|].
      destruct (Z.ltb_spec bytes (1024 ^ 3)); [lia|].
      destruct (Z.ltb_spec bytes (1024 ^ 4)); [reflexivity | lia]. }
    unfold unit_of. rewrite Hu. change (1024 ^ Z.of_nat 3) with 1073741824.
    rewrite P by lia. reflexivity.
Qed.

Lemma format_filesize_overflow_witness :
  (- float_limit < 50 * MB < 1024 * float_limit) /\
  format_filesize (50 * MB) = Ok "50.00 MB" /\
  format_filesize (1024 * float_limit) = Raise OverflowError.
Proof.
  assert (H : - float_limit < 50 * MB < 1024 * float_limit) by (split; reflexivity).
  split; [exact H|]. split; [vm_compute; reflexivity|].
  exact (proj2 (format_filesize_overflow (1024 * float_limit))
           (or_intror (Z.le_refl _))).
Defined.

Lemma format_filesize_shows_1024_witness :
  (1 <= 1 <= 3)%nat /\ 1048575 < 1024 ^ (Z.of_nat 1 + 1) /\
  format_filesize 1048575 = Ok "1024.00 KB".
Proof.
  split; [lia|]. split; [reflexivity|].
  exact (format_filesize_shows_1024 1048575 1 ltac:(lia) eq_refl ltac:(discriminate)).
Defined.

(** ** The prompt: which line is taken *)

Lemma choose_format_skips n (lines rest : list user_input) : forall st,
  forallb (rejected n) lines = true ->
  choose_format n (lines ++ rest) st =
    choose_format n rest (mkState (files st) (console st ++ flat_map rejection lines)).
Proof.
  induction lines as [|i lines IH]; intros st H.
  - simpl. rewrite app_nil_r. now destruct st.
  - simpl in H. apply andb_true_iff in H. destruct H as [Hi Hl].
    destruct i as [choice| | |]; simpl in Hi; try discriminate.
    + apply negb_true_iff in Hi. cbn [app choose_format]. rewrite Hi.
      rewrite (IH _ Hl). cbn [files console flat_map rejection app].
      now rewrite <- app_assoc.
    + cbn [app choose_format]. rewrite (IH _ Hl).
      cbn [files console flat_map rejection app]. now rewrite <- app_assoc.
Qed.

Lemma choose_format_chosen n (inputs : list user_input) : forall st st' i,
  choose_format n inputs st = (st', Chosen i) ->
  (i < n)%nat /\ files st' = files st /\
  exists lines choice rest,
    inputs = lines ++ Typed choice :: rest /\
    forallb (rejected n) lines = true /\
    1 <= choice <= Z.of_nat n /\ i = Z.to_nat (choice - 1) /\
    console st' = console st ++ flat_map rejection lines.
Proof.
  induction inputs as [|x inputs IH]; intros st st' i H; [discriminate|].
  destruct x as [choice| | |]; cbn [choose_format] in H; try discriminate.
  - destruct ((1 <=? choice) && (choice <=? Z.of_nat n)) eqn:E.
    + injection H as <- <-. apply andb_true_iff in E. rewrite !Z.leb_le in E.
      split; [lia|]. split; [reflexivity|].
      exists [], choice, inputs. cbn [app forallb flat_map].
      rewrite app_nil_r. repeat split; lia.
    + destruct (IH _ _ _ H) as (Hi & Hf & lines & c & rest & -> & Hr & Hc & -> & Hcon).
      split; [assumption|]. split; [exact Hf|].
      exists (Typed choice :: lines), c, rest.
      cbn [app forallb rejected flat_map rejection]. rewrite E, Hr. cbn [negb andb].
      repeat split; try lia. rewrite Hcon. cbn [console]. now rewrite <- app_assoc.
  - destruct (IH _ _ _ H) as (Hi & Hf & lines & c & rest & -> & Hr & Hc & -> & Hcon).
    split; [assumption|]. split; [exact Hf|].
    exists (TypedGarbage :: lines), c, rest.
    cbn [app forallb rejected flat_map rejection]. rewrite Hr. cbn [andb].
    repeat split; try lia. rewrite Hcon. cbn [console]. now rewrite <- app_assoc.
Qed.

(** The prompt takes the first number between 1 and the number of options:
    the lines before it are answered one by one, the lines after it are
    not read, no file is touched, and the entry chosen is the one listed
    under that number. *)
Theorem choose_format_first_valid (all_streams : list MenuEntry)
    (lines rest : list user_input) (choice : Z) (st : State) :
  forallb (rejected (List.length all_streams)) lines = true ->
  1 <= choice <= Z.of_nat (List.length all_streams) ->
  choose_format (List.length all_streams) (lines ++ Typed choice :: rest) st =
    (mkState (files st) (console st ++ flat_map rejection lines),
     Chosen (Z.to_nat (choice - 1))) /\
  exists selected,
    nth_error all_streams (Z.to_nat (choice - 1)) = Some selected /\
    nth_error all_streams (Z.to_nat choice - 1) = Some selected.
Proof.
  intros Hr Hc. split.
  - rewrite (choose_format_skips _ _ _ _ Hr). cbn [choose_format].
    assert (E : (1 <=? choice) && (choice <=? Z.of_nat (List.length all_streams)) = true).
    { apply andb_true_iff. rewrite !Z.leb_le. lia. }
    now rewrite E.
  - destruct (nth_error all_streams (Z.to_nat (choice - 1))) as [selected|] eqn:E.
    + exists selected. split; [reflexivity|].
      replace (Z.to_nat choice - 1)%nat with (Z.to_nat (choice - 1)) by lia. exact E.
    + apply nth_error_None in E. lia.
Qed.

Lemma choose_format_first_valid_witness :
  forallb (rejected (List.length (map Real scenario_A)))
          [Typed 0; TypedGarbage; Typed 4] = true /\
  1 <= 2 <= Z.of_nat (List.length (map Real scenario_A)) /\
  choose_format 3 [Typed 0; TypedGarbage; Typed 4; Typed 2; Typed 1] fresh =
    (mkState ∅ [InvalidNumber; EnterValidNumber; InvalidNumber], Chosen 1).
Proof.
  assert (Hr : forallb (rejected (List.length (map Real scenario_A)))
                       [Typed 0; TypedGarbage; Typed 4] = true)
    by (vm_compute; reflexivity).
  assert (Hc : 1 <= 2 <= Z.of_nat (List.length (map Real scenario_A)))
    by (vm_compute; split; discriminate).
  split; [exact Hr|]. split; [exact Hc|].
  pose proof (proj1 (choose_format_first_valid (map Real scenario_A)
                       [Typed 0; TypedGarbage; Typed 4] [Typed 1] 2 fresh Hr Hc)) as H.
  vm_compute in H. vm_compute. exact H.
Defined.

(** Whatever is typed, a choice made at the prompt is an index of the
    menu (the lookup that follows cannot fail), it was made by the first
    line holding a number of the menu, and the prompt has touched no
    file. *)
Theorem choose_format_in_range (all_streams : list MenuEntry)
    (inputs : list user_input) (st st' : State) (i : nat) :
  choose_format (List.length all_streams) inputs st = (st', Chosen i) ->
  (exists selected, nth_error all_streams i = Some selected) /\
  files st' = files st /\
  exists lines choice rest,
    inputs = lines ++ Typed choice :: rest /\
    forallb (rejected (List.length all_streams)) lines = true /\
    Z.of_nat i + 1 = choice.
Proof.
  intros H. destruct (choose_format_chosen _ _ _ _ _ H)
    as (Hi & Hf & lines & c & rest & -> & Hr & Hc & -> & _).
  split; [|split; [exact Hf|]].
  - destruct (nth_error all_streams (Z.to_nat (c - 1))) as [selected|] eqn:E; [eauto|].
    apply nth_error_None in E. lia.
  - exists lines, c, rest. repeat split; auto. lia.
Qed.

Lemma choose_format_in_range_witness :
  choose_format (List.length (map Real scenario_A)) [TypedGarbage; Typed 3] fresh =
    (mkState ∅ [EnterValidNumber], Chosen 2) /\
  exists selected, nth_error (map Real scenario_A) 2 = Some selected.
Proof.
  assert (E : choose_format (List.length (map Real scenario_A)) [TypedGarbage; Typed 3] fresh =
              (mkState ∅ [EnterValidNumber], Chosen 2)) by (vm_compute; reflexivity).
  split; [exact E|].
  exact (proj1 (choose_format_in_range (map Real scenario_A) [TypedGarbage; Typed 3]
                  fresh (mkState ∅ [EnterValidNumber]) 2 E)).
Defined.

(** ** What a menu offers *)

Lemma values_sorted_keys {K V SK : Type} (ltb : SK -> SK -> bool) (key : K -> result SK)
    (d : list (K * V)) (out : list V) :
  values_sorted ltb key d = Ok out ->
  forall k v, In (k, v) d -> exists sk, key k = Ok sk.
Proof.
  unfold values_sorted, decorate. intros H k v Hin.
  destruct (mapM _ d) as [dec|e] eqn:E; [|discriminate].
  apply mapM_ok in E. clear H.
  induction E as [|x y d dec Hxy _ IH]; [destruct Hin|].
  destruct Hin as [->|Hin]; [|auto].
  simpl in Hxy. destruct (key k) as [sk|e]; [eauto | discriminate].
Qed.

(** The video entries of a menu have a video track and a resolution. *)
Lemma menu_video_entries streams verbose video audio :
  organize_streams streams verbose = Ok (video, audio) ->
  forall s, In s video ->
    In s (considered verbose streams) /\ includes_video_track s = true /\
    resolution s <> None.
Proof.
  intros H s Hs.
  destruct (organize_streams_unfold _ _ _ _ H) as (st & ranked & Hst & Hv & _).
  destruct (collect_spec _ _ _ Hst) as (Hinv & _).
  pose proof (video_from_considered _ _ _ s Hinv Hv Hs) as Hc.
  split; [exact Hc|]. split.
  - unfold considered in Hc. apply filter_In in Hc. destruct Hc as [_ Hc].
    unfold is_considered in Hc. apply andb_true_iff in Hc. tauto.
  - apply (Permutation_in _ (values_sorted_perm _ _ _ _ Hv)) in Hs.
    apply in_map_iff in Hs. destruct Hs as ([k s'] & Hks & Hin). simpl in Hks. subst s'.
    destruct (values_sorted_keys _ _ _ _ Hv k s Hin) as [sk Hsk].
    destruct Hinv as (_ & Hslot & _). destruct (Hslot k s Hin) as [_ Hsl].
    destruct Hsl as [[_ E]|[[E _]|[E _]]].
    + rewrite <- E. intros ->. discriminate.
    + rewrite E. discriminate.
    + rewrite E. discriminate.
Qed.






(** ** The verbose menu and the conversions *)



(** ** Paths: cancelling a common prefix *)

Lemma str_app_inv_head (a b c : string) : (a ++ b)%string = (a ++ c)%string -> b = c.
Proof.
  induction a as [|x a IH]; intros H; [exact H|].
  change (String x (a ++ b)%string = String x (a ++ c)%string) in H.
  injection H as H. auto.
Qed.

Lemma str_app_assoc (a b c : string) : ((a ++ b) ++ c)%string = (a ++ b ++ c)%string.
Proof.
  induction a as [|x a IH]; [reflexivity|].
  change (String x ((a ++ b) ++ c)%string = String x (a ++ b ++ c)%string).
  now rewrite IH.
Qed.

Lemma path_join_inv dir a b : path_join dir a = path_join dir b -> a = b.
Proof.
  unfold path_join. intros H. apply str_app_inv_head in H.
  change (String "/" a = String "/" b) in H. now injection H.
Qed.

(** The temporary files of a session are not its output file, for a video
    stream whose resolution label starts with a decimal digit (or is absent), and
    for every conversion. *)
Theorem temporaries_differ_from_destination (w : World) (verbose : bool)
    (dir name : string) (selected : MenuEntry) (m : Mode) :
  mode_of w verbose dir name selected = Some m ->
  (forall s r, selected = Real s -> resolution s = Some r -> starts_with_digit r) ->
  forall t, In t (temporaries m) -> t <> destination m.
Proof.
  unfold mode_of. intros Hm Hr t Ht E.
  destruct selected as [s|v].
  - destruct (includes_video_track s).
    + destruct (negb (is_progressive s)).
      * destruct (first_audio w) as [audio|]; [|discriminate].
        injection Hm as <-. cbn [temporaries destination] in Ht, E.
        destruct (resolution s) as [[|c rest]|] eqn:Er.
        -- exact (Hr s EmptyString eq_refl Er).
        -- pose proof (Hr s (String c rest) eq_refl Er) as Hc. cbn in Hc.
           destruct Ht as [<-|[<-|[]]]; unfold video_temp_path, audio_temp_path in E;
             apply path_join_inv, str_app_inv_head in E; cbn in E;
             injection E as E1 _; subst c; apply Hc; vm_compute; reflexivity.
        -- destruct Ht as [<-|[<-|[]]]; unfold video_temp_path, audio_temp_path in E;
             apply path_join_inv, str_app_inv_head in E; cbn in E; discriminate.
      * injection Hm as <-. destruct Ht.
    + destruct verbose; [|discriminate]. injection Hm as <-. destruct Ht.
  - destruct verbose; [discriminate|]. injection Hm as <-.
    cbn [temporaries destination] in Ht, E. destruct Ht as [<-|[]].
    unfold temp_path in E. apply path_join_inv, str_app_inv_head in E.
    cbn in E. discriminate.
Qed.

Lemma temporaries_differ_from_destination_witness :
  let w := steady_world 0 (Some Complete) in
  let selected := Real (video_stream 1 "1080p" "mp4" (50 * MB)) in
  let m := RemuxMode "downloads/clip_video_temp.mp4" "downloads/clip_audio_temp.webm"
                     "downloads/clip_1080p.mp4" in
  mode_of w false "downloads" "clip" selected = Some m /\
  "downloads/clip_video_temp.mp4" <> "downloads/clip_1080p.mp4".
Proof.
  intros w selected m.
  assert (Hm : mode_of w false "downloads" "clip" selected = Some m) by reflexivity.
  split; [exact Hm|].
  refine (temporaries_differ_from_destination w false "downloads" "clip" selected m Hm _
            "downloads/clip_video_temp.mp4" (or_introl eq_refl)).
  intros s r [= <-] [= <-]. vm_compute. discriminate.
Defined.

(** After a download that completes, none of its temporary files is left;
    the adaptive branch has removed both of its temporary files even when
    it does not complete. *)
Theorem completed_download_leaves_no_temporaries (w : World) (verbose : bool)
    (dir name : string) (selected : MenuEntry) (m : Mode) (st : State) :
  mode_of w verbose dir name selected = Some m ->
  (snd (download_selected w verbose dir name selected st) = Ok tt ->
   forall t, In t (temporaries m) ->
     files (fst (download_selected w verbose dir name selected st)) !! t = None) /\
  (forall video_path audio_path dest, m = RemuxMode video_path audio_path dest ->
     files (fst (download_selected w verbose dir name selected st)) !! video_path = None /\
     files (fst (download_selected w verbose dir name selected st)) !! audio_path = None).
Proof.
  intros Hm. rewrite (download_selected_mode _ _ _ _ _ _ Hm).
  split.
  - destruct m as [dest|video_path audio_path dest|tmp dest]; intros Hok t Ht;
      cbn [temporaries] in Ht.
    + destruct Ht.
    + cbn [run_mode].
      destruct (remux_removes_temporaries w dir video_path audio_path dest st) as [H1 H2].
      destruct Ht as [<-|[<-|[]]]; assumption.
    + destruct Ht as [<-|[]]. revert Hok. cbn [run_mode].
      unfold transcode, sbind, download, run_tool, os_remove, print, raise,
        open_file_explorer, leave.
      destruct (status (download_outcome w tmp));
        [|destruct (left_behind (download_outcome w tmp))..];
        cbn [fst snd files console]; try discriminate.
      destruct (tool_run w) as [rc|e]; [destruct (rc =? 0)|];
        destruct (tool_left w) as [f|]; cbn [fst snd files console]; try discriminate.
      * destruct (<[dest:=f]> (<[tmp:=Complete]> (files st)) !! tmp) eqn:E;
          cbn [fst snd files console]; [|discriminate].
        intros _. apply lookup_delete_eq.
      * rewrite lookup_insert_eq. cbn [fst snd files console].
        intros _. apply lookup_delete_eq.
  - intros video_path audio_path dest ->. cbn [run_mode].
    apply remux_removes_temporaries.
Qed.

Lemma completed_download_leaves_no_temporaries_witness :
  let w := steady_world 0 (Some Complete) in
  let selected := Virtual (mp3_stream (audio_stream 2 (Some "160kbps") (4 * MB))) in
  let r := download_selected w false "downloads" "clip" selected fresh in
  mode_of w false "downloads" "clip" selected =
    Some (TranscodeMode "downloads/clip_temp.webm" "downloads/clip_audio.mp3") /\
  snd r = Ok tt /\
  files (fst r) !! "downloads/clip_temp.webm" = None.
Proof.
  intros w selected r.
  assert (Hm : mode_of w false "downloads" "clip" selected =
               Some (TranscodeMode "downloads/clip_temp.webm" "downloads/clip_audio.mp3"))
    by reflexivity.
  assert (Hok : snd r = Ok tt) by (vm_compute; reflexivity).
  split; [exact Hm|]. split; [exact Hok|].
  exact (proj1 (completed_download_leaves_no_temporaries w false "downloads" "clip" selected
                  _ fresh Hm) Hok "downloads/clip_temp.webm" (or_introl eq_refl)).
Defined.

(** ** When organize_streams returns *)

Lemma dict_keys_set_in {K V : Type} `{EqDecision K} (d : list (K * V)) (k k' : K) (v : V) :
  In k' (dict_keys d) \/ k' = k -> In k' (dict_keys (dict_set k v d)).
Proof.
  rewrite dict_keys_set. destruct (dict_mem k d) eqn:E.
  - intros [H| ->]; [exact H|]. unfold dict_mem in E.
    destruct (dict_get k d) eqn:G; [|discriminate].
    apply dict_get_in in G. change k with (fst (k, v0)). now apply in_map.
  - intros [H| ->]; apply in_or_app; [now left | right; now left].
Qed.

(** Every stream the first loop looks at has its resolution among the
    keys, or has resolution 1080p. *)
Lemma collect_keys verbose streams st :
  collect verbose streams = Ok st ->
  forall s, In s (considered verbose streams) ->
    resolution s = key_1080p \/ In (resolution s) (dict_keys (video_streams st)).
Proof.
  intros H. unfold collect in H.
  set (Inv := fun (pre : list Stream) (st : Collected) =>
         forall s, In s (considered verbose pre) ->
           resolution s = key_1080p \/ In (resolution s) (dict_keys (video_streams st))).
  assert (Hstep : forall pre st x st', Inv pre st -> collect_step verbose st x = Ok st' ->
                                       Inv (pre ++ [x]) st').
  2:{ apply (foldM_invariant _ Inv streams Hstep [] _ _) in H; [exact H | intros s []]. }
  clear. intros pre st x st' Hinv Hstep s Hs.
  unfold considered in Hs. rewrite filter_snoc in Hs.
  assert (Hmono : forall k, In k (dict_keys (video_streams st)) ->
                            In k (dict_keys (video_streams st'))).
  { revert Hstep. unfold collect_step.
    destruct (includes_video_track x).
    - destruct (negb verbose && _); [intros [= <-]; auto|].
      destruct (decide _).
      + destruct (dict_get _ _); [destruct (_ <? _)|]; intros [= <-]; cbn; auto;
          intros k Hk; apply dict_keys_set_in; auto.
      + destruct (dict_mem _ _); intros [= <-]; cbn; auto.
        intros k Hk; apply dict_keys_set_in; auto.
    - destruct (includes_audio_track x && _); [|intros [= <-]; auto].
      destruct (match best_audio st with Some _ => _ | None => _ end); cbn;
        [intros [= <-]; auto | discriminate]. }
  destruct (is_considered verbose x) eqn:Ec.
  - apply in_app_or in Hs. destruct Hs as [Hs|[<-|[]]].
    + destruct (Hinv s Hs); auto.
    + revert Hstep. unfold collect_step. unfold is_considered in Ec.
      apply andb_true_iff in Ec. destruct Ec as [Ev Ew]. rewrite Ev.
      apply negb_true_iff in Ew. rewrite Ew.
      destruct (decide _) as [E|E]; [now left|].
      destruct (dict_mem _ _) eqn:Em.
      * intros [= <-]. right. unfold dict_mem in Em.
        destruct (dict_get _ _) eqn:G; [|discriminate].
        apply dict_get_in in G. change (resolution x) with (fst (resolution x, s)).
        now apply in_map.
      * intros [= <-]. right. cbn. apply dict_keys_set_in. now right.
  - rewrite app_nil_r in Hs. destruct (Hinv s Hs); auto.
Qed.

Lemma abr_greater_total (x best : Stream) :
  label_parses x -> label_parses best -> exists b, abr_greater x best = Ok b.
Proof.
  unfold label_parses, abr_greater.
  destruct (truthy (abr x)) as [a|]; [|eauto].
  destruct (truthy (abr best)) as [b|]; [|eauto].
  intros Ha Hb. destruct (digits_int_ok _ Ha) as [n ->], (digits_int_ok _ Hb) as [m ->].
  simpl. eauto.
Qed.

Lemma collect_from_total verbose (streams : list Stream) : forall st,
  Forall label_parses (List.filter audio_only streams) ->
  (forall b, best_audio st = Some b -> label_parses b) ->
  exists st', foldM (collect_step verbose) streams st = Ok st'.
Proof.
  induction streams as [|x streams IH]; intros st HF Hb; simpl; [eauto|].
  simpl in HF.
  assert (Hstep : exists st1, collect_step verbose st x = Ok st1 /\
                    forall b, best_audio st1 = Some b -> label_parses b).
  { unfold collect_step. unfold audio_only in HF.
    destruct (includes_video_track x).
    - destruct (negb verbose && _); [eauto|].
      destruct (decide _).
      + destruct (dict_get _ _); [destruct (_ <? _)|]; eauto.
      + destruct (dict_mem _ _); eauto.
    - cbn [negb andb] in HF |- *. rewrite andb_true_r.
      destruct (includes_audio_track x); [|eauto].
      inversion HF as [|? ? Hx _]; subst.
      destruct (best_audio st) as [best|] eqn:Eb.
      + destruct (abr_greater_total x best Hx (Hb _ eq_refl)) as [g ->]. simpl.
        eexists; split; [reflexivity|]. cbn. destruct g; intros b [= <-]; auto.
      + simpl. eexists; split; [reflexivity|]. cbn. intros b [= <-]; auto. }
  destruct Hstep as (st1 & -> & Hb1). simpl. apply IH; [|exact Hb1].
  destruct (audio_only x); [now inversion HF | exact HF].
Qed.

Lemma collect_total verbose (streams : list Stream) :
  Forall label_parses (List.filter audio_only streams) ->
  exists st, collect verbose streams = Ok st.
Proof.
  intros H. apply collect_from_total; [exact H | discriminate].
Qed.

Lemma digit_resolution_key (s : Stream) :
  digit_resolution s -> exists sk, video_sort_key (resolution s) = Ok sk.
Proof.
  unfold digit_resolution, video_sort_key. destruct (resolution s) as [r|]; [|tauto].
  intros H. apply has_digit_filter in H. destruct (digits_int_ok _ H) as [n ->].
  simpl. eauto.
Qed.

Lemma video_sort_key_digit (k : option string) sk :
  video_sort_key k = Ok sk -> exists r, k = Some r /\ has_digit r = true.
Proof.
  unfold video_sort_key. destruct k as [r|]; [|discriminate].
  intros H. exists r. split; [reflexivity|]. apply has_digit_filter.
  intros E. rewrite (digits_int_raise _ E) in H. discriminate.
Qed.

Lemma order_video_total seen (vs : list (option string * Stream)) :
  video_inv seen vs -> Forall digit_resolution seen ->
  exists ordered, order_video vs = Ok ordered.
Proof.
  intros (Hnd & Hin & _) HF. unfold order_video.
  rewrite sorted_values_eq by assumption. unfold values_sorted.
  destruct (decorate_total video_sort_key vs) as [dec ->]; [|simpl; eauto].
  apply Forall_forall. intros [k s] Hks. simpl.
  destruct (Hin _ _ Hks) as [Hs Hslot].
  destruct Hslot as [[_ ->]|[[_ ->]|[_ [-> _]]]].
  - apply digit_resolution_key. rewrite Forall_forall in HF. auto.
  - rewrite sort_key_1080p_hd. eauto.
  - rewrite sort_key_1080p. eauto.
Qed.

Lemma rank_audio_error audio e : rank_audio audio = Raise e -> e = ValueError.
Proof.
  unfold rank_audio. destruct (audio_buckets audio) as [aq|e'] eqn:E; simpl.
  - pose proof (audio_buckets_spec _ _ E) as (Hnd & _).
    rewrite sorted_values_eq by assumption. unfold values_sorted, decorate.
    destruct (mapM _ aq) as [dec|e''] eqn:Ed; simpl; [discriminate|].
    intros [= <-]. apply mapM_error in Ed. destruct Ed as ([k s] & _ & Hk). simpl in Hk.
    destruct (digits_int k) as [n|e1] eqn:E1; simpl in Hk; [discriminate|].
    injection Hk as <-. now apply digits_int_error in E1.
  - intros [= <-]. unfold audio_buckets in E.
    eapply (foldM_error _ (fun e => e = ValueError)); [|exact E].
    clear. intros aq x e. unfold bucket_step.
    destruct (bitrate_of x) as [b|e1] eqn:E1; simpl.
    + destruct (dict_get _ aq); [destruct (_ <? _)|]; discriminate.
    + intros [= <-]. now apply bitrate_of_error in E1.
Qed.

Lemma bitrate_of_ok_parses (s : Stream) b : bitrate_of s = Ok b -> label_parses s.
Proof.
  unfold bitrate_of, label_parses. destruct (truthy (abr s)) as [a|]; [|trivial].
  intros H E. rewrite (digits_int_raise _ E) in H. discriminate.
Qed.

Lemma organize_streams_error streams verbose e :
  organize_streams streams verbose = Raise e -> e = ValueError \/ e = TypeError.
Proof.
  unfold organize_streams.
  destruct (collect verbose streams) as [st|e1] eqn:Est; simpl.
  2:{ intros [= <-]. left. exact (collect_error _ _ _ Est). }
  destruct (collect_spec _ _ _ Est) as ((Hnd & _) & _).
  destruct (order_video (video_streams st)) as [ordered|e2] eqn:Eord; simpl.
  2:{ intros [= <-]. destruct (order_video_error _ _ Hnd Eord) as [->|[-> _]]; auto. }
  destruct (rank_audio (audio_streams st)) as [ranked|e3] eqn:Erk; simpl; [discriminate|].
  intros [= <-]. left. exact (rank_audio_error _ _ Erk).
Qed.

(** [organize_streams] returns a menu exactly when every video stream it
    looks at has a resolution with a digit and every audio-only stream has
    a bitrate label that is absent, empty or holds a digit; when it does
    not return it raises ValueError or TypeError. *)
Theorem organize_streams_returns (streams : list Stream) (verbose : bool) :
  Forall ascii_labels streams ->
  ((exists menu, organize_streams streams verbose = Ok menu) <->
   (Forall digit_resolution (considered verbose streams) /\
    Forall digit_label (List.filter audio_only streams))) /\
  (forall e, organize_streams streams verbose = Raise e ->
     e = ValueError \/ e = TypeError).
Proof.
  intros _. split; [split|].
  - intros [[video audio] H].
    destruct (organize_streams_unfold _ _ _ _ H) as (st & ranked & Hst & Hv & Hrk & _).
    destruct (collect_spec _ _ _ Hst) as ((Hnd & Hin & _) & Haudio & _).
    split; apply Forall_forall; intros s Hs.
    + unfold digit_resolution.
      destruct (collect_keys _ _ _ Hst s Hs) as [E|Hk].
      * rewrite E. reflexivity.
      * apply in_map_iff in Hk. destruct Hk as ([k s'] & Hk & Hks). simpl in Hk. subst k.
        destruct (values_sorted_keys _ _ _ _ Hv _ _ Hks) as [sk Hsk].
        destruct (video_sort_key_digit _ _ Hsk) as (r & -> & Hr). exact Hr.
    + apply digit_label_parses. rewrite Haudio in Hrk.
      destruct (rank_audio_unfold _ _ Hrk) as (aq & Haq & _).
      destruct (audio_buckets_spec _ _ Haq) as (_ & _ & Hcov).
      destruct (Hcov s Hs) as (b & _ & Hb & _). exact (bitrate_of_ok_parses _ _ Hb).
  - intros [Hres Hlab].
    assert (Hp : Forall label_parses (List.filter audio_only streams)).
    { eapply Forall_impl; [|exact Hlab]. intros s. apply digit_label_parses. }
    unfold organize_streams.
    destruct (collect_total verbose streams Hp) as [st Hst]. rewrite Hst. simpl.
    destruct (collect_spec _ _ _ Hst) as (Hinv & Haudio & _).
    destruct (order_video_total _ _ Hinv Hres) as [ordered ->]. simpl.
    rewrite <- Haudio in Hp. destruct (rank_audio_total _ Hp) as [ranked ->]. simpl.
    eauto.
  - intros e. apply organize_streams_error.
Qed.

Lemma organize_streams_returns_witness :
  Forall ascii_labels mixed_catalogue /\
  exists menu, organize_streams mixed_catalogue false = Ok menu.
Proof.
  assert (Ha : Forall ascii_labels mixed_catalogue) by (repeat constructor).
  split; [exact Ha|].
  apply (proj1 (organize_streams_returns mixed_catalogue false Ha)).
  split; repeat constructor.
Defined.

(** ** The order of the video menu *)

Lemma StronglySorted_map_in {A B : Type} (R : A -> A -> Prop) (R' : B -> B -> Prop)
    (f : A -> B) (l : list A) :
  (forall a b, In a l -> In b l -> R a b -> R' (f a) (f b)) ->
  StronglySorted R l -> StronglySorted R' (map f l).
Proof.
  intros HR H. induction H as [|a l Hl IH Ha]; simpl; constructor.
  - apply IH. intros x y Hx Hy. apply HR; now right.
  - rewrite Forall_forall in *. intros y Hy. apply in_map_iff in Hy.
    destruct Hy as (b & <- & Hb). apply HR; [now left | now right | auto].
Qed.

(** The sort key of a dictionary key is the number the resolution of its
    stream spells. *)
Lemma slot_number vs k s sk :
  slot vs k s -> video_sort_key k = Ok sk -> fst sk = resolution_number s.
Proof.
  unfold resolution_number. intros [[_ ->]|[[-> ->]|[-> [-> _]]]] Hk.
  - unfold video_sort_key in Hk. destruct (resolution s) as [r|]; [|discriminate].
    destruct (digits_int r) as [n|] eqn:E; simpl in Hk; [|discriminate].
    injection Hk as <-. simpl. now apply digits_int_spelled.
  - rewrite sort_key_1080p_hd in Hk. injection Hk as <-. reflexivity.
  - rewrite sort_key_1080p in Hk. injection Hk as <-. reflexivity.
Qed.

(** The video menu is in descending order of the numbers its resolutions
    spell. *)
Theorem organize_streams_video_order streams verbose video audio :
  Forall ascii_labels streams ->
  organize_streams streams verbose = Ok (video, audio) ->
  StronglySorted (fun a b => (resolution_number b <= resolution_number a)%N) video.
Proof.
  intros _ H.
  destruct (organize_streams_unfold _ _ _ _ H) as (st & ranked & Hst & Hv & _).
  destruct (collect_spec _ _ _ Hst) as ((Hnd & Hin & _) & _).
  unfold values_sorted in Hv.
  destruct (decorate video_sort_key (video_streams st)) as [dec|] eqn:Hdec;
    simpl in Hv; [|discriminate].
  injection Hv as <-.
  destruct (decorate_ok _ _ _ Hdec) as [Hsnd Hkeys].
  assert (HL : forall x, In x (sort_desc pair_ltb dec) ->
                 fst (fst x) = resolution_number (snd (snd x))).
  { intros x Hx. apply sort_desc_in in Hx.
    assert (Hvs : In (snd x) (video_streams st)) by (rewrite <- Hsnd; now apply in_map).
    rewrite Forall_forall in Hkeys. specialize (Hkeys x Hx).
    destruct x as [sk [k s]]; simpl in *.
    destruct (Hin k s Hvs) as [_ Hslot]. exact (slot_number _ _ _ _ Hslot Hkeys). }
  apply (StronglySorted_map_in (sorted_ge pair_ltb)).
  - intros a b Ha Hb Hab. rewrite <- (HL a Ha), <- (HL b Hb).
    unfold sorted_ge, pair_ltb in Hab. apply orb_false_iff in Hab.
    destruct Hab as [Hab _]. apply N.ltb_ge in Hab. exact Hab.
  - apply sort_desc_sorted; [apply pair_ltb_asym | apply pair_geb_trans].
Qed.

Lemma organize_streams_video_order_witness :
  Forall ascii_labels uhd_catalogue /\
  organize_streams uhd_catalogue false = Ok (uhd_catalogue, []) /\
  map resolution_number uhd_catalogue = [2160%N; 1080%N; 1080%N] /\
  StronglySorted (fun a b => (resolution_number b <= resolution_number a)%N) uhd_catalogue.
Proof.
  assert (Ha : Forall ascii_labels uhd_catalogue) by (repeat constructor).
  assert (Hm : organize_streams uhd_catalogue false = Ok (uhd_catalogue, []))
    by (vm_compute; reflexivity).
  split; [exact Ha|]. split; [exact Hm|]. split; [vm_compute; reflexivity|].
  exact (organize_streams_video_order uhd_catalogue false uhd_catalogue [] Ha Hm).
Defined.

(** Invariant of the first loop: under a key other than the two 1080p
    keys sits the first stream seen with that resolution. *)
Lemma collect_first_seen verbose streams st :
  collect verbose streams = Ok st ->
  forall r, r <> key_1080p -> r <> key_1080p_hd ->
    dict_get r (video_streams st) = find (has_resolution r) (considered verbose streams).
Proof.
  intros H. unfold collect in H.
  set (Inv := fun (pre : list Stream) (st : Collected) =>
         forall r, r <> key_1080p -> r <> key_1080p_hd ->
           dict_get r (video_streams st) = find (has_resolution r) (considered verbose pre)).
  assert (Hstep : forall pre st x st', Inv pre st -> collect_step verbose st x = Ok st' ->
                                       Inv (pre ++ [x]) st').
  2:{ apply (foldM_invariant _ Inv streams Hstep [] _ _) in H; [exact H|].
      intros r _ _. reflexivity. }
  clear. intros pre st x st' Hinv Hstep r Hr Hhd.
  specialize (Hinv r Hr Hhd). unfold considered in *. rewrite filter_snoc.
  revert Hstep. unfold collect_step.
  destruct (is_considered verbose x) eqn:Ec; unfold is_considered in Ec.
  2:{ rewrite app_nil_r. destruct (includes_video_track x); cbn [andb] in Ec |- *.
      - apply negb_false_iff in Ec. rewrite Ec. intros [= <-]. exact Hinv.
      - destruct (includes_audio_track x && _); [|intros [= <-]; exact Hinv].
        destruct (match best_audio st with Some _ => _ | None => _ end); cbn;
          [intros [= <-]; exact Hinv | discriminate]. }
  apply andb_true_iff in Ec. destruct Ec as [Ev Ew]. rewrite Ev.
  apply negb_true_iff in Ew. rewrite Ew.
  rewrite find_snoc, <- Hinv.
  assert (Hx : has_resolution r x = bool_decide (resolution x = r)) by reflexivity.
  destruct (decide (resolution x = key_1080p)) as [E|E].
  - assert (Hf : has_resolution r x = false).
    { rewrite Hx. apply bool_decide_eq_false. congruence. }
    rewrite Hf.
    destruct (dict_get key_1080p_hd _) eqn:G; [destruct (_ <? _)|]; intros [= <-]; cbn;
      rewrite ?dict_get_set; try (destruct (decide _); [congruence|]);
      now destruct (dict_get r (video_streams st)).
  - destruct (dict_mem _ _) eqn:Em; intros [= <-]; cbn.
    + unfold dict_mem in Em. destruct (dict_get r (video_streams st)) eqn:G; [reflexivity|].
      rewrite Hx. rewrite bool_decide_eq_false_2; [reflexivity|].
      intros <-. rewrite G in Em. discriminate.
    + rewrite dict_get_set. unfold dict_mem in Em. destruct (decide _) as [->|Hne].
      * destruct (dict_get (resolution x) _); [discriminate|].
        rewrite Hx. now rewrite bool_decide_eq_true_2.
      * destruct (dict_get r _); [reflexivity|].
        rewrite Hx. rewrite bool_decide_eq_false_2; [reflexivity | congruence].
Qed.

(** For a resolution other than 1080p (and than the spelling of the
    reserved key), the menu holds the first stream of that resolution that
    passed the container filter, and no other. *)
Theorem organize_streams_first_seen streams verbose video audio (r : option string) :
  Forall ascii_labels streams ->
  organize_streams streams verbose = Ok (video, audio) ->
  r <> key_1080p -> r <> key_1080p_hd ->
  List.filter (has_resolution r) video =
    option_list (find (has_resolution r) (considered verbose streams)).
Proof.
  intros _ H Hr Hhd.
  destruct (organize_streams_unfold _ _ _ _ H) as (st & ranked & Hst & Hv & _).
  destruct (collect_spec _ _ _ Hst) as (Hinv & _).
  pose proof (collect_first_seen _ _ _ Hst r Hr Hhd) as Hget.
  pose proof (video_other_resolutions _ _ _ r Hinv Hv Hr) as Hlen.
  destruct (find (has_resolution r) (considered verbose streams)) as [p|] eqn:Ef; cbn.
  - apply dict_get_in in Hget.
    assert (Hp : In p (List.filter (has_resolution r) video)).
    { apply filter_In. split; [|now apply find_some in Ef].
      apply (Permutation_in (l := map snd (video_streams st))).
      - symmetry. exact (values_sorted_perm _ _ _ _ Hv).
      - change p with (snd (r, p)). now apply in_map. }
    destruct (List.filter (has_resolution r) video) as [|a [|b l]]; cbn in *.
    + destruct Hp.
    + destruct Hp as [->|[]]. reflexivity.
    + lia.
  - destruct (List.filter (has_resolution r) video) as [|a l] eqn:Efl; [reflexivity|].
    assert (Ha : In a (List.filter (has_resolution r) video)) by (rewrite Efl; now left).
    apply filter_In in Ha. destruct Ha as [Ha1 Ha2].
    pose proof (video_from_considered _ _ _ a Hinv Hv Ha1) as Hc.
    pose proof (find_none _ _ Ef a Hc) as Hn. congruence.
Qed.

Lemma organize_streams_first_seen_witness :
  let streams := [ video_stream 1 "720p" "webm" (9 * MB);
                   video_stream 2 "720p" "mp4" (30 * MB);
                   video_stream 3 "720p" "mp4" (20 * MB) ] in
  Forall ascii_labels streams /\
  organize_streams streams false = Ok ([video_stream 2 "720p" "mp4" (30 * MB)], []) /\
  List.filter (has_resolution (Some "720p")) [video_stream 2 "720p" "mp4" (30 * MB)] =
    option_list (find (has_resolution (Some "720p")) (considered false streams)).
Proof.
  intros streams.
  assert (Hm : organize_streams streams false = Ok ([video_stream 2 "720p" "mp4" (30 * MB)], []))
    by (vm_compute; reflexivity).
  assert (Ha : Forall ascii_labels streams) by (repeat constructor).
  split; [exact Ha|]. split; [exact Hm|].
  apply (organize_streams_first_seen streams false _ [] (Some "720p") Ha Hm); discriminate.
Defined.

(** ** The default menu and the verbose menu *)

Lemma collect_without_webm (streams : list Stream) : forall st,
  foldM (collect_step false) streams st =
  foldM (collect_step true) (List.filter (fun s => negb (webm_video s)) streams) st.
Proof.
  induction streams as [|x streams IH]; intros st; [reflexivity|].
  cbn [foldM List.filter]. unfold webm_video at 1.
  unfold collect_step at 1. destruct (includes_video_track x) eqn:Ev; cbn [negb andb].
  - destruct (String.eqb (subtype x) "webm") eqn:Ew; cbn [negb rbind].
    + apply IH.
    + cbn [foldM]. unfold collect_step at 2. rewrite Ev. cbn [negb andb].
      destruct (decide _).
      * destruct (dict_get _ _); [destruct (_ <? _)|]; cbn [rbind]; apply IH.
      * destruct (dict_mem _ _); cbn [rbind]; apply IH.
  - cbn [foldM]. unfold collect_step at 2. rewrite Ev. cbn [negb andb].
    destruct (includes_audio_track x && true); [|cbn [rbind]; apply IH].
    destruct (match best_audio st with Some _ => _ | None => _ end); cbn [rbind];
      [apply IH | reflexivity].
Qed.

Lemma filter_virtual_real (l : list Stream) : List.filter is_virtual (map Real l) = [].
Proof. induction l; [reflexivity | assumption]. Qed.

Lemma filter_virtual_virtual (l : list VirtualStream) :
  List.filter is_virtual (map Virtual l) = map Virtual l.
Proof. induction l as [|v l IH]; [reflexivity | cbn; now rewrite IH]. Qed.

(** The default menu is the verbose menu of the catalogue without its
    webm video streams, with the audio part cut down to the first two
    conversion entries; the two calls fail alike. *)
Theorem organize_streams_default_from_verbose (streams : list Stream) :
  organize_streams streams false =
    (menu <-- organize_streams (List.filter (fun s => negb (webm_video s)) streams) true ;;
     Ok (fst menu, firstn 2 (List.filter is_virtual (snd menu)))).
Proof.
  unfold organize_streams, collect. rewrite collect_without_webm.
  destruct (foldM _ _ _) as [st|e] eqn:Est; cbn [rbind]; [|reflexivity].
  destruct (order_video (video_streams st)) as [ordered|e]; cbn [rbind]; [|reflexivity].
  destruct (rank_audio (audio_streams st)) as [ranked|e] eqn:Erk; cbn [rbind fst snd];
    [|reflexivity].
  f_equal. f_equal. unfold audio_menu.
  destruct (best_audio st) as [best|] eqn:Eb.
  - rewrite List.filter_app, filter_virtual_real, filter_virtual_virtual.
    cbn [app]. symmetry. apply firstn_map.
  - destruct (collect_spec true _ st Est) as (_ & Haudio & Hbest).
    rewrite (proj1 Hbest Eb) in Haudio. rewrite Haudio in Erk.
    injection Erk as <-. reflexivity.
Qed.

(** ** How a session ends *)








Lemma handle_files (r : State * result unit) : files (fst (handle r)) = files (fst r).
Proof. destruct r as [st [[]|[]]]; reflexivity. Qed.

Lemma run_mode_unopened w dir m st :
  Forall (fun p => finished w p = true) (downloads_of m) ->
  (runs_tool m = true -> tool_run w = Ok 0) ->
  subprocess_run w (explorer_command (platform_system w)) = Raise OSError ->
  snd (run_mode w dir m st) = Raise OSError /\
  console (fst (run_mode w dir m st)) = console st ++ [SavedTo (destination m)].
Proof.
  intros Hfin Htool Hx.
  destruct m as [dest|video_path audio_path dest|tmp dest];
    cbn [downloads_of runs_tool destination run_mode] in *.
  - inversion Hfin as [|? ? Hd _]; subst. unfold finished in Hd.
    unfold sbind, download, print, open_file_explorer, leave.
    destruct (status (download_outcome w dest)); try discriminate.
    cbn [fst snd files console]. rewrite Hx. split; reflexivity.
  - inversion Hfin as [|? ? Hv Hfin']; subst. inversion Hfin' as [|? ? Ha _]; subst.
    unfold finished in Hv, Ha. specialize (Htool eq_refl).
    unfold remux, try_finally.
    destruct (sbind _ _ st) as [st1 r] eqn:Ebody. rewrite clean_up_spec.
    cbn [fst snd console]. revert Ebody.
    unfold sbind, download, run_tool, print, raise, open_file_explorer, leave.
    destruct (status (download_outcome w video_path)); try discriminate.
    destruct (status (download_outcome w audio_path)); try discriminate.
    rewrite Htool. cbn [Z.eqb].
    destruct (tool_left w); cbn [fst snd files console]; rewrite Hx;
      intros [= <- <-]; split; reflexivity.
  - inversion Hfin as [|? ? Hd _]; subst. unfold finished in Hd.
    specialize (Htool eq_refl).
    unfold transcode, sbind, download, run_tool, os_remove, print, raise,
      open_file_explorer, leave.
    destruct (status (download_outcome w tmp)); try discriminate.
    rewrite Htool. cbn [Z.eqb].
    destruct (tool_left w) as [f|]; cbn [fst snd files console].
    + assert (E : is_Some (<[dest:=f]> (<[tmp:=Complete]> (files st)) !! tmp)).
      { apply lookup_insert_is_Some'. right. rewrite lookup_insert_eq. eauto. }
      destruct E as [g ->]. cbn [fst snd files console]. rewrite Hx. split; reflexivity.
    + rewrite lookup_insert_eq. cbn [fst snd files console]. rewrite Hx. split; reflexivity.
Qed.

(** A file manager that cannot be started turns a finished download into
    a reported failure: the downloads have finished, ffmpeg (if it runs)
    has returned 0 and the path of the saved file has been printed, yet
    the session prints the message of the outer handler and exits with
    status 1.  The output file stays as its writer left it. *)
Theorem unopened_folder_reported_as_failure w verbose dir name selected m st :
  mode_of w verbose dir name selected = Some m ->
  Forall (fun p => finished w p = true) (downloads_of m) ->
  (runs_tool m = true -> tool_run w = Ok 0) ->
  (forall t, In t (temporaries m) -> t <> destination m) ->
  subprocess_run w (explorer_command (platform_system w)) = Raise OSError ->
  snd (handle (download_selected w verbose dir name selected st)) = Exited 1 /\
  console (fst (handle (download_selected w verbose dir name selected st))) =
    console st ++ [SavedTo (destination m); IncorrectLink] /\
  files (fst (handle (download_selected w verbose dir name selected st))) !! destination m =
    writer_left w m (files st !! destination m).
Proof.
  intros Hm Hfin Htool Hd Hx. rewrite handle_files.
  rewrite (download_selected_mode _ _ _ _ _ _ Hm).
  destruct (run_mode_unopened w dir m st Hfin Htool Hx) as [Hr Hc].
  split; [|split].
  - destruct (run_mode w dir m st) as [st1 r]. cbn [snd] in Hr. subst r. reflexivity.
  - destruct (run_mode w dir m st) as [st1 r]. cbn [fst snd] in Hr, Hc. subst r.
    cbn [handle fst console]. rewrite Hc. now rewrite <- app_assoc.
  - destruct m as [dest|video_path audio_path dest|tmp dest]; cbn [temporaries destination] in *.
    + exact (proj1 (direct_in_place w dir dest st)).
    + cbn [run_mode]. apply remux_in_place; apply Hd; cbn; auto.
    + cbn [run_mode]. apply transcode_in_place; apply Hd; cbn; auto.
Qed.

Lemma unopened_folder_reported_as_failure_witness :
  let w := mkWorld None (fun _ => mkOutcome Finished (Some Complete)) (Ok 0) (Some Complete)
                   "Linux" (fun _ => Raise OSError) in
  let r := handle (download_selected w false "downloads" "clip" (Real progressive_stream) fresh) in
  mode_of w false "downloads" "clip" (Real progressive_stream) =
    Some (DirectMode "downloads/clip_360p.mp4") /\
  snd r = Exited 1 /\
  console (fst r) = [SavedTo "downloads/clip_360p.mp4"; IncorrectLink] /\
  files (fst r) !! "downloads/clip_360p.mp4" = Some Complete.
Proof.
  intros w r.
  assert (Hm : mode_of w false "downloads" "clip" (Real progressive_stream) =
               Some (DirectMode "downloads/clip_360p.mp4")) by reflexivity.
  split; [exact Hm|].
  refine (unopened_folder_reported_as_failure w false "downloads" "clip"
            (Real progressive_stream) _ fresh Hm _ _ _ eq_refl).
  - repeat constructor.
  - discriminate.
  - intros t [].
Defined.

(** ** The bar without a total, and its accuracy with one *)

Lemma monitor_silent (step : Z -> result (option Z)) (lines : list progress_line) :
  Forall (fun c => step c = Ok None) (counters lines) ->
  forall bar, monitor step lines bar = (bar, Ok tt).
Proof.
  induction lines as [|[[c|]|] lines IH]; simpl; intros H bar; auto.
  inversion H as [|? ? Hc Hrest]; subst. rewrite Hc. auto.
Qed.

Lemma time_step_unknown duration c :
  (duration <= 0)%Q -> Z.abs c < 1000000 * float_limit ->
  time_step duration c = Ok None.
Proof.
  intros Hd Hc. unfold time_step. rewrite fl_in_range.
  - cbn [rbind]. apply Qle_bool_iff in Hd. now rewrite Hd.
  - unfold Qdiv. rewrite Qabs_Qmult.
    change (Qabs (inject_Z c)) with (inject_Z (Z.abs c)).
    change (Qabs (/ 1000000)) with (/ 1000000)%Q.
    apply Qlt_shift_div_r; [reflexivity|].
    change 1000000%Q with (inject_Z 1000000).
    rewrite <- inject_Z_mult, <- Zlt_Qlt. lia.
Qed.

(** Without a total (ffprobe gave no frame count, or no duration) the bar
    stays at 0 while ffmpeg runs and jumps to 100 when it ends, whatever
    the progress lines say. *)
Theorem unknown_total_jumps_to_end (total_frames : Z) (duration : Q)
    (lines : list progress_line) :
  total_frames <= 0 -> (duration <= 0)%Q ->
  Forall (fun c => Z.abs c < 1000000 * float_limit) (counters lines) ->
  process_with_progress total_frames lines = (mkBar 100 [0; 100], Ok tt) /\
  process_audio duration lines = (mkBar 100 [0; 100], Ok tt).
Proof.
  intros Ht Hd Hc. unfold process_with_progress, process_audio, run_bar. split.
  - rewrite monitor_silent; [reflexivity|].
    apply Forall_forall. intros c _. unfold frame_step.
    destruct (Z.ltb_spec 0 total_frames); [lia | reflexivity].
  - rewrite monitor_silent; [reflexivity|].
    eapply Forall_impl; [|exact Hc]. intros c. now apply time_step_unknown.
Qed.

Lemma unknown_total_jumps_to_end_witness :
  let lines := [Counter (Some 30); OtherLine; Counter None; Counter (Some 4000000)] in
  0 <= 0 /\ (0 <= 0)%Q /\
  process_with_progress 0 lines = (mkBar 100 [0; 100], Ok tt) /\
  process_audio 0 lines = (mkBar 100 [0; 100], Ok tt).
Proof.
  intros lines.
  assert (Hc : Forall (fun c => Z.abs c < 1000000 * float_limit) (counters lines))
    by (repeat constructor).
  split; [lia|]. split; [discriminate|].
  exact (unknown_total_jumps_to_end 0 0 lines ltac:(lia) ltac:(discriminate) Hc).
Defined.

(** A larger share of the total never displays a smaller percentage, also
    across totals. *)
Lemma frame_step_share_mono total1 total2 c1 c2 p1 p2 :
  0 < total1 -> 0 < total2 -> 0 <= c1 -> c1 * total2 <= c2 * total1 ->
  frame_step total1 c1 = Ok (Some p1) -> frame_step total2 c2 = Ok (Some p2) ->
  p1 <= p2.
Proof.
  unfold frame_step, frame_percent. intros Ht1 Ht2 Hc1 Hshare.
  destruct (Z.ltb_spec 0 total1); [|lia]. destruct (Z.ltb_spec 0 total2); [|lia].
  intros H1 H2.
  inv_bind H1 as q1 Hq1. injection H1 as <-.
  inv_bind Hq1 as r1 Hr1. inv_bind Hq1 as s1 Hs1. injection Hq1 as <-.
  inv_bind H2 as q2 Hq2. injection H2 as <-.
  inv_bind Hq2 as r2 Hr2. inv_bind Hq2 as s2 Hs2. injection Hq2 as <-.
  apply fl_ok in Hr1, Hr2. subst r1 r2.
  pose proof (positive_total _ Ht1) as Hp1. pose proof (positive_total _ Ht2) as Hp2.
  assert (Hnn : (0 <= inject_Z c1 / inject_Z total1)%Q)
    by (apply Qdiv_nonneg; [now apply nonneg_counter | assumption]).
  apply (scaled_mono _ (binary64 (inject_Z c2 / inject_Z total2)) _ _
           (binary64_nonneg _ Hnn)); [|exact Hs1 | exact Hs2].
  apply binary64_mono; [exact Hnn|].
  apply Qle_shift_div_l; [assumption|].
  unfold Qdiv. rewrite <- Qmult_assoc, (Qmult_comm (/ _)), Qmult_assoc.
  apply Qle_shift_div_r; [assumption|].
  rewrite <- !inject_Z_mult, <- Zle_Qle. lia.
Qed.

Lemma hundredths_near_exact : forallb near_exact hundredths = true.
Proof. vm_compute. reflexivity. Qed.

Lemma near_exact_spec (k : Z) :
  0 <= k <= 100 -> exists p, frame_step 100 k = Ok (Some p) /\ k - 1 <= p <= k.
Proof.
  intros Hk. pose proof hundredths_near_exact as H.
  rewrite forallb_forall in H. specialize (H k).
  assert (Hin : In k hundredths).
  { unfold hundredths. apply in_map_iff. exists (Z.to_nat k). split; [lia|].
    apply in_seq. lia. }
  specialize (H Hin). unfold near_exact in H.
  destruct (frame_step 100 k) as [[p|]|]; try discriminate.
  apply andb_true_iff in H. rewrite !Z.leb_le in H. eauto.
Qed.

(** The percentage shown for a frame count within the total is the exact
    percentage rounded down, one less than that, or the exact percentage
    rounded up; both deviations occur. *)
Theorem frame_percent_accuracy (total_frames frame_count : Z) :
  0 < total_frames -> 0 <= frame_count <= total_frames ->
  (exists p, frame_step total_frames frame_count = Ok (Some p) /\
     100 * frame_count / total_frames - 1 <= p <=
       (100 * frame_count + total_frames - 1) / total_frames) /\
  frame_step 100 29 = Ok (Some 28) /\
  frame_step (10 ^ 19) (7 * 10 ^ 17 - 1) = Ok (Some 7).
Proof.
  intros Ht Hc. split; [|split; vm_compute; reflexivity].
  assert (Hbig : 1 <= 2 ^ 1000) by (vm_compute; discriminate).
  destruct (frame_step_returns total_frames frame_count Ht) as [p Hp].
  { split; [lia|]. apply Z.le_trans with (total_frames * 1); [lia|].
    apply Z.mul_le_mono_nonneg_l; [|exact Hbig]. apply Z.lt_le_incl. exact Ht. }
  exists p. split; [exact Hp|].
  set (lo := 100 * frame_count / total_frames).
  set (hi := (100 * frame_count + total_frames - 1) / total_frames).
  assert (Hlo : 0 <= lo <= 100).
  { unfold lo. split; [apply Z.div_pos; lia|].
    apply Z.div_le_upper_bound; lia. }
  assert (Hlo' : lo * total_frames <= 100 * frame_count).
  { unfold lo. rewrite Z.mul_comm. apply Z.mul_div_le. lia. }
  assert (Hhi : 0 <= hi <= 100).
  { unfold hi. split; [apply Z.div_pos; lia|].
    apply Z.lt_succ_r. apply Z.div_lt_upper_bound; lia. }
  assert (Hhi' : 100 * frame_count <= hi * total_frames).
  { unfold hi.
    pose proof (Z.mod_pos_bound (100 * frame_count + total_frames - 1) total_frames Ht).
    pose proof (Z.div_mod (100 * frame_count + total_frames - 1) total_frames ltac:(lia)).
    nia. }
  destruct (near_exact_spec lo Hlo) as (plo & Hplo & Hblo).
  destruct (near_exact_spec hi Hhi) as (phi & Hphi & Hbhi).
  split.
  - pose proof (frame_step_share_mono 100 total_frames lo frame_count plo p
                  ltac:(lia) Ht ltac:(lia) ltac:(lia) Hplo Hp). lia.
  - pose proof (frame_step_share_mono total_frames 100 frame_count hi p phi
                  Ht ltac:(lia) ltac:(lia) ltac:(lia) Hp Hphi). lia.
Qed.

Lemma frame_percent_accuracy_witness :
  0 < 300 /\ 0 <= 173 <= 300 /\
  frame_step 300 173 = Ok (Some 57) /\
  exists p, frame_step 300 173 = Ok (Some p) /\
    100 * 173 / 300 - 1 <= p <= (100 * 173 + 300 - 1) / 300.
Proof.
  assert (Ht : 0 < 300) by lia.
  assert (Hc : 0 <= 173 <= 300) by lia.
  split; [exact Ht|]. split; [exact Hc|]. split; [vm_compute; reflexivity|].
  exact (proj1 (frame_percent_accuracy 300 173 Ht Hc)).
Defined.

(** ** The table of formats *)

Lemma digits_no_space (d : Decimal.uint) :
  str_mem " " (NilEmpty.string_of_uint d) = false.
Proof. induction d; simpl; now rewrite ?IHd. Qed.

Lemma ljust_number (n : N) :
  exists pad, ljust 3 (str_of_N n) = (str_of_N n ++ spaces pad)%string.
Proof. unfold ljust. eauto. Qed.

Lemma split_on_spaces (k : nat) (t : string) :
  exists fields, split_on " " (spaces k ++ String " " t) = EmptyString :: fields.
Proof.
  destruct k as [|k]; cbn.
  - eauto.
  - eauto.
Qed.

Lemma split_on_first (s t : string) :
  str_mem " " s = false ->
  hd EmptyString (split_on " " (s ++ String " " t)) = s.
Proof.
  intros H.
  change (s ++ String " " t)%string with (s ++ String " " EmptyString ++ t)%string.
  rewrite (split_on_app " " s t H). reflexivity.
Qed.

Lemma spaces_then_space (k : nat) (t : string) :
  exists t', (spaces k ++ String " " t)%string = String " " t'.
Proof. destruct k as [|k]; cbn; eauto. Qed.

Lemma padded_then_space (a : string) (k : nat) (r : string) :
  exists t, ((a ++ spaces k) ++ String " " EmptyString ++ r)%string = (a ++ String " " t)%string.
Proof.
  rewrite str_app_assoc.
  change (String " " EmptyString ++ r)%string with (String " " r).
  destruct (spaces_then_space k r) as [t' ->]. eauto.
Qed.

Lemma table_row_number (verbose : bool) (n : N) (kind quality format codec size : string) :
  row_number (table_row verbose (str_of_N n) kind quality format codec size) = Ok n.
Proof.
  unfold row_number.
  assert (H : exists t, table_row verbose (str_of_N n) kind quality format codec size =
                        (str_of_N n ++ String " " t)%string).
  { destruct verbose; unfold table_row, ljust at 1; apply padded_then_space. }
  destruct H as [t ->]. rewrite split_on_first by apply digits_no_space.
  apply int_of_str_of_N.
Qed.

Lemma print_rows_spec {A : Type} (row : nat -> A -> result string) (l : list A) :
  forall i out out',
  print_rows row i l out = (out', Ok tt) ->
  exists rows,
    out' = out ++ rows /\ List.length rows = List.length l /\
    forall k x, nth_error l k = Some x ->
      exists line, nth_error rows k = Some line /\ row (i + k)%nat x = Ok line.
Proof.
  induction l as [|x l IH]; intros i out out' H; cbn [print_rows] in H.
  - injection H as <-. exists []. rewrite app_nil_r. split; [reflexivity|].
    split; [reflexivity|]. intros [|k] y; discriminate.
  - destruct (row i x) as [line|e] eqn:E; [|discriminate].
    destruct (IH _ _ _ H) as (rows & -> & Hlen & Hrows).
    exists (line :: rows). rewrite <- app_assoc. split; [reflexivity|].
    split; [cbn; now rewrite Hlen|].
    intros [|k] y Hy; cbn in Hy.
    + injection Hy as <-. exists line. rewrite Nat.add_0_r. split; [reflexivity | exact E].
    + destruct (Hrows k y Hy) as (line' & Hl & Hr). exists line'.
      split; [exact Hl|]. now rewrite Nat.add_succ_r.
Qed.

Lemma print_rows_total {A : Type} (row : nat -> A -> result string) (l : list A) :
  (forall i x, In x l -> exists line, row i x = Ok line) ->
  forall i out, exists out', print_rows row i l out = (out', Ok tt).
Proof.
  induction l as [|x l IH]; intros H i out; cbn [print_rows]; [eauto|].
  destruct (H i x (or_introl eq_refl)) as [line ->].
  apply IH. intros j y Hy. apply H. now right.
Qed.

Lemma video_row_number vc verbose i s row :
  video_row vc verbose i s = Ok row -> row_number row = Ok (N.of_nat i).
Proof.
  unfold video_row. intros H. inv_bind H as size Hsize. inv_bind H as quality Hq.
  injection H as <-. apply table_row_number.
Qed.

Lemma audio_row_number ac verbose i e row :
  audio_row ac verbose i e = Ok row -> row_number row = Ok (N.of_nat i).
Proof.
  unfold audio_row. intros H. destruct e as [s|v]; inv_bind H as size Hsize;
    injection H as <-; apply table_row_number.
Qed.

(** The table and the prompt agree: when [print_stream_options] returns,
    it has printed the five heading lines, one row per entry of
    [video_streams + audio_streams] in that order, and the closing line;
    the row of the entry at index [k] starts with the number [k + 1],
    which is the number the prompt takes for that entry. *)
Theorem print_stream_options_numbers (video_codec audio_codec : Stream -> option string)
    (video : list Stream) (audio : list MenuEntry) (verbose : bool) (out : list string) :
  print_stream_options video_codec audio_codec video audio verbose = (out, Ok tt) ->
  exists rows,
    out = [EmptyString; "Available formats:"; separator verbose; table_header verbose;
           separator verbose] ++ rows ++ [separator verbose] /\
    List.length rows = List.length (map Real video ++ audio) /\
    forall k e, nth_error (map Real video ++ audio) k = Some e ->
      exists row,
        nth_error rows k = Some row /\
        row_number row = Ok (N.of_nat (k + 1)) /\
        (if (k <? List.length video)%nat
         then exists s, e = Real s /\ video_row video_codec verbose (k + 1) s = Ok row
         else audio_row audio_codec verbose (k + 1) e = Ok row) /\
        forall st, choose_format (List.length (map Real video ++ audio))
                     [Typed (Z.of_nat k + 1)] st = (st, Chosen k).
Proof.
  unfold print_stream_options. intros H.
  destruct (print_rows (video_row video_codec verbose) 1 video _) as [out1 [[]|e]] eqn:E1;
    [|discriminate].
  destruct (print_rows (audio_row audio_codec verbose) _ audio out1) as [out2 [[]|e]] eqn:E2;
    [|discriminate].
  injection H as <-.
  destruct (print_rows_spec _ _ _ _ _ E1) as (rows1 & -> & Hlen1 & Hrows1).
  destruct (print_rows_spec _ _ _ _ _ E2) as (rows2 & -> & Hlen2 & Hrows2).
  exists (rows1 ++ rows2). split; [now rewrite <- !app_assoc|].
  split; [now rewrite !length_app, length_map, Hlen1, Hlen2|].
  intros k e Hk.
  assert (Hprompt : forall st, choose_format (List.length (map Real video ++ audio))
                                 [Typed (Z.of_nat k + 1)] st = (st, Chosen k)).
  { intros st. cbn [choose_format].
    assert (Hlt : (k < List.length (map Real video ++ audio))%nat)
      by (apply nth_error_Some; congruence).
    destruct (Z.leb_spec 1 (Z.of_nat k + 1)); [|lia].
    destruct (Z.leb_spec (Z.of_nat k + 1) (Z.of_nat (List.length (map Real video ++ audio))));
      [|lia].
    cbn [andb]. do 2 f_equal. lia. }
  destruct (Nat.ltb_spec k (List.length video)) as [Hlt|Hge].
  - rewrite nth_error_app1 in Hk by now rewrite length_map.
    rewrite nth_error_map in Hk.
    destruct (nth_error video k) as [s|] eqn:Es; [|discriminate]. injection Hk as <-.
    destruct (Hrows1 k s Es) as (row & Hrow & Hvr).
    replace (1 + k)%nat with (k + 1)%nat in Hvr by lia.
    exists row. rewrite nth_error_app1 by (rewrite Hlen1; exact Hlt).
    split; [exact Hrow|]. split; [exact (video_row_number _ _ _ _ _ Hvr)|].
    split; [eauto | exact Hprompt].
  - rewrite nth_error_app2 in Hk by now rewrite length_map.
    rewrite length_map in Hk.
    destruct (Hrows2 _ e Hk) as (row & Hrow & Har).
    replace (List.length video + 1 + (k - List.length video))%nat with (k + 1)%nat in Har by lia.
    exists row. rewrite nth_error_app2 by (rewrite Hlen1; exact Hge). rewrite Hlen1.
    split; [exact Hrow|]. split; [exact (audio_row_number _ _ _ _ _ Har)|].
    split; [exact Har | exact Hprompt].
Qed.

Lemma print_stream_options_numbers_witness :
  let codec := fun _ : Stream => Some "video/mp4; codecs=avc1" in
  print_stream_options codec codec scenario_A [] false =
    ([EmptyString; "Available formats:"; separator false; table_header false; separator false;
      "1   Video        1080p+     mp4      50.00 MB  ";
      "2   Video        1080p      mp4      40.00 MB  ";
      "3   Video        720p       mp4      30.00 MB  ";
      separator false], Ok tt) /\
  row_number "3   Video        720p       mp4      30.00 MB  " = Ok 3%N.
Proof.
  intros codec.
  assert (E : print_stream_options codec codec scenario_A [] false =
    ([EmptyString; "Available formats:"; separator false; table_header false; separator false;
      "1   Video        1080p+     mp4      50.00 MB  ";
      "2   Video        1080p      mp4      40.00 MB  ";
      "3   Video        720p       mp4      30.00 MB  ";
      separator false], Ok tt)) by (vm_compute; reflexivity).
  split; [exact E|].
  destruct (print_stream_options_numbers codec codec scenario_A [] false _ E)
    as (rows & _ & _ & Hrows).
  destruct (Hrows 2%nat (Real (video_stream 3 "720p" "mp4" (30 * MB))) eq_refl)
    as (row & _ & Hnum & (s & Hs & Hrow) & _).
  injection Hs as <-. vm_compute in Hrow. injection Hrow as <-. exact Hnum.
Defined.

Lemma in_audio_menu_real verbose best ranked s :
  In (Real s) (audio_menu verbose best ranked) -> In s ranked.
Proof.
  assert (Hinj : In (Real s) (map Real ranked) -> In s ranked).
  { intros H. apply in_map_iff in H. destruct H as (s' & Heq & H).
    injection Heq as ->. exact H. }
  assert (Hvirt : forall l, ~ In (Real s) (map Virtual l)).
  { intros l H. apply in_map_iff in H. destruct H as (? & ? & _). discriminate. }
  unfold audio_menu. destruct best; [destruct verbose|]; intros H.
  - apply in_app_or in H. destruct H as [H|H]; [auto | now destruct (Hvirt _ H)].
  - now destruct (Hvirt _ H).
  - auto.
Qed.

Lemma format_filesize_showable bytes :
  showable_size bytes -> exists text, format_filesize bytes = Ok text.
Proof.
  intros H. destruct (format_filesize_cases bytes) as [[G _]|[_ [x E]]].
  - unfold showable_size in H. lia.
  - eauto.
Qed.

(** Printing the table of a menu that [organize_streams] has returned
    does not fail, when the file sizes of the catalogue are within the
    range [format_filesize] can show. *)
Theorem print_stream_options_returns (video_codec audio_codec : Stream -> option string)
    (streams : list Stream) (verbose : bool) (video : list Stream) (audio : list MenuEntry) :
  Forall ascii_labels streams ->
  Forall (fun s => showable_size (filesize s)) streams ->
  organize_streams streams verbose = Ok (video, audio) ->
  snd (print_stream_options video_codec audio_codec video audio verbose) = Ok tt.
Proof.
  intros _ Hsizes H. rewrite Forall_forall in Hsizes.
  destruct (organize_streams_unfold _ _ _ _ H) as (st & ranked & Hst & Hv & Hrk & ->).
  destruct (collect_spec _ _ _ Hst) as (Hinv & Haudio & _).
  assert (Hranked : forall s, In s ranked -> In s streams).
  { intros s Hs. destruct (rank_audio_spec _ _ Hrk) as (_ & _ & _ & _ & Hmem).
    destruct (Hmem s Hs) as [Hin _]. rewrite Haudio in Hin.
    now apply filter_In in Hin. }
  unfold print_stream_options.
  destruct (print_rows_total (video_row video_codec verbose) video) with
    (i := 1%nat)
    (out := [EmptyString; "Available formats:"; separator verbose; table_header verbose;
             separator verbose]) as [out1 ->].
  { intros i s Hs. unfold video_row.
    destruct (menu_video_entries _ _ _ _ H s Hs) as (Hc & _ & Hres).
    apply filter_In in Hc. destruct Hc as [Hin _].
    destruct (format_filesize_showable _ (Hsizes s Hin)) as [size ->]. cbn [rbind].
    unfold video_quality. destruct (decide _); [destruct (Nat.eqb i 1); cbn [rbind]; eauto|].
    destruct (resolution s); [cbn [rbind]; eauto | contradiction]. }
  destruct (print_rows_total (audio_row audio_codec verbose)
              (audio_menu verbose (best_audio st) ranked))
    with (i := (List.length video + 1)%nat) (out := out1) as [out2 ->]; [|reflexivity].
  intros i e He. unfold audio_row. destruct e as [s|v].
  - apply in_audio_menu_real in He.
    destruct (format_filesize_showable _ (Hsizes s (Hranked s He))) as [size ->].
    cbn [rbind]. eauto.
  - apply in_audio_menu_virtual, in_virtual_streams in He.
    destruct He as (a & Ha & [-> | ->]); cbn [v_filesize mp3_stream aac_stream];
      destruct (format_filesize_showable _ (Hsizes a (Hranked a Ha))) as [size ->];
      cbn [rbind]; eauto.
Qed.

Lemma print_stream_options_returns_witness :
  let codec := fun _ : Stream => None in
  Forall ascii_labels mixed_catalogue /\
  Forall (fun s => showable_size (filesize s)) mixed_catalogue /\
  (exists video audio, organize_streams mixed_catalogue true = Ok (video, audio) /\
     snd (print_stream_options codec codec video audio true) = Ok tt).
Proof.
  intros codec.
  assert (Ha : Forall ascii_labels mixed_catalogue) by (repeat constructor).
  assert (Hs : Forall (fun s => showable_size (filesize s)) mixed_catalogue)
    by (repeat constructor).
  split; [exact Ha|]. split; [exact Hs|].
  destruct (organize_streams mixed_catalogue true) as [[video audio]|e] eqn:E.
  - exists video, audio. split; [reflexivity|].
    exact (print_stream_options_returns codec codec mixed_catalogue true video audio Ha Hs E).
  - vm_compute in E. discriminate E.
Defined.
